(** * HealthInsureChain: the PolicyClaim ledger and the Fabric mirror

    A shallow embedding of
    - the Solidity contract [PolicyClaim] (policy registration, claim
      submission and processing, identifier derivation by
      [keccak256(abi.encodePacked(...))]), and
    - the JavaScript [FabricSimulator] ledger with the
      [EthereumFabricBridge] policy synchronisation,
    together with the properties of the design document that concern them.

    Modelling choices.
    - [uint256], [address] and [bytes32] values are integers in [Z]; the
      compiler's checked arithmetic (Solidity 0.8) is written out and fails
      with a panic.  A [string] is its sequence of bytes.
    - A contract function is a function from the storage to a result: a
      return value with the new storage and the emitted events, a revert
      with its reason string, or a panic.  A failed call leaves the storage
      of the transaction's start.
    - [keccak256] is Keccak-256 itself, so that identifiers can be
      evaluated; no property below relies on unfolding it except the
      worked scenarios.
    - The simulator's ledger is a JavaScript [Map], kept as an association
      list in insertion order; record payloads are finite maps from
      property names to values; the clock readings of a call are arguments.
      JavaScript numbers are an abstract type. *)

From Stdlib Require Import ZArith Lia List Bool.
From Stdlib.Strings Require Import Ascii String Byte.
From stdpp Require Import base option list gmap strings.

Import ListNotations.
Local Open Scope string_scope.
Local Open Scope list_scope.
Local Open Scope Z_scope.

(** ** Bytes and big-endian words *)

Module Bytes.

Definition byte_to_Z (b : byte) : Z := Z.of_N (Byte.to_N b).

Definition byte_of_Z (z : Z) : byte :=
  match Byte.of_N (Z.to_N (z mod 256)) with
  | Some b => b
  | None => x00
  end.

(** The [w] low-order bytes of [n], most significant first. *)
Fixpoint be_bytes (w : nat) (n : Z) : list byte :=
  match w with
  | O => []
  | S w' => be_bytes w' (n / 256) ++ [byte_of_Z n]
  end.

Definition be_value (bs : list byte) : Z :=
  fold_left (fun acc b => acc * 256 + byte_to_Z b) bs 0.

(** Little-endian reading of a group of bytes (a Keccak lane). *)
Fixpoint le_value (bs : list byte) : Z :=
  match bs with
  | [] => 0
  | b :: bs' => byte_to_Z b + 256 * le_value bs'
  end.

Fixpoint le_bytes (w : nat) (n : Z) : list byte :=
  match w with
  | O => []
  | S w' => byte_of_Z n :: le_bytes w' (n / 256)
  end.

Definition of_string (s : string) : list byte := list_byte_of_string s.

End Bytes.

(** ** Keccak-256, the EVM's [keccak256] *)

Module Keccak.
Import Bytes.

Definition mask64 : Z := 2 ^ 64 - 1.

Definition rotl64 (x : Z) (n : Z) : Z :=
  Z.lor (Z.land (Z.shiftl x n) mask64) (Z.shiftr x (64 - n)).

Definition lane (st : list Z) (x y : nat) : Z :=
  nth (x mod 5 + 5 * (y mod 5))%nat st 0.

Definition coords : list (nat * nat) :=
  flat_map (fun y => map (fun x => (x, y)) (seq 0 5)) (seq 0 5).

Definition round_constants : list Z :=
  [ 0x0000000000000001; 0x0000000000008082; 0x800000000000808A;
    0x8000000080008000; 0x000000000000808B; 0x0000000080000001;
    0x8000000080008081; 0x8000000000008009; 0x000000000000008A;
    0x0000000000000088; 0x0000000080008009; 0x000000008000000A;
    0x000000008000808B; 0x800000000000008B; 0x8000000000008089;
    0x8000000000008003; 0x8000000000008002; 0x8000000000000080;
    0x000000000000800A; 0x800000008000000A; 0x8000000080008081;
    0x8000000000008080; 0x0000000080000001; 0x8000000080008008 ].

(** Rotation offsets, indexed [x + 5 * y]. *)
Definition rotation_offsets : list Z :=
  [  0;  1; 62; 28; 27;
    36; 44;  6; 55; 20;
     3; 10; 43; 25; 39;
    41; 45; 15; 21;  8;
    18;  2; 61; 56; 14 ].

Definition theta (st : list Z) : list Z :=
  let c := map (fun x => fold_left Z.lxor
                   (map (fun y => lane st x y) (seq 0 5)) 0) (seq 0 5) in
  let d := map (fun x => Z.lxor (nth ((x + 4) mod 5)%nat c 0)
                                (rotl64 (nth ((x + 1) mod 5)%nat c 0) 1))
               (seq 0 5) in
  map (fun '(x, y) => Z.lxor (lane st x y) (nth x d 0)) coords.

(** [B[y, 2x + 3y] = rot(A[x, y], r[x, y])], read backwards: the lane
    that lands on [(x', y')] comes from [x = (x' + 3 y') mod 5], [y = x']. *)
Definition rho_pi (st : list Z) : list Z :=
  map (fun '(x', y') =>
         let x := ((x' + 3 * y') mod 5)%nat in
         let y := x' in
         rotl64 (lane st x y) (nth (x + 5 * y)%nat rotation_offsets 0))
      coords.

Definition chi (st : list Z) : list Z :=
  map (fun '(x, y) =>
         Z.lxor (lane st x y)
                (Z.land (Z.lxor (lane st (x + 1) y) mask64)
                        (lane st (x + 2) y)))
      coords.

Definition iota (rc : Z) (st : list Z) : list Z :=
  match st with
  | [] => []
  | a :: rest => Z.lxor a rc :: rest
  end.

Definition round (st : list Z) (rc : Z) : list Z :=
  iota rc (chi (rho_pi (theta st))).

Definition keccak_f (st : list Z) : list Z :=
  fold_left round round_constants st.

Definition rate : nat := 136.

(** Multi-rate padding [pad10*1] with the Keccak domain byte [0x01]. *)
Definition pad (msg : list byte) : list byte :=
  let r := (rate - (length msg mod rate))%nat in
  match r with
  | 1%nat => msg ++ [x81]
  | _ => msg ++ [x01] ++ repeat x00 (r - 2) ++ [x80]
  end.

Fixpoint chunks {A} (n : nat) (fuel : nat) (l : list A) : list (list A) :=
  match fuel with
  | O => []
  | S fuel' =>
      match l with
      | [] => []
      | _ => firstn n l :: chunks n fuel' (skipn n l)
      end
  end.

Definition lanes_of_block (blk : list byte) : list Z :=
  map le_value (chunks 8 (length blk) blk).

Fixpoint xor_into (st blk : list Z) : list Z :=
  match st, blk with
  | a :: st', b :: blk' => Z.lxor a b :: xor_into st' blk'
  | _, _ => st
  end.

Definition absorb (st : list Z) (blk : list byte) : list Z :=
  keccak_f (xor_into st (lanes_of_block blk)).

Definition digest (msg : list byte) : list byte :=
  let padded := pad msg in
  let st := fold_left absorb (chunks rate (length padded) padded)
                      (repeat 0 25) in
  flat_map (le_bytes 8) (firstn 4 st).

End Keccak.

(** [keccak256] as the EVM exposes it: a [bytes32], here the big-endian
    value of the 32 digest bytes. *)
Definition keccak256 (preimage : list byte) : Z :=
  Bytes.be_value (Keccak.digest preimage).

Arguments keccak256 : simpl never.
Global Opaque keccak256.


(** ** [abi.encodePacked] *)

Module Abi.
Import Bytes.

(** The argument types that occur in the contracts. *)
Inductive value : Type :=
| Address (a : Z)
| Uint256 (n : Z)
| Bytes32 (b : Z)
| Str (s : string).

(** Packed mode: static types take their own width, without padding
    to a word for [address]; a dynamic [string] is laid down as its bytes,
    without a length field and without padding. *)
Definition encode1 (v : value) : list byte :=
  match v with
  | Address a => be_bytes 20 a
  | Uint256 n => be_bytes 32 n
  | Bytes32 b => be_bytes 32 b
  | Str s => of_string s
  end.

Definition encodePacked (vs : list value) : list byte :=
  flat_map encode1 vs.

End Abi.

(** ** EVM value ranges, results and checked arithmetic *)

Definition MAX_UINT256 : Z := 2 ^ 256 - 1.

Definition is_uint256 (n : Z) : bool := (0 <=? n) && (n <=? MAX_UINT256).
Definition is_address (a : Z) : bool := (0 <=? a) && (a <? 2 ^ 160).

(** A call either returns, reverts with a reason string ([require]), or
    panics (compiler-inserted checks: code [0x11] arithmetic overflow,
    [0x12] division by zero).  In both failure cases the EVM rolls the
    storage back. *)
Inductive result (A : Type) : Type :=
| Ok (a : A)
| Revert (reason : string)
| Panic (code : Z).
Arguments Ok {A} a.
Arguments Revert {A} reason.
Arguments Panic {A} code.

Definition checked_mul (a b : Z) : result Z :=
  if a * b <=? MAX_UINT256 then Ok (a * b) else Panic 0x11.

Definition checked_div (a b : Z) : result Z :=
  if b =? 0 then Panic 0x12 else Ok (a / b).

Definition checked_incr (a : Z) : result Z :=
  if a + 1 <=? MAX_UINT256 then Ok (a + 1) else Panic 0x11.

(** ** The [PolicyClaim] contract *)

Inductive ClaimStatus : Type := Pending | Approved | Rejected.

Definition ClaimStatus_eqb (a b : ClaimStatus) : bool :=
  match a, b with
  | Pending, Pending | Approved, Approved | Rejected, Rejected => true
  | _, _ => false
  end.

Module Policy.
Record t : Type := mk {
  policyId : Z;
  policyHolder : Z;
  insuredAmount : Z;
  premium : Z;
  startDate : Z;
  endDate : Z;
  isActive : bool;
  policyHash : string
}.
(** What an unwritten slot of [mapping(bytes32 => Policy)] reads as. *)
Definition zero : t := mk 0 0 0 0 0 0 false "".
Definition set_isActive (b : bool) (p : t) : t :=
  mk (policyId p) (policyHolder p) (insuredAmount p) (premium p)
     (startDate p) (endDate p) b (policyHash p).
End Policy.

Module Claim.
Record t : Type := mk {
  claimId : Z;
  policyId : Z;
  claimant : Z;
  claimAmount : Z;
  claimDescription : string;
  submissionDate : Z;
  status : ClaimStatus;
  rejectionReason : string
}.
Definition zero : t := mk 0 0 0 0 "" 0 Pending "".
Definition set_status (st : ClaimStatus) (c : t) : t :=
  mk (claimId c) (policyId c) (claimant c) (claimAmount c)
     (claimDescription c) (submissionDate c) st (rejectionReason c).
Definition set_rejectionReason (r : string) (c : t) : t :=
  mk (claimId c) (policyId c) (claimant c) (claimAmount c)
     (claimDescription c) (submissionDate c) (status c) r.
End Claim.

Inductive Event : Type :=
| PolicyRegistered (policyId policyHolder insuredAmount premium
                    startDate endDate : Z)
| ClaimSubmitted (claimId policyId claimant claimAmount : Z)
                 (claimDescription : string)
| ClaimProcessed (claimId policyId : Z) (status : ClaimStatus)
                 (reason : string)
| PolicyDeactivated (policyId policyHolder : Z).

(** The transaction context a call reads. *)
Record Env : Type := {
  msg_sender : Z;
  block_timestamp : Z
}.

Module PolicyClaim.

Record Storage : Type := mkStorage {
  insurer : Z;
  totalPolicies : Z;
  totalClaims : Z;
  policies : gmap Z Policy.t;
  claims : gmap Z Claim.t;
  userPolicies : gmap Z (list Z);
  userClaims : gmap Z (list Z)
}.

Definition MINIMUM_PREMIUM : Z := 10 ^ 16.   (* 0.01 ether *)
Definition MAXIMUM_CLAIM_RATIO : Z := 80.

(** Reading a mapping never fails: absent keys read as zero. *)
Definition policy_at (s : Storage) (id : Z) : Policy.t :=
  default Policy.zero (policies s !! id).
Definition claim_at (s : Storage) (id : Z) : Claim.t :=
  default Claim.zero (claims s !! id).
Definition ids_at (m : gmap Z (list Z)) (a : Z) : list Z :=
  default [] (m !! a).

Definition set_totalPolicies (n : Z) (s : Storage) : Storage :=
  mkStorage (insurer s) n (totalClaims s) (policies s) (claims s)
            (userPolicies s) (userClaims s).
Definition set_totalClaims (n : Z) (s : Storage) : Storage :=
  mkStorage (insurer s) (totalPolicies s) n (policies s) (claims s)
            (userPolicies s) (userClaims s).
Definition set_policy (id : Z) (p : Policy.t) (s : Storage) : Storage :=
  mkStorage (insurer s) (totalPolicies s) (totalClaims s)
            (<[id := p]> (policies s)) (claims s)
            (userPolicies s) (userClaims s).
Definition set_claim (id : Z) (c : Claim.t) (s : Storage) : Storage :=
  mkStorage (insurer s) (totalPolicies s) (totalClaims s)
            (policies s) (<[id := c]> (claims s))
            (userPolicies s) (userClaims s).
Definition push_userPolicy (a id : Z) (s : Storage) : Storage :=
  mkStorage (insurer s) (totalPolicies s) (totalClaims s)
            (policies s) (claims s)
            (<[a := ids_at (userPolicies s) a ++ [id]]> (userPolicies s))
            (userClaims s).
Definition push_userClaim (a id : Z) (s : Storage) : Storage :=
  mkStorage (insurer s) (totalPolicies s) (totalClaims s)
            (policies s) (claims s) (userPolicies s)
            (<[a := ids_at (userClaims s) a ++ [id]]> (userClaims s)).

(** *** The execution monad: storage, emitted events, failure *)

Definition M (A : Type) : Type :=
  Storage -> result (A * Storage * list Event).

Definition ret {A} (a : A) : M A := fun s => Ok (a, s, []).

Definition bind {A B} (m : M A) (f : A -> M B) : M B :=
  fun s =>
    match m s with
    | Ok (a, s1, ev1) =>
        match f a s1 with
        | Ok (b, s2, ev2) => Ok (b, s2, ev1 ++ ev2)
        | Revert r => Revert r
        | Panic c => Panic c
        end
    | Revert r => Revert r
    | Panic c => Panic c
    end.

Definition get : M Storage := fun s => Ok (s, s, []).
Definition modify (f : Storage -> Storage) : M unit :=
  fun s => Ok (tt, f s, []).
Definition emit (e : Event) : M unit := fun s => Ok (tt, s, [e]).
Definition require (cond : bool) (reason : string) : M unit :=
  fun s => if cond then Ok (tt, s, []) else Revert reason.
Definition lift {A} (r : result A) : M A :=
  fun s =>
    match r with
    | Ok a => Ok (a, s, [])
    | Revert m => Revert m
    | Panic c => Panic c
    end.

Notation "'let*' x ':=' m 'in' k" := (bind m (fun x => k))
  (at level 10, x name, m at level 100, k at level 200).
Notation "'exec' m 'in' k" := (bind m (fun _ => k))
  (at level 10, m at level 100, k at level 200).

(** *** Modifiers *)

Definition onlyInsurer (env : Env) : M unit :=
  let* s := get in
  require (msg_sender env =? insurer s)
          "Only insurer can perform this action".

Definition validPolicy (_policyId : Z) : M unit :=
  let* s := get in
  exec require (negb (Policy.policyId (policy_at s _policyId) =? 0))
               "Policy does not exist" in
  require (Policy.isActive (policy_at s _policyId))
          "Policy is not active".

Definition validClaim (_claimId : Z) : M unit :=
  let* s := get in
  require (negb (Claim.claimId (claim_at s _claimId) =? 0))
          "Claim does not exist".

Definition constructor (env : Env) : Storage :=
  mkStorage (msg_sender env) 0 0 ∅ ∅ ∅ ∅.

(** *** Identifier preimages *)

Definition policy_preimage (_policyHolder _insuredAmount _premium
    _startDate _endDate timestamp counter : Z) : list byte :=
  Abi.encodePacked
    [ Abi.Address _policyHolder; Abi.Uint256 _insuredAmount;
      Abi.Uint256 _premium; Abi.Uint256 _startDate;
      Abi.Uint256 _endDate; Abi.Uint256 timestamp;
      Abi.Uint256 counter ].

Definition claim_preimage (_policyId sender _claimAmount : Z)
    (_claimDescription : string) (timestamp counter : Z) : list byte :=
  Abi.encodePacked
    [ Abi.Bytes32 _policyId; Abi.Address sender;
      Abi.Uint256 _claimAmount; Abi.Str _claimDescription;
      Abi.Uint256 timestamp; Abi.Uint256 counter ].

(** *** External functions *)

Definition registerPolicy (env : Env)
    (_policyHolder _insuredAmount _premium _startDate _endDate : Z)
    (_policyHash : string) : M Z :=
  exec onlyInsurer env in
  exec require (negb (_policyHolder =? 0))
               "Invalid policy holder address" in
  exec require (0 <? _insuredAmount)
               "Insured amount must be greater than 0" in
  exec require (MINIMUM_PREMIUM <=? _premium)
               "Premium below minimum required" in
  exec require (_startDate <? _endDate)
               "End date must be after start date" in
  exec require (block_timestamp env <? _endDate)
               "End date must be in the future" in
  let* s := get in
  let policyId :=
    keccak256 (policy_preimage _policyHolder _insuredAmount _premium
                 _startDate _endDate (block_timestamp env)
                 (totalPolicies s)) in
  exec modify (set_policy policyId
                 (Policy.mk policyId _policyHolder _insuredAmount _premium
                            _startDate _endDate true _policyHash)) in
  exec modify (push_userPolicy _policyHolder policyId) in
  let* n := lift (checked_incr (totalPolicies s)) in
  exec modify (set_totalPolicies n) in
  exec emit (PolicyRegistered policyId _policyHolder _insuredAmount
               _premium _startDate _endDate) in
  ret policyId.

Definition submitClaim (env : Env) (_policyId _claimAmount : Z)
    (_claimDescription : string) : M Z :=
  exec validPolicy _policyId in
  let* s := get in
  let policy := policy_at s _policyId in
  exec require (msg_sender env =? Policy.policyHolder policy)
               "Only policy holder can submit claims" in
  exec require (0 <? _claimAmount)
               "Claim amount must be greater than 0" in
  exec require (Policy.startDate policy <=? block_timestamp env)
               "Policy has not started yet" in
  exec require (block_timestamp env <=? Policy.endDate policy)
               "Policy has expired" in
  let claimId :=
    keccak256 (claim_preimage _policyId (msg_sender env) _claimAmount
                 _claimDescription (block_timestamp env)
                 (totalClaims s)) in
  exec modify (set_claim claimId
                 (Claim.mk claimId _policyId (msg_sender env) _claimAmount
                           _claimDescription (block_timestamp env)
                           Pending "")) in
  exec modify (push_userClaim (msg_sender env) claimId) in
  let* n := lift (checked_incr (totalClaims s)) in
  exec modify (set_totalClaims n) in
  exec emit (ClaimSubmitted claimId _policyId (msg_sender env)
               _claimAmount _claimDescription) in
  ret claimId.

(** The three verification conditions of [processClaim]. *)
Definition isPolicyValid (env : Env) (policy : Policy.t) : bool :=
  Policy.isActive policy
  && (Policy.startDate policy <=? block_timestamp env)
  && (block_timestamp env <=? Policy.endDate policy).

Definition isAmountValid (claim : Claim.t) (policy : Policy.t) : bool :=
  Claim.claimAmount claim <=? Policy.insuredAmount policy.

Definition isAmountReasonable (claim : Claim.t) (policy : Policy.t)
    : result bool :=
  match checked_mul (Claim.claimAmount claim) 100 with
  | Ok scaled =>
      match checked_div scaled (Policy.insuredAmount policy) with
      | Ok ratio => Ok (ratio <=? MAXIMUM_CLAIM_RATIO)
      | Revert r => Revert r
      | Panic c => Panic c
      end
  | Revert r => Revert r
  | Panic c => Panic c
  end.

Definition update_claim (id : Z) (f : Claim.t -> Claim.t) : M unit :=
  modify (fun s => set_claim id (f (claim_at s id)) s).

Definition processClaim (env : Env) (_claimId : Z) : M bool :=
  exec validClaim _claimId in
  let* s := get in
  let claim := claim_at s _claimId in
  let policy := policy_at s (Claim.policyId claim) in
  exec require (ClaimStatus_eqb (Claim.status claim) Pending)
               "Claim already processed" in
  let isPolicyValid := isPolicyValid env policy in
  let isAmountValid := isAmountValid claim policy in
  let* isAmountReasonable := lift (isAmountReasonable claim policy) in
  let approved := isPolicyValid && isAmountValid && isAmountReasonable in
  exec (if approved then
          update_claim _claimId (Claim.set_status Approved)
        else
          exec update_claim _claimId (Claim.set_status Rejected) in
          if negb isPolicyValid then
            update_claim _claimId
              (Claim.set_rejectionReason "Policy is not valid or has expired")
          else if negb isAmountValid then
            update_claim _claimId
              (Claim.set_rejectionReason "Claim amount exceeds insured amount")
          else if negb isAmountReasonable then
            update_claim _claimId
              (Claim.set_rejectionReason
                 "Claim amount exceeds maximum allowed ratio")
          else ret tt) in
  let* s' := get in
  let claim' := claim_at s' _claimId in
  exec emit (ClaimProcessed _claimId (Claim.policyId claim')
               (Claim.status claim') (Claim.rejectionReason claim')) in
  ret approved.

Definition deactivatePolicy (env : Env) (_policyId : Z) : M unit :=
  exec onlyInsurer env in
  exec validPolicy _policyId in
  exec modify (fun s => set_policy _policyId
                 (Policy.set_isActive false (policy_at s _policyId)) s) in
  let* s := get in
  emit (PolicyDeactivated _policyId
          (Policy.policyHolder (policy_at s _policyId))).

Definition getPolicy (_policyId : Z) : M Policy.t :=
  let* s := get in
  exec require (negb (Policy.policyId (policy_at s _policyId) =? 0))
               "Policy does not exist" in
  ret (policy_at s _policyId).

Definition getClaim (_claimId : Z) : M Claim.t :=
  let* s := get in
  exec require (negb (Claim.claimId (claim_at s _claimId) =? 0))
               "Claim does not exist" in
  ret (claim_at s _claimId).

Definition getUserPolicies (_user : Z) (s : Storage) : list Z :=
  ids_at (userPolicies s) _user.

Definition getUserClaims (_user : Z) (s : Storage) : list Z :=
  ids_at (userClaims s) _user.

Definition getContractStats (s : Storage) : Z * Z * Z :=
  let activePolicies := 0 in
  (totalPolicies s, totalClaims s, activePolicies).

Definition isPolicyValidForClaims (env : Env) (_policyId : Z)
    (s : Storage) : bool :=
  let policy := policy_at s _policyId in
  negb (Policy.policyId policy =? 0)
  && Policy.isActive policy
  && (Policy.startDate policy <=? block_timestamp env)
  && (block_timestamp env <=? Policy.endDate policy).

(** *** Transactions and runs *)

Inductive Tx : Type :=
| RegisterPolicy (_policyHolder _insuredAmount _premium
                  _startDate _endDate : Z) (_policyHash : string)
| SubmitClaim (_policyId _claimAmount : Z) (_claimDescription : string)
| ProcessClaim (_claimId : Z)
| DeactivatePolicy (_policyId : Z).

Inductive Ret : Type :=
| RBytes32 (id : Z)
| RBool (b : bool)
| RUnit.

Definition call (env : Env) (tx : Tx) : M Ret :=
  match tx with
  | RegisterPolicy h a p sd ed ph =>
      let* id := registerPolicy env h a p sd ed ph in ret (RBytes32 id)
  | SubmitClaim pid a d =>
      let* id := submitClaim env pid a d in ret (RBytes32 id)
  | ProcessClaim cid =>
      let* b := processClaim env cid in ret (RBool b)
  | DeactivatePolicy pid =>
      exec deactivatePolicy env pid in ret RUnit
  end.

(** Calldata and context as the ABI admits them: addresses are 160-bit,
    every other word 256-bit. *)
Definition wf_env (env : Env) : bool :=
  is_address (msg_sender env) && is_uint256 (block_timestamp env).

Definition wf_tx (tx : Tx) : bool :=
  match tx with
  | RegisterPolicy h a p sd ed _ =>
      is_address h && is_uint256 a && is_uint256 p
      && is_uint256 sd && is_uint256 ed
  | SubmitClaim pid a _ => is_uint256 pid && is_uint256 a
  | ProcessClaim cid => is_uint256 cid
  | DeactivatePolicy pid => is_uint256 pid
  end.

(** The storage after a transaction: a failed call leaves it as it was. *)
Definition apply (etx : Env * Tx) (s : Storage) : Storage :=
  match call (fst etx) (snd etx) s with
  | Ok (_, s', _) => s'
  | _ => s
  end.

Definition run (txs : list (Env * Tx)) (s : Storage) : Storage :=
  fold_left (fun s etx => apply etx s) txs s.

(** One successful, well-formed transaction. *)
Inductive step (s s' : Storage) : Prop :=
| step_call env tx r ev :
    wf_env env = true -> wf_tx tx = true ->
    call env tx s = Ok (r, s', ev) -> step s s'.

Inductive steps : Storage -> Storage -> Prop :=
| steps_refl s : steps s s
| steps_snoc s1 s2 s3 : steps s1 s2 -> step s2 s3 -> steps s1 s3.

Definition reachable (s : Storage) : Prop :=
  exists env, wf_env env = true /\ steps (constructor env) s.

End PolicyClaim.

(** ** JavaScript built-ins used by the Fabric simulator *)

Module Js.

Definition digit (d : Z) : ascii :=
  ascii_of_N (48 + Z.to_N (d mod 10)).

(** [n] written with exactly [w] decimal digits (the low-order ones). *)
Fixpoint pad (w : nat) (n : Z) (acc : string) : string :=
  match w with
  | O => acc
  | S w' => pad w' (n / 10) (String (digit n) acc)
  end.

Fixpoint digits (fuel : nat) (n : Z) (acc : string) : string :=
  match fuel with
  | O => acc
  | S fuel' =>
      let acc' := String (digit n) acc in
      if n <? 10 then acc' else digits fuel' (n / 10) acc'
  end.

(** [String(n)] for an integral number, e.g. inside a template literal. *)
Definition decimal (n : Z) : string :=
  if n <? 0
  then String "-" (digits (S (Z.to_nat (Z.log2 (- n)))) (- n) "")
  else digits (S (Z.to_nat (Z.log2 n))) n "".

Definition msPerDay : Z := 86400000.

(** Proleptic Gregorian date of a day number counted from 1970-01-01. *)
Definition civil_from_days (z : Z) : Z * Z * Z :=
  let z := z + 719468 in
  let era := z / 146097 in
  let doe := z - era * 146097 in
  let yoe := (doe - doe / 1460 + doe / 36524 - doe / 146096) / 365 in
  let doy := doe - (365 * yoe + yoe / 4 - yoe / 100) in
  let mp := (5 * doy + 2) / 153 in
  let d := doy - (153 * mp + 2) / 5 + 1 in
  let m := if mp <? 10 then mp + 3 else mp - 9 in
  let y := yoe + era * 400 + (if m <=? 2 then 1 else 0) in
  (y, m, d).

(** [new Date(ms).toISOString()], for a time value [ms] in milliseconds
    since the epoch: [YYYY-MM-DDTHH:mm:ss.sssZ], with the signed six-digit
    year outside years 0 to 9999. *)
Definition toISOString (ms : Z) : string :=
  let '(y, m, d) := civil_from_days (ms / msPerDay) in
  let t := ms mod msPerDay in
  let year :=
    if (0 <=? y) && (y <=? 9999) then pad 4 y ""
    else String (if y <? 0 then "-"%char else "+"%char)
                (pad 6 (Z.abs y) "") in
  (year ++ "-" ++ pad 2 m "" ++ "-" ++ pad 2 d "" ++ "T"
   ++ pad 2 (t / 3600000) "" ++ ":" ++ pad 2 (t / 60000 mod 60) "" ++ ":"
   ++ pad 2 (t / 1000 mod 60) "" ++ "." ++ pad 3 (t mod 1000) "" ++ "Z")%string.

End Js.

(** ** The Fabric simulator ledger and the Ethereum-Fabric bridge *)

Module Fabric.

Section Simulator.

(** JavaScript numbers are carried as an abstract type: the simulator
    stores them and never calculates with them.  [parseFloat] and the
    number-to-string conversion are the language's. *)
Variable number : Type.
Context {number_eq_dec : EqDecision number}.
Variable parseFloat : string -> number.
Variable numberToString : number -> string.

Inductive jsval : Type :=
| JUndefined
| JNull
| JBool (b : bool)
| JNumber (n : number)
| JString (s : string).

#[export] Instance jsval_eq_dec : EqDecision jsval.
Proof. solve_decision. Defined.

(** String conversion, as a template literal applies it. *)
Definition toString (v : jsval) : string :=
  match v with
  | JUndefined => "undefined"
  | JNull => "null"
  | JBool true => "true"
  | JBool false => "false"
  | JNumber n => numberToString n
  | JString s => s
  end.

(** A plain object: property name to value; a missing property reads
    as [undefined]. *)
Definition prop (o : gmap string jsval) (k : string) : jsval :=
  default JUndefined (o !! k).

(** The records kept in the ledger: [{ type, id, data }]. *)
Record record : Type := mkRecord {
  type : string;
  id : jsval;
  data : gmap string jsval
}.

(** [this.ledger], a JavaScript [Map]: keys in insertion order, [set] on
    a present key replaces the value where it stands. *)
Fixpoint map_get (k : jsval) (m : list (jsval * record)) : option record :=
  match m with
  | [] => None
  | (k', v) :: m' => if decide (k = k') then Some v else map_get k m'
  end.

Fixpoint map_set (k : jsval) (v : record) (m : list (jsval * record))
    : list (jsval * record) :=
  match m with
  | [] => [(k, v)]
  | (k', v') :: m' =>
      if decide (k = k') then (k, v) :: m' else (k', v') :: map_set k v m'
  end.

Definition map_values (m : list (jsval * record)) : list record :=
  map snd m.

Definition map_size (m : list (jsval * record)) : nat := length m.

(** [createPatientRecord(data)]; [t1], [t2] are the two readings of the
    clock, in the order the object literal takes them. *)
Definition createPatientRecord (t1 t2 : Z) (data : gmap string jsval)
    (ledger : list (jsval * record)) : record * list (jsval * record) :=
  let record :=
    mkRecord "PatientRecord" (prop data "patientId")
      (<["updatedAt" := JString (Js.toISOString t2)]>
         (<["createdAt" := JString (Js.toISOString t1)]>
            (<["status" := JString "pending"]> data))) in
  (record, map_set (prop data "patientId") record ledger).

Definition createClaimRequest (t1 t2 : Z) (data : gmap string jsval)
    (ledger : list (jsval * record)) : record * list (jsval * record) :=
  let claim :=
    mkRecord "ClaimRequest" (prop data "claimId")
      (<["updatedAt" := JString (Js.toISOString t2)]>
         (<["createdAt" := JString (Js.toISOString t1)]>
            (<["status" := JString "submitted"]> data))) in
  (claim, map_set (prop data "claimId") claim ledger).

(** A thrown [Error] carries its message; the ledger is then as before. *)
Definition updateClaimStatus (t : Z) (claimId status ethereumTxHash : jsval)
    (ledger : list (jsval * record))
    : string + record * list (jsval * record) :=
  match map_get claimId ledger with
  | None => inl ("Claim " ++ toString claimId ++ " not found")%string
  | Some claim =>
      let claim' :=
        mkRecord (type claim) (id claim)
          (<["updatedAt" := JString (Js.toISOString t)]>
             (<["ethereumTxHash" := ethereumTxHash]>
                (<["status" := status]> (data claim)))) in
      inr (claim', map_set claimId claim' ledger)
  end.

Definition verification_id (policyId patientId : jsval) : string :=
  ("VERIFICATION_" ++ toString policyId ++ "_" ++ toString patientId)%string.

Definition verifyPolicyWithEthereum (t : Z) (data : gmap string jsval)
    (ledger : list (jsval * record)) : record * list (jsval * record) :=
  let verification :=
    mkRecord "PolicyVerification"
      (JString (verification_id (prop data "policyId")
                                (prop data "patientId")))
      (<["verifiedAt" := JString (Js.toISOString t)]> data) in
  (verification, map_set (id verification) verification ledger).

Definition getPatientRecord (patientId : jsval)
    (ledger : list (jsval * record)) : string + record :=
  match map_get patientId ledger with
  | Some record =>
      if decide (type record = "PatientRecord") then inr record
      else inl ("Patient record " ++ toString patientId ++ " not found")%string
  | None => inl ("Patient record " ++ toString patientId ++ " not found")%string
  end.

Definition getClaimRequest (claimId : jsval)
    (ledger : list (jsval * record)) : string + record :=
  match map_get claimId ledger with
  | Some claim =>
      if decide (type claim = "ClaimRequest") then inr claim
      else inl ("Claim request " ++ toString claimId ++ " not found")%string
  | None => inl ("Claim request " ++ toString claimId ++ " not found")%string
  end.

Definition getAllPatientRecords (ledger : list (jsval * record))
    : list record :=
  filter (fun item => type item = "PatientRecord") (map_values ledger).

Definition getAllClaimRequests (ledger : list (jsval * record))
    : list record :=
  filter (fun item => type item = "ClaimRequest") (map_values ledger).

(** [NaN] among the numbers.  Equality on [number] is that of the keys of
    a [Map] (SameValueZero: [NaN] is one value and the two zeros are
    alike); [===] differs from it in that [NaN] is not equal to itself. *)
Variable isNaN : number -> bool.

(** [a === b]. *)
Definition strict_equal (a b : jsval) : bool :=
  match a with
  | JNumber n => negb (isNaN n) && bool_decide (a = b)
  | _ => bool_decide (a = b)
  end.

Definition queryRecordsByHospital (hospitalId : jsval)
    (ledger : list (jsval * record)) : list record :=
  filter (fun item =>
            type item = "PatientRecord"
            /\ strict_equal (prop (data item) "hospitalId") hospitalId = true)
         (map_values ledger).

Definition queryClaimsByInsurance (insuranceId : jsval)
    (ledger : list (jsval * record)) : list record :=
  filter (fun item =>
            type item = "ClaimRequest"
            /\ strict_equal (prop (data item) "insuranceId") insuranceId = true)
         (map_values ledger).

(** [args[i]]: out of range reads as [undefined]. *)
Definition arg (args : list jsval) (i : nat) : jsval :=
  nth i args JUndefined.

Definition object (fields : list (string * jsval)) : gmap string jsval :=
  fold_left (fun o kv => <[fst kv := snd kv]> o) fields ∅.

(** [invokeChaincode(func, args)] on an array [args] of primitive values;
    [t1], [t2] are the clock readings the invoked function takes (the
    update and the verification read one). *)
Definition invokeChaincode (t1 t2 : Z) (func : string)
    (args : list jsval) (ledger : list (jsval * record))
    : string + record * list (jsval * record) :=
  if decide (func = "CreatePatientRecord") then
    inr (createPatientRecord t1 t2
           (object [ ("patientId", arg args 0);
                     ("hospitalId", arg args 1);
                     ("insuranceId", arg args 2);
                     ("recordHash", arg args 3);
                     ("diagnosis", arg args 4);
                     ("treatment", arg args 5);
                     ("cost", JNumber (parseFloat (toString (arg args 6)))) ])
           ledger)
  else if decide (func = "CreateClaimRequest") then
    inr (createClaimRequest t1 t2
           (object [ ("claimId", arg args 0);
                     ("patientId", arg args 1);
                     ("hospitalId", arg args 2);
                     ("insuranceId", arg args 3);
                     ("description", arg args 4);
                     ("policyId", arg args 5);
                     ("amount", JNumber (parseFloat (toString (arg args 6)))) ])
           ledger)
  else if decide (func = "UpdateClaimStatus") then
    updateClaimStatus t1 (arg args 0) (arg args 1) (arg args 2) ledger
  else if decide (func = "VerifyPolicyWithEthereum") then
    inr (verifyPolicyWithEthereum t1
           (object [ ("policyId", arg args 0);
                     ("patientId", arg args 1);
                     ("isValid", JBool (bool_decide (arg args 2 = JString "true")));
                     ("coverageAmount",
                      JNumber (parseFloat (toString (arg args 3))));
                     ("expiryDate", arg args 4);
                     ("ethereumTxHash", arg args 5) ])
           ledger)
  else inl ("Unknown function: " ++ func)%string.

(** *** [EthereumFabricBridge.syncPolicyToFabric]

    The bridge takes the policy and patient identifiers (strings), reads
    [Date.now()] twice ([n1] for the expiry date, [n2] for the
    transaction reference), and posts the stringified fields to the
    simulator, whose invocation reads the clock at [t].  The coverage
    [10000.00] is sent as its string ["10000"]. *)
Definition sync_args (n1 n2 : Z) (policyId patientId : string)
    : list jsval :=
  [ JString policyId; JString patientId; JString "true";
    JString "10000";
    JString (Js.toISOString (n1 + 365 * 24 * 60 * 60 * 1000));
    JString ("ETH_TX_" ++ Js.decimal n2)%string ].

Definition syncPolicyToFabric (n1 n2 t : Z) (policyId patientId : string)
    (ledger : list (jsval * record))
    : string + record * list (jsval * record) :=
  invokeChaincode t t "VerifyPolicyWithEthereum"
                  (sync_args n1 n2 policyId patientId) ledger.

(** The ledger a call leaves behind. *)
Definition ledger_after (r : string + record * list (jsval * record))
    (ledger : list (jsval * record)) : list (jsval * record) :=
  match r with
  | inr (_, ledger') => ledger'
  | inl _ => ledger
  end.

(** A record with its [updatedAt] stamp removed, to compare ledgers up to
    that field. *)
Definition forget_updatedAt (r : record) : record :=
  mkRecord (type r) (id r) (delete "updatedAt" (data r)).

Definition ledger_forget_updatedAt (ledger : list (jsval * record))
    : list (jsval * record) :=
  map (fun kv => (fst kv, forget_updatedAt (snd kv))) ledger.

(** The fields of the record a policy synchronisation writes. *)
Definition synced_data (n1 n2 t : Z) (policyId patientId : string)
    : gmap string jsval :=
  <["verifiedAt" := JString (Js.toISOString t)]>
    (object [ ("policyId", JString policyId);
              ("patientId", JString patientId);
              ("isValid", JBool true);
              ("coverageAmount", JNumber (parseFloat "10000"));
              ("expiryDate",
               JString (Js.toISOString (n1 + 365 * 24 * 60 * 60 * 1000)));
              ("ethereumTxHash", JString ("ETH_TX_" ++ Js.decimal n2)%string) ]).

Definition synced_key (policyId patientId : string) : jsval :=
  JString ("VERIFICATION_" ++ policyId ++ "_" ++ patientId)%string.

End Simulator.

Arguments JUndefined {number}.
Arguments JNull {number}.
Arguments JBool {number} b.
Arguments JNumber {number} n.
Arguments JString {number} s.
Arguments type {number} r.
Arguments id {number} r.
Arguments data {number} r.
Arguments mkRecord {number} type id data.
Arguments toString {number} numberToString v.
Arguments prop {number} o k.
Arguments map_get {number} {number_eq_dec} k m.
Arguments map_set {number} {number_eq_dec} k v m.
Arguments map_values {number} m.
Arguments map_size {number} m.
Arguments createPatientRecord {number} {number_eq_dec} t1 t2 data ledger.
Arguments createClaimRequest {number} {number_eq_dec} t1 t2 data ledger.
Arguments updateClaimStatus {number} {number_eq_dec} numberToString t
  claimId status ethereumTxHash ledger.
Arguments verification_id {number} numberToString policyId patientId.
Arguments verifyPolicyWithEthereum {number} {number_eq_dec} numberToString t
  data ledger.
Arguments getPatientRecord {number} {number_eq_dec} numberToString patientId
  ledger.
Arguments getClaimRequest {number} {number_eq_dec} numberToString claimId
  ledger.
Arguments getAllPatientRecords {number} ledger.
Arguments getAllClaimRequests {number} ledger.
Arguments strict_equal {number} {number_eq_dec} isNaN a b.
Arguments queryRecordsByHospital {number} {number_eq_dec} isNaN hospitalId
  ledger.
Arguments queryClaimsByInsurance {number} {number_eq_dec} isNaN insuranceId
  ledger.
Arguments arg {number} args i.
Arguments object {number} fields.
Arguments invokeChaincode {number} {number_eq_dec} parseFloat numberToString
  t1 t2 func args ledger.
Arguments sync_args {number} n1 n2 policyId patientId.
Arguments syncPolicyToFabric {number} {number_eq_dec} parseFloat
  numberToString n1 n2 t policyId patientId ledger.
Arguments synced_data {number} parseFloat n1 n2 t policyId patientId.
Arguments synced_key {number} policyId patientId.
Arguments ledger_after {number} r ledger.
Arguments forget_updatedAt {number} r.
Arguments ledger_forget_updatedAt {number} ledger.

(** A reading of [parseFloat] on digit strings, for worked examples with
    integral numbers. *)
Fixpoint parse_digits (s : string) (acc : Z) : Z :=
  match s with
  | String c s' =>
      let d := Z.of_N (N_of_ascii c) - 48 in
      if (0 <=? d) && (d <=? 9) then parse_digits s' (10 * acc + d) else acc
  | EmptyString => acc
  end.

Definition parseFloatZ (s : string) : Z := parse_digits s 0.

(** *** Worked ledgers, with integral numbers *)

Definition demo_patient : gmap string (jsval Z) :=
  object [ ("patientId", JString "PAT001");
           ("hospitalId", JString "HOSP001");
           ("insuranceId", JString "INS001");
           ("diagnosis", JString "Routine Checkup");
           ("treatment", JString "General Consultation");
           ("cost", JNumber 150) ].

(** The sample record of the constructor, written at the epoch. *)
Definition demo_ledger : list (jsval Z * record Z) :=
  snd (createPatientRecord 0 0 demo_patient []).

(** The same patient data written again one second later. *)
Definition demo_ledger_again : list (jsval Z * record Z) :=
  snd (createPatientRecord 1000 1000 demo_patient demo_ledger).

Definition demo_sync (n1 n2 t : Z) (ledger : list (jsval Z * record Z))
    : list (jsval Z * record Z) :=
  ledger_after
    (syncPolicyToFabric parseFloatZ Js.decimal n1 n2 t
                        "POLICY_DEMO_001" "PAT_DEMO_001" ledger)
    ledger.

Definition demo_key : jsval Z :=
  JString "VERIFICATION_POLICY_DEMO_001_PAT_DEMO_001".

(** The policy synchronised once, and synchronised again a second later. *)
Definition synced_once : list (jsval Z * record Z) :=
  demo_sync 1700000000000 1700000000000 1700000000002 demo_ledger.

Definition synced_twice : list (jsval Z * record Z) :=
  demo_sync 1700000001000 1700000001000 1700000001002 synced_once.

Definition field_of (key : jsval Z) (ledger : list (jsval Z * record Z))
    (name : string) : option (jsval Z) :=
  match map_get key ledger with
  | Some r => data r !! name
  | None => None
  end.

End Fabric.

(** ** The decision rule as the design document words it *)

Module Spec.
Import PolicyClaim.

(** [isPolicyValid = policy.isActive and now in [startDate, endDate]]. *)
Definition isPolicyValid (now : Z) (policy : Policy.t) : bool :=
  Policy.isActive policy
  && ((Policy.startDate policy <=? now) && (now <=? Policy.endDate policy)).

(** [isAmountValid = claim.amount <= policy.insuredAmount]. *)
Definition isAmountValid (claim : Claim.t) (policy : Policy.t) : bool :=
  Claim.claimAmount claim <=? Policy.insuredAmount policy.

(** [floor(claim.amount * 100 / policy.insuredAmount)], over the integers. *)
Definition ratio (claim : Claim.t) (policy : Policy.t) : Z :=
  (Claim.claimAmount claim * 100) / Policy.insuredAmount policy.

(** [isAmountReasonable = floor(amount * 100 / insuredAmount) <= 80]. *)
Definition isAmountReasonable (claim : Claim.t) (policy : Policy.t) : bool :=
  ratio claim policy <=? 80.

Definition approved (now : Z) (claim : Claim.t) (policy : Policy.t) : bool :=
  isPolicyValid now policy && isAmountValid claim policy
  && isAmountReasonable claim policy.

(** The reason of the first failing condition, in the order policy
    validity, amount validity, ratio, with the contract's texts. *)
Definition first_failing_reason (now : Z) (claim : Claim.t)
    (policy : Policy.t) : string :=
  if negb (isPolicyValid now policy) then "Policy is not valid or has expired"
  else if negb (isAmountValid claim policy)
       then "Claim amount exceeds insured amount"
  else "Claim amount exceeds maximum allowed ratio".

(** The claim record a decided claim ends as. *)
Definition decided (now : Z) (claim : Claim.t) (policy : Policy.t) : Claim.t :=
  if approved now claim policy then Claim.set_status Approved claim
  else Claim.set_rejectionReason (first_failing_reason now claim policy)
         (Claim.set_status Rejected claim).

End Spec.

(** ** Notions about runs of the contract *)

Module Runs.
Import PolicyClaim.

(** What every state reached from deployment satisfies: the counters are
    256-bit, stored policies insure a positive amount, and every stored
    claim points at such a policy. *)
Definition ledger_inv (s : Storage) : Prop :=
  (0 <= totalPolicies s <= MAX_UINT256)
  /\ (0 <= totalClaims s <= MAX_UINT256)
  /\ (forall id p, policies s !! id = Some p -> 0 < Policy.insuredAmount p)
  /\ (forall id c, claims s !! id = Some c ->
        0 < Policy.insuredAmount (policy_at s (Claim.policyId c))).

Definition wf_etx (etx : Env * Tx) : bool :=
  wf_env (fst etx) && wf_tx (snd etx).

(** The transaction is a claim submission whose derived identifier is [id]. *)
Definition submits (id : Z) (etx : Env * Tx) (s : Storage) : bool :=
  match snd etx with
  | SubmitClaim pid a d =>
      keccak256 (claim_preimage pid (msg_sender (fst etx)) a d
                   (block_timestamp (fst etx)) (totalClaims s)) =? id
  | _ => false
  end.

(** No submission along the run derives [id] again. *)
Fixpoint never_submits (id : Z) (txs : list (Env * Tx)) (s : Storage) : bool :=
  match txs with
  | [] => true
  | etx :: rest =>
      negb (submits id etx s) && never_submits id rest (apply etx s)
  end.

Definition succeeds (etx : Env * Tx) (s : Storage) : bool :=
  match call (fst etx) (snd etx) s with
  | Ok _ => true
  | _ => false
  end.

Definition is_register (tx : Tx) : bool :=
  match tx with RegisterPolicy _ _ _ _ _ _ => true | _ => false end.

Definition is_submit (tx : Tx) : bool :=
  match tx with SubmitClaim _ _ _ => true | _ => false end.

(** The number of transactions of a kind that succeed along a run. *)
Fixpoint successes (kind : Tx -> bool) (txs : list (Env * Tx)) (s : Storage)
    : Z :=
  match txs with
  | [] => 0
  | etx :: rest =>
      (if kind (snd etx) && succeeds etx s then 1 else 0)
      + successes kind rest (apply etx s)
  end.

(** The number of stored policies that are active. *)
Definition active_policies (s : Storage) : nat :=
  length (filter (fun kv => Policy.isActive (snd kv) = true)
                 (map_to_list (policies s))).

End Runs.

(** ** Worked scenarios

    The workflow of the deployment scripts: two policies (10 and 5 ether
    insured), a 3 ether claim on the first and a 6 ether claim on the
    second, all in one instant; and variations on it. *)

Module Scenario.
Import PolicyClaim.

Definition ether : Z := 10 ^ 18.
Definition days : Z := 86400.
Definition now : Z := 1700000000.

Definition insurerAddr : Z := 0xf39Fd6e51aad88F6F4ce6aB8827279cffFb92266.
Definition policyHolder1 : Z := 0x1234567890123456789012345678901234567890.
Definition policyHolder2 : Z := 0x2345678901234567890123456789012345678901.

Definition by_ (who : Z) (t : Z) : Env :=
  {| msg_sender := who; block_timestamp := t |}.

Definition deployed : Storage := constructor (by_ insurerAddr now).

Definition register1 : Env * Tx :=
  (by_ insurerAddr now,
   RegisterPolicy policyHolder1 (10 * ether) ether now (now + 365 * days)
                  "0xabc123def456ghi789").

Definition register2 : Env * Tx :=
  (by_ insurerAddr now,
   RegisterPolicy policyHolder2 (5 * ether) (ether / 2) now (now + 180 * days)
                  "0xdef456ghi789jkl012").

Definition policyId1 : Z :=
  keccak256 (policy_preimage policyHolder1 (10 * ether) ether now
               (now + 365 * days) now 0).

Definition policyId2 : Z :=
  keccak256 (policy_preimage policyHolder2 (5 * ether) (ether / 2) now
               (now + 180 * days) now 1).

Definition registered : Storage := run [register1; register2] deployed.

(** A claim of [amount] on the first policy, submitted by its holder. *)
Definition submit1 (amount : Z) : Env * Tx :=
  (by_ policyHolder1 now, SubmitClaim policyId1 amount "Medical treatment").

Definition claimId1 (amount : Z) : Z :=
  keccak256 (claim_preimage policyId1 policyHolder1 amount "Medical treatment"
               now 0).

Definition submitted1 (amount : Z) : Storage := run [submit1 amount] registered.

(** The 6 ether claim on the 5 ether policy. *)
Definition submit2 : Env * Tx :=
  (by_ policyHolder2 now, SubmitClaim policyId2 (6 * ether) "Health checkup").

Definition claimId2 : Z :=
  keccak256 (claim_preimage policyId2 policyHolder2 (6 * ether)
               "Health checkup" now 0).

Definition submitted2 : Storage := run [submit2] registered.

(** A policy that starts in thirty days. *)
Definition registerLater : Env * Tx :=
  (by_ insurerAddr now,
   RegisterPolicy policyHolder1 (10 * ether) ether (now + 30 * days)
                  (now + 395 * days) "0xabc123def456ghi789").

Definition policyIdLater : Z :=
  keccak256 (policy_preimage policyHolder1 (10 * ether) ether
               (now + 30 * days) (now + 395 * days) now 0).

Definition registeredLater : Storage := run [registerLater] deployed.



(** A claim tuple laid out over the bytes of the first policy tuple: the
    policy holder and the top of the insured amount read as a [bytes32], the
    rest of the insured amount as an address, and the two dates as a 64-byte
    description. *)
Definition overlay_policyId : Z := policyHolder1 * 2 ^ 96.
Definition overlay_sender : Z := 10 * ether.
Definition overlay_description : string :=
  string_of_list_byte
    (Bytes.be_bytes 32 now ++ Bytes.be_bytes 32 (now + 365 * days)).

(** After the 6 ether claim is decided: a repeated processing attempt, a
    further registration, a further claim and a deactivation. *)
Definition decided2 : Storage :=
  run [(by_ insurerAddr now, ProcessClaim claimId2)] submitted2.

Definition aftermath : list (Env * Tx) :=
  [ (by_ policyHolder2 (now + days), ProcessClaim claimId2);
    register1;
    (by_ policyHolder2 (now + days), SubmitClaim policyId2 ether "Follow-up");
    (by_ insurerAddr (now + 2 * days), DeactivatePolicy policyId2) ].

End Scenario.

(** ** Further notions about the contract's states *)

Module Invariants.
Import PolicyClaim.

(** What [registerPolicy] requires of a policy it stores under [id]. *)
Definition policy_wf (id : Z) (p : Policy.t) : Prop :=
  Policy.policyId p = id
  /\ Policy.policyHolder p <> 0
  /\ 0 < Policy.insuredAmount p
  /\ MINIMUM_PREMIUM <= Policy.premium p
  /\ Policy.startDate p < Policy.endDate p.

(** The three reasons [processClaim] can record. *)
Definition rejection_texts : list string :=
  [ "Policy is not valid or has expired";
    "Claim amount exceeds insured amount";
    "Claim amount exceeds maximum allowed ratio" ].

Definition claim_wf (id : Z) (c : Claim.t) : Prop :=
  Claim.claimId c = id
  /\ 0 < Claim.claimAmount c
  /\ (Claim.status c = Rejected -> In (Claim.rejectionReason c) rejection_texts)
  /\ (Claim.status c <> Rejected -> Claim.rejectionReason c = "").

Definition state_wf (s : Storage) : Prop :=
  (forall id p, policies s !! id = Some p -> policy_wf id p)
  /\ (forall id c, claims s !! id = Some c ->
        claim_wf id c /\ Claim.policyId c <> 0
        /\ is_Some (policies s !! Claim.policyId c))
  /\ (forall u id, In id (ids_at (userPolicies s) u) ->
        is_Some (policies s !! id))
  /\ (forall u id, In id (ids_at (userClaims s) u) ->
        is_Some (claims s !! id)).

(** The transaction is a registration whose derived identifier is [id]. *)
Definition registers (id : Z) (etx : Env * Tx) (s : Storage) : bool :=
  match snd etx with
  | RegisterPolicy h a p sd ed _ =>
      keccak256 (policy_preimage h a p sd ed (block_timestamp (fst etx))
                   (totalPolicies s)) =? id
  | _ => false
  end.

Fixpoint never_registers (id : Z) (txs : list (Env * Tx)) (s : Storage)
    : bool :=
  match txs with
  | [] => true
  | etx :: rest =>
      negb (registers id etx s) && never_registers id rest (apply etx s)
  end.

(** The number of identifiers listed over all users. *)
Definition listed (m : gmap Z (list Z)) : Z :=
  map_fold (fun _ l n => Z.of_nat (length l) + n) 0 m.

End Invariants.


(** ** Standard ABI encoding, as [AbiCoder.encode] produces it *)

Module AbiStd.
Import Bytes.

(** Dynamic data is padded with zero bytes to a multiple of 32. *)
Definition pad32 (bs : list byte) : list byte :=
  bs ++ repeat x00 ((32 - length bs mod 32) mod 32)%nat.

(** The tail of a value: nothing for a static type; for a [string], its
    length as a word, then its padded bytes. *)
Definition tail (v : Abi.value) : list byte :=
  match v with
  | Abi.Str s =>
      be_bytes 32 (Z.of_nat (length (of_string s))) ++ pad32 (of_string s)
  | _ => []
  end.

(** The heads, one 32-byte word per value: the value itself for a static
    type, the offset of its tail for a [string]. *)
Fixpoint heads (vs : list Abi.value) (offset : Z) : list byte :=
  match vs with
  | [] => []
  | v :: rest =>
      match v with
      | Abi.Address a => be_bytes 32 a ++ heads rest offset
      | Abi.Uint256 n => be_bytes 32 n ++ heads rest offset
      | Abi.Bytes32 b => be_bytes 32 b ++ heads rest offset
      | Abi.Str _ =>
          be_bytes 32 offset
          ++ heads rest (offset + Z.of_nat (length (tail v)))
      end
  end.

Definition encode (vs : list Abi.value) : list byte :=
  heads vs (32 * Z.of_nat (length vs)) ++ flat_map tail vs.

End AbiStd.

(** ** The identifiers as the interaction script recomputes them *)

Module Interact.

Definition policy_preimage (policyHolder insuredAmount premium
    startDate endDate now counter : Z) : list byte :=
  AbiStd.encode
    [ Abi.Address policyHolder; Abi.Uint256 insuredAmount;
      Abi.Uint256 premium; Abi.Uint256 startDate; Abi.Uint256 endDate;
      Abi.Uint256 now; Abi.Uint256 counter ].

Definition policyId (policyHolder insuredAmount premium
    startDate endDate now counter : Z) : Z :=
  keccak256 (policy_preimage policyHolder insuredAmount premium
               startDate endDate now counter).

Definition claim_preimage (policyId policyHolder claimAmount : Z)
    (description : string) (now counter : Z) : list byte :=
  AbiStd.encode
    [ Abi.Bytes32 policyId; Abi.Address policyHolder;
      Abi.Uint256 claimAmount; Abi.Str description;
      Abi.Uint256 now; Abi.Uint256 counter ].

Definition claimId (policyId policyHolder claimAmount : Z)
    (description : string) (now counter : Z) : Z :=
  keccak256 (claim_preimage policyId policyHolder claimAmount description
               now counter).

End Interact.

(** ** The [PolicyStorage] contract *)

Module PolicyStorage.

Record Storage : Type := mkStorage {
  nextPolicyId : Z;
  policies : gmap Z Z
}.

Inductive Event : Type :=
| PolicyStored (policyId : Z) (policyData : string).

Definition constructor : Storage := mkStorage 0 ∅.

(** [storePolicy(string)]: the event carries the counter before its
    increment. *)
Definition storePolicy (policyData : string) (s : Storage)
    : result (unit * Storage * list Event) :=
  match checked_incr (nextPolicyId s) with
  | Ok n =>
      Ok (tt, mkStorage n (policies s),
          [PolicyStored (nextPolicyId s) policyData])
  | Revert r => Revert r
  | Panic c => Panic c
  end.

(** [storePolicy(bytes32, string)]. *)
Definition storePolicyHash (policyId : Z) (policyHash : string) (s : Storage)
    : result (unit * Storage * list Event) :=
  let s1 :=
    mkStorage (nextPolicyId s)
      (<[policyId := keccak256 (Abi.encodePacked [Abi.Str policyHash])]>
         (policies s)) in
  match checked_incr (nextPolicyId s1) with
  | Ok n =>
      Ok (tt, mkStorage n (policies s1),
          [PolicyStored (nextPolicyId s1) policyHash])
  | Revert r => Revert r
  | Panic c => Panic c
  end.

Definition getPolicy (policyId : Z) (s : Storage) : Z :=
  default 0 (policies s !! policyId).

Inductive Call : Type :=
| StoreData (policyData : string)
| StoreHash (policyId : Z) (policyHash : string).

Definition call (c : Call) (s : Storage)
    : result (unit * Storage * list Event) :=
  match c with
  | StoreData d => storePolicy d s
  | StoreHash id h => storePolicyHash id h s
  end.

(** The storage and the event log after a sequence of calls; a failed call
    changes nothing and logs nothing. *)
Fixpoint run_log (cs : list Call) (s : Storage) : Storage * list Event :=
  match cs with
  | [] => (s, [])
  | c :: rest =>
      match call c s with
      | Ok (_, s', ev) =>
          (fst (run_log rest s'), ev ++ snd (run_log rest s'))
      | _ => run_log rest s
      end
  end.

Definition event_id (e : Event) : Z :=
  match e with PolicyStored id _ => id end.

Definition event_data (e : Event) : string :=
  match e with PolicyStored _ d => d end.

Definition call_data (c : Call) : string :=
  match c with StoreData d => d | StoreHash _ h => h end.

End PolicyStorage.

(** ** The simulator's queries and the bridge's other calls *)

Module Chaincode.
Import Fabric.

Section Queries.

Variable number : Type.
Context {number_eq_dec : EqDecision number}.
Variable parseFloat : string -> number.
Variable numberToString : number -> string.
Variable isNaN : number -> bool.

(** A query answers with one record or with a list of records. *)
Inductive query_result : Type :=
| QRecord (r : record number)
| QRecords (rs : list (record number)).

Definition queryChaincode (func : string) (args : list (jsval number))
    (ledger : list (jsval number * record number))
    : string + query_result :=
  if decide (func = "GetPatientRecord") then
    match getPatientRecord numberToString (arg args 0) ledger with
    | inr r => inr (QRecord r)
    | inl e => inl e
    end
  else if decide (func = "GetClaimRequest") then
    match getClaimRequest numberToString (arg args 0) ledger with
    | inr r => inr (QRecord r)
    | inl e => inl e
    end
  else if decide (func = "GetAllPatientRecords") then
    inr (QRecords (getAllPatientRecords ledger))
  else if decide (func = "GetAllClaimRequests") then
    inr (QRecords (getAllClaimRequests ledger))
  else if decide (func = "QueryRecordsByHospital") then
    inr (QRecords (queryRecordsByHospital isNaN (arg args 0) ledger))
  else if decide (func = "QueryClaimsByInsurance") then
    inr (QRecords (queryClaimsByInsurance isNaN (arg args 0) ledger))
  else inl ("Unknown query function: " ++ func)%string.

(** What a request hands over as [args]: an array of primitive values, or
    nothing ([undefined], as for a request body without [args], or
    [null]). *)
Inductive arguments : Type :=
| NoArgs
| Args (args : list (jsval number)).

(** What [invokeChaincode] throws: an [Error] with its message, or the
    [TypeError] of reading [args[0]] where there is no [args]. *)
Inductive thrown : Type :=
| Error (message : string)
| TypeError.

(** [invokeChaincode(func, args)] for whatever [args] the request carries.
    Each of the four cases reads [args[0]] before it calls anything, so
    without [args] it throws there; the default case does not look at
    [args]. *)
Definition invoke (t1 t2 : Z) (func : string) (a : arguments)
    (ledger : list (jsval number * record number))
    : thrown + record number * list (jsval number * record number) :=
  match a with
  | Args args =>
      match invokeChaincode parseFloat numberToString t1 t2 func args
                            ledger with
      | inr written => inr written
      | inl message => inl (Error message)
      end
  | NoArgs =>
      if decide (func = "CreatePatientRecord") then inl TypeError
      else if decide (func = "CreateClaimRequest") then inl TypeError
      else if decide (func = "UpdateClaimStatus") then inl TypeError
      else if decide (func = "VerifyPolicyWithEthereum") then inl TypeError
      else inl (Error ("Unknown function: " ++ func)%string)
  end.

(** The record kinds the simulator writes. *)
Definition kinds : list string :=
  [ "PatientRecord"; "ClaimRequest"; "PolicyVerification" ].

(** Keys are distinct, and every record is stored under its own [id] and
    has one of the three kinds. *)
Definition ledger_ok (ledger : list (jsval number * record number)) : Prop :=
  NoDup (map fst ledger)
  /\ Forall (fun kv => id (snd kv) = fst kv /\ In (type (snd kv)) kinds)
            ledger.

End Queries.

Arguments QRecord {number} r.
Arguments QRecords {number} rs.
Arguments queryChaincode {number} {number_eq_dec} numberToString isNaN func
  args ledger.
Arguments NoArgs {number}.
Arguments Args {number} args.
Arguments invoke {number} {number_eq_dec} parseFloat numberToString t1 t2
  func a ledger.
Arguments ledger_ok {number} ledger.

End Chaincode.

Module Bridge.
Import Fabric.

Section Calls.

Variable number : Type.
Context {number_eq_dec : EqDecision number}.
Variable parseFloat : string -> number.
Variable numberToString : number -> string.

(** What a bridge method throws (it logs the error and throws it again):
    the [TypeError] of a method call on a missing field, or the error axios
    raises when the simulator answers with a status other than 2xx, which
    carries the status and, in the response body, the simulator's
    [error] text. *)
Inductive failure : Type :=
| TypeError
| RequestFailed (status : Z) (error : string).

(** [v.toString()]: a method call, which throws on [undefined] and on
    [null]; on a string, a number or a boolean it is the string
    conversion. *)
Definition toString_method (v : jsval number) : option string :=
  match v with
  | JUndefined | JNull => None
  | _ => Some (toString numberToString v)
  end.

(** A post to [/chaincode/invoke] with an array of strings, which the JSON
    transport carries unchanged: the route answers with the result, or,
    when [invokeChaincode] throws, with status 500 and
    [{ success: false, error: error.message }], on which axios rejects. *)
Definition post_invoke (t1 t2 : Z) (func : string)
    (args : list (jsval number))
    (ledger : list (jsval number * record number))
    : failure + record number * list (jsval number * record number) :=
  match invokeChaincode parseFloat numberToString t1 t2 func args ledger with
  | inr written => inr written
  | inl message => inl (RequestFailed 500 message)
  end.

(** [createPatientRecord(patientData)]: [n] is the reading of [Date.now()]
    that goes into the record hash; the identifiers and texts are strings,
    the cost is whatever value the patient data carries, sent as
    [cost.toString()].  [t1], [t2] are the simulator's clock readings. *)
Definition createPatientRecord (n t1 t2 : Z)
    (patientId hospitalId insuranceId diagnosis treatment : string)
    (cost : jsval number) (ledger : list (jsval number * record number))
    : failure + record number * list (jsval number * record number) :=
  let recordHash := ("HASH_" ++ Js.decimal n ++ "_" ++ patientId)%string in
  match toString_method cost with
  | None => inl TypeError
  | Some cost =>
      post_invoke t1 t2 "CreatePatientRecord"
        [ JString patientId; JString hospitalId; JString insuranceId;
          JString recordHash; JString diagnosis; JString treatment;
          JString cost ]
        ledger
  end.

(** The identifier [createClaimRequest] makes up: [n] is [Date.now()] and
    [rnd] the nine characters taken from [Math.random().toString(36)]. *)
Definition fresh_claimId (n : Z) (rnd : string) : string :=
  ("CLAIM_" ++ Js.decimal n ++ "_" ++ rnd)%string.

(** [createClaimRequest(claimData)], for claim data whose identifiers and
    description are strings; the amount is whatever value the claim data
    carries, sent as [amount.toString()].  The call answers with the
    identifier it made up, the simulator's record and a transaction
    reference from a second reading [n'] of [Date.now()]. *)
Definition createClaimRequest (n : Z) (rnd : string) (n' t1 t2 : Z)
    (patientId hospitalId insuranceId description policyId : string)
    (amount : jsval number) (ledger : list (jsval number * record number))
    : failure + (string * record number * string)
                * list (jsval number * record number) :=
  let claimId := fresh_claimId n rnd in
  match toString_method amount with
  | None => inl TypeError
  | Some amount =>
      match post_invoke t1 t2 "CreateClaimRequest"
              [ JString claimId; JString patientId; JString hospitalId;
                JString insuranceId; JString description; JString policyId;
                JString amount ]
              ledger with
      | inr (result, ledger') =>
          inr ((claimId, result, ("ETH_TX_" ++ Js.decimal n')%string),
               ledger')
      | inl e => inl e
      end
  end.

Definition updateClaimStatus (t : Z) (claimId status ethereumTxHash : string)
    (ledger : list (jsval number * record number))
    : failure + record number * list (jsval number * record number) :=
  post_invoke t t "UpdateClaimStatus"
    [ JString claimId; JString status; JString ethereumTxHash ] ledger.

End Calls.

Arguments toString_method {number} numberToString v.
Arguments post_invoke {number} {number_eq_dec} parseFloat numberToString
  t1 t2 func args ledger.
Arguments createPatientRecord {number} {number_eq_dec} parseFloat
  numberToString n t1 t2 patientId hospitalId insuranceId diagnosis
  treatment cost ledger.
Arguments createClaimRequest {number} {number_eq_dec} parseFloat
  numberToString n rnd n' t1 t2 patientId hospitalId insuranceId description
  policyId amount ledger.
Arguments updateClaimStatus {number} {number_eq_dec} parseFloat
  numberToString t claimId status ethereumTxHash ledger.

End Bridge.

(** ** Further worked scenarios *)

Module Scenario2.
Import PolicyClaim Scenario.

(** The insurer deactivates the second policy a day after the 6 ether claim
    was submitted on it. *)
Definition deactivate2 : Env * Tx :=
  (by_ insurerAddr (now + days), DeactivatePolicy policyId2).

Definition closed2 : Storage := run [deactivate2] submitted2.

Definition later_txs : list (Env * Tx) := [submit2; deactivate2; register1].

(** The store script's call between two plain ones. *)
Definition storage_calls : list PolicyStorage.Call :=
  [ PolicyStorage.StoreData "policy-A";
    PolicyStorage.StoreHash (keccak256 (Bytes.of_string "POLICY-001"))
                            "0xabc123hash";
    PolicyStorage.StoreData "policy-B" ].

End Scenario2.

(** ** Counting identifiers *)

Module Counting.
Import PolicyClaim Scenario.





End Counting.

(* ===================================================================== *)
(** * Properties *)
(* ===================================================================== *)

(** ** Big-endian words are read back *)

Section BytesFacts.
Import Bytes.

Lemma byte_to_of_Z (z : Z) : byte_to_Z (byte_of_Z z) = z mod 256.
Proof.
  unfold byte_to_Z, byte_of_Z.
  assert (Hr : 0 <= z mod 256 < 256) by (apply Z.mod_pos_bound; lia).
  destruct (Byte.of_N (Z.to_N (z mod 256))) as [b|] eqn:E.
  - apply Byte.to_of_N in E. rewrite E. lia.
  - apply Byte.of_N_None_iff in E. lia.
Qed.

Lemma be_bytes_length (w : nat) (n : Z) : length (be_bytes w n) = w.
Proof.
  revert n. induction w as [|w IH]; intros n; simpl; [reflexivity|].
  rewrite length_app, IH. simpl. lia.
Qed.

Lemma be_value_snoc (bs : list byte) (b : byte) :
  be_value (bs ++ [b]) = be_value bs * 256 + byte_to_Z b.
Proof. unfold be_value. rewrite fold_left_app. reflexivity. Qed.

Lemma be_value_be_bytes (w : nat) (n : Z) :
  be_value (be_bytes w n) = n mod 256 ^ Z.of_nat w.
Proof.
  revert n. induction w as [|w IH]; intros n.
  - simpl. rewrite Z.mod_1_r. reflexivity.
  - cbn [be_bytes]. rewrite be_value_snoc, IH, byte_to_of_Z.
    rewrite Nat2Z.inj_succ, Z.pow_succ_r by lia.
    assert (Hp : 0 < 256 ^ Z.of_nat w) by (apply Z.pow_pos_nonneg; lia).
    rewrite (Z.rem_mul_r n 256 (256 ^ Z.of_nat w)) by lia.
    lia.
Qed.

Lemma be_bytes_inj (w : nat) (a b : Z) :
  0 <= a < 256 ^ Z.of_nat w -> 0 <= b < 256 ^ Z.of_nat w ->
  be_bytes w a = be_bytes w b -> a = b.
Proof.
  intros Ha Hb E.
  apply (f_equal be_value) in E.
  rewrite !be_value_be_bytes in E.
  rewrite !Z.mod_small in E by assumption.
  exact E.
Qed.

End BytesFacts.

Lemma is_uint256_range (n : Z) :
  is_uint256 n = true -> 0 <= n < 256 ^ Z.of_nat 32.
Proof.
  unfold is_uint256, MAX_UINT256. intros H.
  apply andb_true_iff in H as [H1 H2].
  apply Z.leb_le in H1. apply Z.leb_le in H2.
  change (256 ^ Z.of_nat 32) with (2 ^ 256). lia.
Qed.

Lemma is_address_range (a : Z) :
  is_address a = true -> 0 <= a < 256 ^ Z.of_nat 20.
Proof.
  unfold is_address. intros H.
  apply andb_true_iff in H as [H1 H2].
  apply Z.leb_le in H1. apply Z.ltb_lt in H2.
  change (256 ^ Z.of_nat 20) with (2 ^ 160). lia.
Qed.

(** ** The packed encodings of the two identifier tuples are injective *)

Section PreimageFacts.
Import Bytes Abi PolicyClaim.

(** Splitting a concatenation at a field of known width. *)
Lemma split_word (w : nat) (a b : Z) (r1 r2 : list byte) :
  0 <= a < 256 ^ Z.of_nat w -> 0 <= b < 256 ^ Z.of_nat w ->
  be_bytes w a ++ r1 = be_bytes w b ++ r2 -> a = b /\ r1 = r2.
Proof.
  intros Ha Hb E.
  apply app_inj_1 in E as [E1 E2].
  - split; [eapply be_bytes_inj; eassumption | assumption].
  - rewrite !be_bytes_length. reflexivity.
Qed.

Lemma policy_preimage_inj (h a p sd ed t n h' a' p' sd' ed' t' n' : Z) :
  is_address h = true -> is_address h' = true ->
  is_uint256 a = true -> is_uint256 a' = true ->
  is_uint256 p = true -> is_uint256 p' = true ->
  is_uint256 sd = true -> is_uint256 sd' = true ->
  is_uint256 ed = true -> is_uint256 ed' = true ->
  is_uint256 t = true -> is_uint256 t' = true ->
  is_uint256 n = true -> is_uint256 n' = true ->
  policy_preimage h a p sd ed t n = policy_preimage h' a' p' sd' ed' t' n' ->
  (h, a, p, sd, ed, t, n) = (h', a', p', sd', ed', t', n').
Proof.
  intros Hh Hh' Ha Ha' Hp Hp' Hsd Hsd' Hed Hed' Ht Ht' Hn Hn' E.
  apply is_address_range in Hh, Hh'.
  apply is_uint256_range in Ha, Ha', Hp, Hp', Hsd, Hsd', Hed, Hed',
    Ht, Ht', Hn, Hn'.
  unfold policy_preimage, encodePacked in E. cbn [flat_map encode1] in E.
  apply split_word in E as [-> E]; [|assumption..].
  apply split_word in E as [-> E]; [|assumption..].
  apply split_word in E as [-> E]; [|assumption..].
  apply split_word in E as [-> E]; [|assumption..].
  apply split_word in E as [-> E]; [|assumption..].
  apply split_word in E as [-> E]; [|assumption..].
  apply split_word in E as [-> E]; [|assumption..].
  reflexivity.
Qed.

Lemma of_string_inj (s1 s2 : string) : of_string s1 = of_string s2 -> s1 = s2.
Proof.
  unfold of_string. intros E.
  rewrite <- (string_of_list_byte_of_string s1),
          <- (string_of_list_byte_of_string s2), E.
  reflexivity.
Qed.

Lemma claim_preimage_inj (pid snd a t n pid' snd' a' t' n' : Z)
    (d d' : string) :
  is_uint256 pid = true -> is_uint256 pid' = true ->
  is_address snd = true -> is_address snd' = true ->
  is_uint256 a = true -> is_uint256 a' = true ->
  is_uint256 t = true -> is_uint256 t' = true ->
  is_uint256 n = true -> is_uint256 n' = true ->
  claim_preimage pid snd a d t n = claim_preimage pid' snd' a' d' t' n' ->
  (pid, snd, a, d, t, n) = (pid', snd', a', d', t', n').
Proof.
  intros Hpid Hpid' Hs Hs' Ha Ha' Ht Ht' Hn Hn' E.
  apply is_address_range in Hs, Hs'.
  apply is_uint256_range in Hpid, Hpid', Ha, Ha', Ht, Ht', Hn, Hn'.
  unfold claim_preimage, encodePacked in E. cbn [flat_map encode1] in E.
  apply split_word in E as [-> E]; [|assumption..].
  apply split_word in E as [-> E]; [|assumption..].
  apply split_word in E as [-> E]; [|assumption..].
  rewrite !app_nil_r in E. rewrite !(app_assoc (of_string _)) in E.
  apply app_inj_2 in E as [E E2]; [|rewrite !be_bytes_length; reflexivity].
  apply app_inj_2 in E as [E E1]; [|rewrite !be_bytes_length; reflexivity].
  apply of_string_inj in E. subst d'.
  apply be_bytes_inj in E1, E2; try assumption.
  subst. reflexivity.
Qed.

End PreimageFacts.

(** ** The external functions in normal form *)

Section ContractFacts.
Import PolicyClaim.

Ltac sol_unfold :=
  unfold registerPolicy, submitClaim, processClaim, deactivatePolicy,
    onlyInsurer, validPolicy, validClaim, update_claim,
    bind, require, get, modify, emit, ret, lift, checked_incr.

Lemma registerPolicy_eq env h a p sd ed ph s :
  registerPolicy env h a p sd ed ph s =
  if negb (msg_sender env =? insurer s)
  then Revert "Only insurer can perform this action"
  else if h =? 0 then Revert "Invalid policy holder address"
  else if negb (0 <? a) then Revert "Insured amount must be greater than 0"
  else if negb (MINIMUM_PREMIUM <=? p) then Revert "Premium below minimum required"
  else if negb (sd <? ed) then Revert "End date must be after start date"
  else if negb (block_timestamp env <? ed)
       then Revert "End date must be in the future"
  else if negb (totalPolicies s + 1 <=? MAX_UINT256) then Panic 0x11
  else
    let policyId :=
      keccak256 (policy_preimage h a p sd ed (block_timestamp env)
                   (totalPolicies s)) in
    Ok (policyId,
        set_totalPolicies (totalPolicies s + 1)
          (push_userPolicy h policyId
             (set_policy policyId
                (Policy.mk policyId h a p sd ed true ph) s)),
        [PolicyRegistered policyId h a p sd ed]).
Proof.
  sol_unfold. simpl.
  destruct (msg_sender env =? insurer s); simpl; [|reflexivity].
  destruct (h =? 0); simpl; [reflexivity|].
  destruct (0 <? a); simpl; [|reflexivity].
  destruct (MINIMUM_PREMIUM <=? p); simpl; [|reflexivity].
  destruct (sd <? ed); simpl; [|reflexivity].
  destruct (block_timestamp env <? ed); simpl; [|reflexivity].
  destruct (totalPolicies s + 1 <=? MAX_UINT256); simpl; reflexivity.
Qed.

Lemma submitClaim_eq env pid a d s :
  submitClaim env pid a d s =
  let policy := policy_at s pid in
  if Policy.policyId policy =? 0 then Revert "Policy does not exist"
  else if negb (Policy.isActive policy) then Revert "Policy is not active"
  else if negb (msg_sender env =? Policy.policyHolder policy)
       then Revert "Only policy holder can submit claims"
  else if negb (0 <? a) then Revert "Claim amount must be greater than 0"
  else if negb (Policy.startDate policy <=? block_timestamp env)
       then Revert "Policy has not started yet"
  else if negb (block_timestamp env <=? Policy.endDate policy)
       then Revert "Policy has expired"
  else if negb (totalClaims s + 1 <=? MAX_UINT256) then Panic 0x11
  else
    let claimId :=
      keccak256 (claim_preimage pid (msg_sender env) a d
                   (block_timestamp env) (totalClaims s)) in
    Ok (claimId,
        set_totalClaims (totalClaims s + 1)
          (push_userClaim (msg_sender env) claimId
             (set_claim claimId
                (Claim.mk claimId pid (msg_sender env) a d
                          (block_timestamp env) Pending "") s)),
        [ClaimSubmitted claimId pid (msg_sender env) a d]).
Proof.
  sol_unfold. simpl.
  destruct (Policy.policyId (policy_at s pid) =? 0); simpl; [reflexivity|].
  destruct (Policy.isActive (policy_at s pid)); simpl; [|reflexivity].
  destruct (msg_sender env =? Policy.policyHolder (policy_at s pid));
    simpl; [|reflexivity].
  destruct (0 <? a); simpl; [|reflexivity].
  destruct (Policy.startDate (policy_at s pid) <=? block_timestamp env);
    simpl; [|reflexivity].
  destruct (block_timestamp env <=? Policy.endDate (policy_at s pid));
    simpl; [|reflexivity].
  destruct (totalClaims s + 1 <=? MAX_UINT256); simpl; reflexivity.
Qed.

Lemma claim_at_set_claim id c s : claim_at (set_claim id c s) id = c.
Proof. unfold claim_at, set_claim; simpl. rewrite lookup_insert_eq. reflexivity. Qed.

Lemma claim_at_set_claim_ne id id' c s :
  id <> id' -> claim_at (set_claim id c s) id' = claim_at s id'.
Proof.
  intros Hne. unfold claim_at, set_claim; simpl.
  rewrite lookup_insert_ne by assumption. reflexivity.
Qed.

Lemma set_claim_set_claim id c c' s :
  set_claim id c' (set_claim id c s) = set_claim id c' s.
Proof. unfold set_claim; simpl. rewrite insert_insert_eq. reflexivity. Qed.

Lemma policy_at_set_policy id p s : policy_at (set_policy id p s) id = p.
Proof. unfold policy_at, set_policy; simpl. rewrite lookup_insert_eq. reflexivity. Qed.

Lemma policy_at_set_policy_ne id id' p s :
  id <> id' -> policy_at (set_policy id p s) id' = policy_at s id'.
Proof.
  intros Hne. unfold policy_at, set_policy; simpl.
  rewrite lookup_insert_ne by assumption. reflexivity.
Qed.

Lemma processClaim_eq env id s :
  processClaim env id s =
  let claim := claim_at s id in
  let policy := policy_at s (Claim.policyId claim) in
  if Claim.claimId claim =? 0 then Revert "Claim does not exist"
  else if negb (ClaimStatus_eqb (Claim.status claim) Pending)
       then Revert "Claim already processed"
  else if negb (Claim.claimAmount claim * 100 <=? MAX_UINT256) then Panic 0x11
  else if Policy.insuredAmount policy =? 0 then Panic 0x12
  else
    let claim' := Spec.decided (block_timestamp env) claim policy in
    Ok (Spec.approved (block_timestamp env) claim policy,
        set_claim id claim' s,
        [ClaimProcessed id (Claim.policyId claim') (Claim.status claim')
           (Claim.rejectionReason claim')]).
Proof.
  sol_unfold. simpl.
  destruct (Claim.claimId (claim_at s id) =? 0); simpl; [reflexivity|].
  destruct (ClaimStatus_eqb (Claim.status (claim_at s id)) Pending);
    simpl; [|reflexivity].
  unfold isAmountReasonable, checked_mul, checked_div.
  destruct (Claim.claimAmount (claim_at s id) * 100 <=? MAX_UINT256);
    simpl; [|reflexivity].
  destruct (Policy.insuredAmount (policy_at s (Claim.policyId (claim_at s id))) =? 0);
    simpl; [reflexivity|].
  unfold Spec.decided, Spec.first_failing_reason, Spec.approved,
    Spec.isPolicyValid, Spec.isAmountValid, Spec.isAmountReasonable,
    Spec.ratio, isPolicyValid, isAmountValid, MAXIMUM_CLAIM_RATIO.
  set (c := claim_at s id).
  set (p := policy_at s (Claim.policyId c)).
  destruct (Policy.isActive p); simpl;
  destruct (Policy.startDate p <=? block_timestamp env); simpl;
  destruct (block_timestamp env <=? Policy.endDate p); simpl;
  destruct (Claim.claimAmount c <=? Policy.insuredAmount p); simpl;
  destruct (Claim.claimAmount c * 100 / Policy.insuredAmount p <=? 80); simpl;
  rewrite ?claim_at_set_claim, ?set_claim_set_claim; reflexivity.
Qed.

Lemma deactivatePolicy_eq env pid s :
  deactivatePolicy env pid s =
  let policy := policy_at s pid in
  if negb (msg_sender env =? insurer s)
  then Revert "Only insurer can perform this action"
  else if Policy.policyId policy =? 0 then Revert "Policy does not exist"
  else if negb (Policy.isActive policy) then Revert "Policy is not active"
  else Ok (tt, set_policy pid (Policy.set_isActive false policy) s,
           [PolicyDeactivated pid (Policy.policyHolder policy)]).
Proof.
  sol_unfold. simpl.
  destruct (msg_sender env =? insurer s); simpl; [|reflexivity].
  destruct (Policy.policyId (policy_at s pid) =? 0); simpl; [reflexivity|].
  destruct (Policy.isActive (policy_at s pid)); simpl; [|reflexivity].
  rewrite policy_at_set_policy. reflexivity.
Qed.

End ContractFacts.

(** ** Invariants of reachable states *)

Section RunFacts.
Import PolicyClaim Runs.

Lemma call_Ok_cases env tx s r s' ev :
  call env tx s = Ok (r, s', ev) ->
  match tx with
  | RegisterPolicy h a p sd ed ph =>
      exists id, registerPolicy env h a p sd ed ph s = Ok (id, s', ev)
                 /\ r = RBytes32 id
  | SubmitClaim pid a d =>
      exists id, submitClaim env pid a d s = Ok (id, s', ev) /\ r = RBytes32 id
  | ProcessClaim cid =>
      exists b, processClaim env cid s = Ok (b, s', ev) /\ r = RBool b
  | DeactivatePolicy pid =>
      deactivatePolicy env pid s = Ok (tt, s', ev) /\ r = RUnit
  end.
Proof.
  destruct tx as [h a p sd ed ph|pid a d|cid|pid]; unfold call, bind, ret.
  - destruct (registerPolicy env h a p sd ed ph s) as [[[id s1] ev1]|?|?];
      [|discriminate..].
    intros [= <- <- <-]. rewrite app_nil_r. eauto.
  - destruct (submitClaim env pid a d s) as [[[id s1] ev1]|?|?];
      [|discriminate..].
    intros [= <- <- <-]. rewrite app_nil_r. eauto.
  - destruct (processClaim env cid s) as [[[b s1] ev1]|?|?];
      [|discriminate..].
    intros [= <- <- <-]. rewrite app_nil_r. eauto.
  - destruct (deactivatePolicy env pid s) as [[[[] s1] ev1]|?|?];
      [|discriminate..].
    intros [= <- <- <-]. rewrite app_nil_r. eauto.
Qed.

Lemma registerPolicy_Ok env h a p sd ed ph s id s' ev :
  registerPolicy env h a p sd ed ph s = Ok (id, s', ev) ->
  msg_sender env = insurer s /\ h <> 0 /\ 0 < a /\ MINIMUM_PREMIUM <= p
  /\ sd < ed /\ block_timestamp env < ed
  /\ totalPolicies s + 1 <= MAX_UINT256
  /\ id = keccak256 (policy_preimage h a p sd ed (block_timestamp env)
                       (totalPolicies s))
  /\ s' = set_totalPolicies (totalPolicies s + 1)
            (push_userPolicy h id
               (set_policy id (Policy.mk id h a p sd ed true ph) s))
  /\ ev = [PolicyRegistered id h a p sd ed].
Proof.
  rewrite registerPolicy_eq.
  destruct (msg_sender env =? insurer s) eqn:E1; simpl; [|discriminate].
  destruct (h =? 0) eqn:E2; simpl; [discriminate|].
  destruct (0 <? a) eqn:E3; simpl; [|discriminate].
  destruct (MINIMUM_PREMIUM <=? p) eqn:E4; simpl; [|discriminate].
  destruct (sd <? ed) eqn:E5; simpl; [|discriminate].
  destruct (block_timestamp env <? ed) eqn:E6; simpl; [|discriminate].
  destruct (totalPolicies s + 1 <=? MAX_UINT256) eqn:E7; simpl; [|discriminate].
  intros [= <- <- <-].
  apply Z.eqb_eq in E1. apply Z.eqb_neq in E2. apply Z.ltb_lt in E3.
  apply Z.leb_le in E4. apply Z.ltb_lt in E5. apply Z.ltb_lt in E6.
  apply Z.leb_le in E7. repeat split; assumption.
Qed.

Lemma submitClaim_Ok env pid a d s id s' ev :
  submitClaim env pid a d s = Ok (id, s', ev) ->
  let policy := policy_at s pid in
  Policy.policyId policy <> 0 /\ Policy.isActive policy = true
  /\ msg_sender env = Policy.policyHolder policy /\ 0 < a
  /\ Policy.startDate policy <= block_timestamp env <= Policy.endDate policy
  /\ totalClaims s + 1 <= MAX_UINT256
  /\ id = keccak256 (claim_preimage pid (msg_sender env) a d
                       (block_timestamp env) (totalClaims s))
  /\ s' = set_totalClaims (totalClaims s + 1)
            (push_userClaim (msg_sender env) id
               (set_claim id
                  (Claim.mk id pid (msg_sender env) a d
                            (block_timestamp env) Pending "") s))
  /\ ev = [ClaimSubmitted id pid (msg_sender env) a d].
Proof.
  rewrite submitClaim_eq. cbv zeta.
  destruct (Policy.policyId (policy_at s pid) =? 0) eqn:E1; simpl; [discriminate|].
  destruct (Policy.isActive (policy_at s pid)) eqn:E2; simpl; [|discriminate].
  destruct (msg_sender env =? Policy.policyHolder (policy_at s pid)) eqn:E3;
    simpl; [|discriminate].
  destruct (0 <? a) eqn:E4; simpl; [|discriminate].
  destruct (Policy.startDate (policy_at s pid) <=? block_timestamp env) eqn:E5;
    simpl; [|discriminate].
  destruct (block_timestamp env <=? Policy.endDate (policy_at s pid)) eqn:E6;
    simpl; [|discriminate].
  destruct (totalClaims s + 1 <=? MAX_UINT256) eqn:E7; simpl; [|discriminate].
  intros [= <- <- <-].
  apply Z.eqb_neq in E1. apply Z.eqb_eq in E3. apply Z.ltb_lt in E4.
  apply Z.leb_le in E5. apply Z.leb_le in E6. apply Z.leb_le in E7.
  repeat split; assumption.
Qed.

Lemma ClaimStatus_eqb_eq a b : ClaimStatus_eqb a b = true <-> a = b.
Proof. destruct a, b; simpl; split; intros H; congruence. Qed.

Lemma processClaim_Ok env id s b s' ev :
  processClaim env id s = Ok (b, s', ev) ->
  let claim := claim_at s id in
  let policy := policy_at s (Claim.policyId claim) in
  Claim.claimId claim <> 0 /\ Claim.status claim = Pending
  /\ Claim.claimAmount claim * 100 <= MAX_UINT256
  /\ Policy.insuredAmount policy <> 0
  /\ b = Spec.approved (block_timestamp env) claim policy
  /\ s' = set_claim id (Spec.decided (block_timestamp env) claim policy) s.
Proof.
  rewrite processClaim_eq. cbv zeta.
  destruct (Claim.claimId (claim_at s id) =? 0) eqn:E1; simpl; [discriminate|].
  destruct (ClaimStatus_eqb (Claim.status (claim_at s id)) Pending) eqn:E2;
    simpl; [|discriminate].
  destruct (Claim.claimAmount (claim_at s id) * 100 <=? MAX_UINT256) eqn:E3;
    simpl; [|discriminate].
  destruct (Policy.insuredAmount
              (policy_at s (Claim.policyId (claim_at s id))) =? 0) eqn:E4;
    simpl; [discriminate|].
  intros [= <- <- <-].
  apply Z.eqb_neq in E1. apply ClaimStatus_eqb_eq in E2.
  apply Z.leb_le in E3. apply Z.eqb_neq in E4.
  repeat split; assumption.
Qed.

Lemma deactivatePolicy_Ok env pid s u s' ev :
  deactivatePolicy env pid s = Ok (u, s', ev) ->
  Policy.policyId (policy_at s pid) <> 0
  /\ s' = set_policy pid (Policy.set_isActive false (policy_at s pid)) s.
Proof.
  rewrite deactivatePolicy_eq. cbv zeta.
  destruct (msg_sender env =? insurer s); simpl; [|discriminate].
  destruct (Policy.policyId (policy_at s pid) =? 0) eqn:E1; simpl; [discriminate|].
  destruct (Policy.isActive (policy_at s pid)); simpl; [|discriminate].
  intros [= <- <- <-]. apply Z.eqb_neq in E1. split; [assumption|reflexivity].
Qed.

(** A slot that reads with a non-zero identifier has been written. *)
Lemma policy_at_written s id :
  Policy.policyId (policy_at s id) <> 0 ->
  policies s !! id = Some (policy_at s id).
Proof.
  unfold policy_at. destruct (policies s !! id); simpl; [reflexivity|].
  intros H. exfalso. apply H. reflexivity.
Qed.

Lemma claim_at_written s id :
  Claim.claimId (claim_at s id) <> 0 ->
  claims s !! id = Some (claim_at s id).
Proof.
  unfold claim_at. destruct (claims s !! id); simpl; [reflexivity|].
  intros H. exfalso. apply H. reflexivity.
Qed.

Lemma decided_policyId now c p :
  Claim.policyId (Spec.decided now c p) = Claim.policyId c.
Proof. unfold Spec.decided. destruct (Spec.approved now c p); reflexivity. Qed.

Lemma ledger_inv_constructor env : ledger_inv (constructor env).
Proof.
  unfold ledger_inv, constructor, MAX_UINT256; simpl.
  repeat split; try lia; intros id x H; rewrite lookup_empty in H; discriminate.
Qed.

Lemma ledger_inv_step s s' : ledger_inv s -> step s s' -> ledger_inv s'.
Proof.
  intros (HP & HC & Hpol & Hcl) [env tx r ev Henv Htx Hcall].
  apply call_Ok_cases in Hcall.
  destruct tx as [h a p sd ed ph|pid a d|cid|pid].
  - destruct Hcall as (id & Hcall & _).
    apply registerPolicy_Ok in Hcall
      as (_ & _ & Ha & _ & _ & _ & Hn & _ & -> & _).
    unfold ledger_inv; simpl. repeat split; try lia.
    + intros id' p' H. destruct (decide (id = id')) as [->|Hne].
      * rewrite lookup_insert_eq in H. injection H as <-. exact Ha.
      * rewrite lookup_insert_ne in H by assumption. eauto.
    + intros id' c H. unfold policy_at; simpl.
      destruct (decide (id = Claim.policyId c)) as [->|Hne].
      * rewrite lookup_insert_eq. exact Ha.
      * rewrite lookup_insert_ne by assumption. eapply Hcl; eassumption.
  - destruct Hcall as (id & Hcall & _).
    apply submitClaim_Ok in Hcall
      as (Hex & _ & _ & _ & _ & Hn & _ & -> & _).
    unfold ledger_inv; simpl. repeat split; try lia; [assumption|].
    intros id' c H. unfold policy_at; simpl.
    destruct (decide (id = id')) as [->|Hne].
    + rewrite lookup_insert_eq in H. injection H as <-. simpl.
      apply policy_at_written in Hex. eapply Hpol; eassumption.
    + rewrite lookup_insert_ne in H by assumption. eapply Hcl; eassumption.
  - destruct Hcall as (b & Hcall & _).
    apply processClaim_Ok in Hcall as (Hex & _ & _ & _ & _ & ->).
    unfold ledger_inv; simpl. repeat split; try lia; [assumption|].
    intros id' c H. unfold policy_at; simpl.
    destruct (decide (cid = id')) as [->|Hne].
    + rewrite lookup_insert_eq in H. injection H as <-.
      rewrite decided_policyId.
      apply claim_at_written in Hex. eapply Hcl; eassumption.
    + rewrite lookup_insert_ne in H by assumption. eapply Hcl; eassumption.
  - destruct Hcall as (Hcall & _).
    apply deactivatePolicy_Ok in Hcall as (Hex & ->).
    apply policy_at_written in Hex.
    unfold ledger_inv; simpl. repeat split; try lia.
    + intros id' p' H. destruct (decide (pid = id')) as [->|Hne].
      * rewrite lookup_insert_eq in H. injection H as <-. simpl. eauto.
      * rewrite lookup_insert_ne in H by assumption. eauto.
    + intros id' c H. unfold policy_at; simpl.
      destruct (decide (pid = Claim.policyId c)) as [->|Hne].
      * rewrite lookup_insert_eq. simpl. eauto.
      * rewrite lookup_insert_ne by assumption. eapply Hcl; eassumption.
Qed.

Lemma ledger_inv_steps s s' : ledger_inv s -> steps s s' -> ledger_inv s'.
Proof.
  intros Hinv Hsteps. induction Hsteps as [|s1 s2 s3 _ IH Hstep]; [assumption|].
  eapply ledger_inv_step; [apply IH; assumption|exact Hstep].
Qed.

Lemma reachable_inv s : reachable s -> ledger_inv s.
Proof.
  intros (env & _ & Hsteps).
  eapply ledger_inv_steps; [apply ledger_inv_constructor|exact Hsteps].
Qed.

Lemma steps_trans s1 s2 s3 : steps s1 s2 -> steps s2 s3 -> steps s1 s3.
Proof.
  intros H12 H23. induction H23 as [|s2 s3 s4 _ IH Hstep]; [assumption|].
  eapply steps_snoc; [apply IH; assumption|exact Hstep].
Qed.

Lemma reachable_steps s s' : reachable s -> steps s s' -> reachable s'.
Proof.
  intros (env & Henv & H) H'. exists env. split; [assumption|].
  eapply steps_trans; eassumption.
Qed.

Lemma apply_steps etx s : wf_etx etx = true -> steps s (apply etx s).
Proof.
  intros Hwf. apply andb_true_iff in Hwf as [Henv Htx].
  unfold apply.
  destruct (call (fst etx) (snd etx) s) as [[[r s'] ev]|?|?] eqn:E;
    try apply steps_refl.
  eapply steps_snoc; [apply steps_refl|].
  eapply step_call; eassumption.
Qed.

Lemma run_steps txs s : forallb wf_etx txs = true -> steps s (run txs s).
Proof.
  revert s. induction txs as [|etx txs IH]; intros s Hwf.
  - apply steps_refl.
  - simpl in Hwf. apply andb_true_iff in Hwf as [H1 H2].
    change (run (etx :: txs) s) with (run txs (apply etx s)).
    apply (steps_trans s (apply etx s)).
    + apply apply_steps. exact H1.
    + apply IH. exact H2.
Qed.

Lemma run_reachable env txs :
  wf_env env = true -> forallb wf_etx txs = true ->
  reachable (run txs (constructor env)).
Proof.
  intros Henv Hwf. exists env. split; [assumption|].
  apply run_steps; assumption.
Qed.



End RunFacts.

(** ** Claim processing *)

Section ProcessClaimFacts.
Import PolicyClaim Runs.

(** In a reachable state the policy of an existing claim insures a positive
    amount, so the ratio is defined. *)
Lemma claim_policy_insured s id :
  reachable s -> Claim.claimId (claim_at s id) <> 0 ->
  0 < Policy.insuredAmount (policy_at s (Claim.policyId (claim_at s id))).
Proof.
  intros Hr Hex. apply reachable_inv in Hr as (_ & _ & _ & Hcl).
  apply claim_at_written in Hex. eapply Hcl. exact Hex.
Qed.

Lemma processClaim_pending s env id :
  reachable s ->
  Claim.claimId (claim_at s id) <> 0 ->
  Claim.status (claim_at s id) = Pending ->
  Claim.claimAmount (claim_at s id) * 100 <= MAX_UINT256 ->
  let claim := claim_at s id in
  let policy := policy_at s (Claim.policyId claim) in
  let claim' := Spec.decided (block_timestamp env) claim policy in
  processClaim env id s =
  Ok (Spec.approved (block_timestamp env) claim policy,
      set_claim id claim' s,
      [ClaimProcessed id (Claim.policyId claim') (Claim.status claim')
         (Claim.rejectionReason claim')]).
Proof.
  intros Hr Hex Hst Hov. cbv zeta. rewrite processClaim_eq. cbv zeta.
  pose proof (claim_policy_insured s id Hr Hex) as Hins.
  apply Z.eqb_neq in Hex. rewrite Hex. rewrite Hst. simpl.
  apply Z.leb_le in Hov. rewrite Hov. simpl.
  assert (E : (Policy.insuredAmount
                 (policy_at s (Claim.policyId (claim_at s id))) =? 0) = false)
    by (apply Z.eqb_neq; lia).
  rewrite E. reflexivity.
Qed.

Lemma decided_status now c p :
  Claim.status (Spec.decided now c p)
  = if Spec.approved now c p then Approved else Rejected.
Proof. unfold Spec.decided. destruct (Spec.approved now c p); reflexivity. Qed.

Lemma decided_reason_rejected now c p :
  Spec.approved now c p = false ->
  Claim.rejectionReason (Spec.decided now c p)
  = Spec.first_failing_reason now c p.
Proof. unfold Spec.decided. intros ->. reflexivity. Qed.

(** C1, where the code departs from it.  [processClaim] computes
    [claim.claimAmount * 100] in checked 256-bit arithmetic before it
    decides.  For an existing claim with status [Pending] whose amount
    exceeds [floor((2^256 - 1) / 100)] the multiplication overflows: the
    call panics with code [0x11] for every caller and at every time,
    returns no decision, and leaves the ledger, the claim's [Pending]
    status included, as it was.  The design document's rule gives such a
    claim a decision all the same. *)
Theorem processClaim_overflow s id :
  Claim.claimId (claim_at s id) <> 0 ->
  Claim.status (claim_at s id) = Pending ->
  MAX_UINT256 < Claim.claimAmount (claim_at s id) * 100 ->
  forall env,
    processClaim env id s = Panic 0x11
    /\ (forall b s' ev, processClaim env id s <> Ok (b, s', ev))
    /\ apply (env, ProcessClaim id) s = s
    /\ Claim.status (claim_at (apply (env, ProcessClaim id) s) id) = Pending.
Proof.
  intros Hex Hst Hov env.
  assert (H : processClaim env id s = Panic 0x11).
  { rewrite processClaim_eq. cbv zeta.
    apply Z.eqb_neq in Hex. rewrite Hex. rewrite Hst. simpl.
    apply Z.leb_gt in Hov. rewrite Hov. reflexivity. }
  assert (Ha : apply (env, ProcessClaim id) s = s).
  { unfold apply, call, bind, ret. simpl. rewrite H. reflexivity. }
  split; [exact H|]. split; [intros b s' ev E; rewrite H in E; discriminate E|].
  split; [exact Ha|]. rewrite Ha. exact Hst.
Qed.

(** X25. The decision [processClaim] takes.  For a reachable ledger and an
    existing claim with status [Pending] whose amount times 100 fits 256
    bits, the call returns
    [isPolicyValid && isAmountValid && isAmountReasonable], sets the claim's
    status to [Approved] when that holds and to [Rejected] with the reason
    of the first failing condition otherwise, emits one [ClaimProcessed]
    event with the new status and reason, and changes nothing else: the
    claim's other fields, every other claim, the policies, the per-user
    lists, the two counters and the insurer are as before. *)
Theorem processClaim_decision s env id :
  reachable s ->
  Claim.claimId (claim_at s id) <> 0 ->
  Claim.status (claim_at s id) = Pending ->
  Claim.claimAmount (claim_at s id) * 100 <= MAX_UINT256 ->
  let claim := claim_at s id in
  let policy := policy_at s (Claim.policyId claim) in
  let approved := Spec.isPolicyValid (block_timestamp env) policy
                  && Spec.isAmountValid claim policy
                  && Spec.isAmountReasonable claim policy in
  exists s',
    processClaim env id s
    = Ok (approved, s',
          [ClaimProcessed id (Claim.policyId claim)
             (Claim.status (claim_at s' id))
             (Claim.rejectionReason (claim_at s' id))])
    /\ Claim.status (claim_at s' id) = (if approved then Approved else Rejected)
    /\ Claim.rejectionReason (claim_at s' id)
       = (if approved then Claim.rejectionReason claim
          else Spec.first_failing_reason (block_timestamp env) claim policy)
    /\ (Claim.claimId (claim_at s' id) = Claim.claimId claim
        /\ Claim.policyId (claim_at s' id) = Claim.policyId claim
        /\ Claim.claimant (claim_at s' id) = Claim.claimant claim
        /\ Claim.claimAmount (claim_at s' id) = Claim.claimAmount claim
        /\ Claim.claimDescription (claim_at s' id)
           = Claim.claimDescription claim
        /\ Claim.submissionDate (claim_at s' id) = Claim.submissionDate claim)
    /\ claims s' = <[id := claim_at s' id]> (claims s)
    /\ (forall id', id' <> id -> claim_at s' id' = claim_at s id')
    /\ policies s' = policies s
    /\ userPolicies s' = userPolicies s /\ userClaims s' = userClaims s
    /\ totalPolicies s' = totalPolicies s /\ totalClaims s' = totalClaims s
    /\ insurer s' = insurer s.
Proof.
  intros Hr Hex Hst Hov. cbv zeta.
  exists (set_claim id
            (Spec.decided (block_timestamp env) (claim_at s id)
               (policy_at s (Claim.policyId (claim_at s id)))) s).
  rewrite claim_at_set_claim.
  split.
  { rewrite processClaim_pending by assumption. cbv zeta.
    rewrite decided_policyId. reflexivity. }
  rewrite decided_status.
  split; [reflexivity|].
  split.
  { unfold Spec.decided, Spec.approved.
    destruct (Spec.isPolicyValid _ _ && _ && _); reflexivity. }
  split.
  { unfold Spec.decided.
    destruct (Spec.approved _ _ _); simpl; repeat split; reflexivity. }
  split; [reflexivity|].
  split; [intros id' Hne; apply claim_at_set_claim_ne; congruence|].
  repeat split; reflexivity.
Qed.

(** C3 (as amended). Whenever [processClaim] rejects a claim, the recorded
    [rejectionReason] is that of the first failing condition in the order
    policy validity, amount validity, ratio; and for a pending claim on an
    active, in-window policy with [claim.amount > policy.insuredAmount] (and
    [amount * 100] within 256 bits) the call rejects and the recorded reason
    is exactly ["Claim amount exceeds insured amount"]. *)
Theorem processClaim_rejection_reason s env id :
  (forall s' ev,
      processClaim env id s = Ok (false, s', ev) ->
      let claim := claim_at s id in
      let policy := policy_at s (Claim.policyId claim) in
      Claim.status (claim_at s' id) = Rejected
      /\ Claim.rejectionReason (claim_at s' id)
         = (if negb (Spec.isPolicyValid (block_timestamp env) policy)
            then "Policy is not valid or has expired"
            else if negb (Spec.isAmountValid claim policy)
                 then "Claim amount exceeds insured amount"
                 else "Claim amount exceeds maximum allowed ratio")
      /\ (Spec.isPolicyValid (block_timestamp env) policy = false
          \/ Spec.isAmountValid claim policy = false
          \/ Spec.isAmountReasonable claim policy = false))
  /\ (reachable s ->
      Claim.claimId (claim_at s id) <> 0 ->
      Claim.status (claim_at s id) = Pending ->
      Spec.isPolicyValid (block_timestamp env)
        (policy_at s (Claim.policyId (claim_at s id))) = true ->
      Claim.claimAmount (claim_at s id)
        > Policy.insuredAmount (policy_at s (Claim.policyId (claim_at s id))) ->
      Claim.claimAmount (claim_at s id) * 100 <= MAX_UINT256 ->
      exists s' ev,
        processClaim env id s = Ok (false, s', ev)
        /\ Claim.status (claim_at s' id) = Rejected
        /\ Claim.rejectionReason (claim_at s' id)
           = "Claim amount exceeds insured amount").
Proof.
  split.
  - intros s' ev H. cbv zeta.
    apply processClaim_Ok in H as (_ & _ & _ & _ & Hb & ->).
    symmetry in Hb.
    rewrite claim_at_set_claim, decided_status, Hb.
    rewrite decided_reason_rejected by exact Hb.
    repeat split.
    unfold Spec.approved in Hb.
    destruct (Spec.isPolicyValid _ _); [|tauto].
    destruct (Spec.isAmountValid _ _); [|tauto].
    destruct (Spec.isAmountReasonable _ _); [discriminate|tauto].
  - intros Hr Hex Hst Hpv Hgt Hov.
    assert (Hav : Spec.isAmountValid (claim_at s id)
                    (policy_at s (Claim.policyId (claim_at s id))) = false)
      by (apply Z.leb_gt; lia).
    assert (Hb : Spec.approved (block_timestamp env) (claim_at s id)
                   (policy_at s (Claim.policyId (claim_at s id))) = false)
      by (unfold Spec.approved; rewrite Hpv, Hav; reflexivity).
    eexists _, _. split.
    + rewrite processClaim_pending by assumption. cbv zeta. rewrite Hb.
      reflexivity.
    + rewrite claim_at_set_claim, decided_status, Hb.
      rewrite decided_reason_rejected by exact Hb.
      unfold Spec.first_failing_reason. rewrite Hpv, Hav. split; reflexivity.
Qed.

(** C2 (as amended). For a pending claim on an active, in-window policy with
    [claim.amount <= insuredAmount] (and [amount * 100] within 256 bits):
    the claim is approved if [floor(amount * 100 / insuredAmount) <= 80];
    it is rejected with the ratio reason exactly from
    [amount * 100 >= 81 * insuredAmount] on; and the amount one unit above
    [floor(insuredAmount * 0.80)] is therefore still approved whenever
    [insuredAmount > 100]. *)
Theorem processClaim_ratio_boundary s env id :
  reachable s ->
  Claim.claimId (claim_at s id) <> 0 ->
  Claim.status (claim_at s id) = Pending ->
  Spec.isPolicyValid (block_timestamp env)
    (policy_at s (Claim.policyId (claim_at s id))) = true ->
  Claim.claimAmount (claim_at s id)
    <= Policy.insuredAmount (policy_at s (Claim.policyId (claim_at s id))) ->
  Claim.claimAmount (claim_at s id) * 100 <= MAX_UINT256 ->
  let amount := Claim.claimAmount (claim_at s id) in
  let insured := Policy.insuredAmount
                   (policy_at s (Claim.policyId (claim_at s id))) in
  (amount * 100 / insured <= 80 ->
     exists s' ev, processClaim env id s = Ok (true, s', ev)
                   /\ Claim.status (claim_at s' id) = Approved)
  /\ (81 * insured <= amount * 100 ->
     exists s' ev, processClaim env id s = Ok (false, s', ev)
                   /\ Claim.status (claim_at s' id) = Rejected
                   /\ Claim.rejectionReason (claim_at s' id)
                      = "Claim amount exceeds maximum allowed ratio")
  /\ (amount * 100 / insured <= 80 <-> amount * 100 < 81 * insured)
  /\ (100 < insured -> amount = insured * 80 / 100 + 1 ->
     exists s' ev, processClaim env id s = Ok (true, s', ev)
                   /\ Claim.status (claim_at s' id) = Approved).
Proof.
  intros Hr Hex Hst Hpv Hle Hov. cbv zeta.
  pose proof (claim_policy_insured s id Hr Hex) as Hins.
  set (c := claim_at s id) in *.
  set (p := policy_at s (Claim.policyId c)) in *.
  assert (Hav : Spec.isAmountValid c p = true) by (apply Z.leb_le; lia).
  assert (Hiff : Claim.claimAmount c * 100 / Policy.insuredAmount p <= 80
                 <-> Claim.claimAmount c * 100 < 81 * Policy.insuredAmount p).
  { split; intros H.
    - apply Z.nle_gt. intros Hc.
      assert (81 <= Claim.claimAmount c * 100 / Policy.insuredAmount p)
        by (apply Z.div_le_lower_bound; lia). lia.
    - assert (Claim.claimAmount c * 100 / Policy.insuredAmount p < 81)
        by (apply Z.div_lt_upper_bound; lia). lia. }
  assert (Hyes : Claim.claimAmount c * 100 / Policy.insuredAmount p <= 80 ->
                 exists s' ev, processClaim env id s = Ok (true, s', ev)
                               /\ Claim.status (claim_at s' id) = Approved).
  { intros Hr80.
    assert (Hb : Spec.approved (block_timestamp env) c p = true).
    { unfold Spec.approved, Spec.isAmountReasonable, Spec.ratio.
      rewrite Hpv, Hav. simpl. apply Z.leb_le. exact Hr80. }
    eexists _, _. split.
    - rewrite processClaim_pending by assumption. cbv zeta.
      fold c. fold p. rewrite Hb. reflexivity.
    - rewrite claim_at_set_claim, decided_status. fold c. fold p.
      rewrite Hb. reflexivity. }
  split; [exact Hyes|]. split; [|split; [exact Hiff|]].
  - intros H81.
    assert (Har : Spec.isAmountReasonable c p = false).
    { unfold Spec.isAmountReasonable, Spec.ratio. apply Z.leb_gt.
      assert (81 <= Claim.claimAmount c * 100 / Policy.insuredAmount p)
        by (apply Z.div_le_lower_bound; lia). lia. }
    assert (Hb : Spec.approved (block_timestamp env) c p = false)
      by (unfold Spec.approved; rewrite Hpv, Hav, Har; reflexivity).
    eexists _, _. split.
    + rewrite processClaim_pending by assumption. cbv zeta.
      fold c. fold p. rewrite Hb. reflexivity.
    + rewrite claim_at_set_claim, decided_status. fold c. fold p. rewrite Hb.
      rewrite decided_reason_rejected by exact Hb.
      unfold Spec.first_failing_reason. rewrite Hpv, Hav. split; reflexivity.
  - intros H100 Hamt. apply Hyes. apply Hiff.
    rewrite Hamt.
    pose proof (Z.div_mod (Policy.insuredAmount p * 80) 100 ltac:(lia)).
    pose proof (Z.mod_pos_bound (Policy.insuredAmount p * 80) 100 ltac:(lia)).
    lia.
Qed.

End ProcessClaimFacts.

(** ** The scenarios, evaluated *)

Section ScenarioFacts.
Import PolicyClaim Runs Scenario.

Lemma registered_reachable : reachable registered.
Proof.
  apply (run_reachable (by_ insurerAddr now) [register1; register2]);
    vm_compute; reflexivity.
Qed.

Lemma submitted1_reachable amount :
  is_uint256 amount = true -> reachable (submitted1 amount).
Proof.
  intros H. apply (reachable_steps registered); [apply registered_reachable|].
  apply (run_steps [submit1 amount] registered).
  unfold forallb, wf_etx, submit1, wf_env, wf_tx, snd, fst.
  rewrite H. vm_compute. reflexivity.
Qed.

Lemma submitted2_reachable : reachable submitted2.
Proof.
  apply (reachable_steps registered); [apply registered_reachable|].
  apply (run_steps [submit2] registered). vm_compute. reflexivity.
Qed.

Lemma registeredLater_reachable : reachable registeredLater.
Proof.
  apply (run_reachable (by_ insurerAddr now) [registerLater]);
    vm_compute; reflexivity.
Qed.

(** The 3 ether claim on the 10 ether policy is approved, and nothing but
    the claim record changes. *)
Lemma processClaim_decision_witness :
  exists s' ev,
    processClaim (by_ insurerAddr now) (claimId1 (3 * ether))
                 (submitted1 (3 * ether)) = Ok (true, s', ev)
    /\ Claim.status (claim_at s' (claimId1 (3 * ether))) = Approved
    /\ userClaims s' = userClaims (submitted1 (3 * ether))
    /\ insurer s' = insurer (submitted1 (3 * ether)).
Proof.
  destruct (processClaim_decision (submitted1 (3 * ether))
              (by_ insurerAddr now) (claimId1 (3 * ether)))
    as (s' & H & Hst & _ & _ & _ & _ & _ & _ & Huc & _ & _ & Hins).
  - apply submitted1_reachable. reflexivity.
  - vm_compute. intros E. discriminate E.
  - vm_compute. reflexivity.
  - vm_compute. intros E. discriminate E.
  - match type of H with
    | _ = Ok (?b, _, _) =>
        assert (E : b = true) by (vm_compute; reflexivity);
        rewrite E in H, Hst
    end.
    exists s'. eexists.
    split; [exact H|]. split; [exact Hst|]. split; [exact Huc | exact Hins].
Defined.

(** C1 at the failing input: the holder of the 10 ether policy submits a
    claim of [2^256 - 1].  The claim exists and is [Pending]; by the design
    document's rule it is to be rejected, its amount exceeding the insured
    amount; yet [processClaim] does not return: the checked multiplication
    by 100 panics and the claim stays [Pending]. *)
Lemma processClaim_overflow_witness :
  reachable (submitted1 MAX_UINT256)
  /\ Claim.claimId (claim_at (submitted1 MAX_UINT256) (claimId1 MAX_UINT256)) <> 0
  /\ Claim.status (claim_at (submitted1 MAX_UINT256) (claimId1 MAX_UINT256))
     = Pending
  /\ Spec.isAmountValid
       (claim_at (submitted1 MAX_UINT256) (claimId1 MAX_UINT256))
       (policy_at (submitted1 MAX_UINT256) policyId1) = false
  /\ processClaim (by_ insurerAddr now) (claimId1 MAX_UINT256)
                  (submitted1 MAX_UINT256) = Panic 0x11
  /\ Claim.status
       (claim_at (apply (by_ insurerAddr now, ProcessClaim (claimId1 MAX_UINT256))
                        (submitted1 MAX_UINT256))
                 (claimId1 MAX_UINT256))
     = Pending.
Proof.
  assert (Hex : Claim.claimId (claim_at (submitted1 MAX_UINT256)
                                        (claimId1 MAX_UINT256)) <> 0)
    by (vm_compute; intros E; discriminate E).
  assert (Hst : Claim.status (claim_at (submitted1 MAX_UINT256)
                                       (claimId1 MAX_UINT256)) = Pending)
    by (vm_compute; reflexivity).
  assert (Hov : MAX_UINT256
                < Claim.claimAmount (claim_at (submitted1 MAX_UINT256)
                                              (claimId1 MAX_UINT256)) * 100)
    by (vm_compute; reflexivity).
  destruct (processClaim_overflow (submitted1 MAX_UINT256)
              (claimId1 MAX_UINT256) Hex Hst Hov (by_ insurerAddr now))
    as (H1 & _ & _ & H4).
  split; [apply submitted1_reachable; reflexivity|].
  split; [exact Hex|]. split; [exact Hst|].
  split; [vm_compute; reflexivity|].
  split; [exact H1 | exact H4].
Defined.

(** A claim of exactly 80% of the insured amount is approved. *)
Lemma processClaim_ratio_boundary_witness :
  exists s' ev,
    processClaim (by_ insurerAddr now) (claimId1 (8 * ether))
                 (submitted1 (8 * ether)) = Ok (true, s', ev)
    /\ Claim.status (claim_at s' (claimId1 (8 * ether))) = Approved.
Proof.
  destruct (processClaim_ratio_boundary (submitted1 (8 * ether))
              (by_ insurerAddr now) (claimId1 (8 * ether)))
    as (Hyes & _).
  - apply submitted1_reachable. reflexivity.
  - vm_compute. intros E. discriminate E.
  - vm_compute. reflexivity.
  - vm_compute. reflexivity.
  - vm_compute. intros E. discriminate E.
  - vm_compute. intros E. discriminate E.
  - apply Hyes. vm_compute. intros E. discriminate E.
Defined.

(** C2, counterexample: on the 10 ether policy the amount one unit above
    [floor(insuredAmount * 0.80)], 8 ether and 1 wei, has ratio
    [floor(800000000000000000100 / 10^19) = 80] and is approved, not
    rejected. *)
Lemma processClaim_ratio_boundary_counterexample :
  reachable (submitted1 (8 * ether + 1))
  /\ Spec.isPolicyValid now (policy_at (submitted1 (8 * ether + 1)) policyId1)
     = true
  /\ Claim.policyId (claim_at (submitted1 (8 * ether + 1))
                              (claimId1 (8 * ether + 1))) = policyId1
  /\ Policy.insuredAmount (policy_at (submitted1 (8 * ether + 1)) policyId1)
     = 10 * ether
  /\ Claim.claimAmount (claim_at (submitted1 (8 * ether + 1))
                                 (claimId1 (8 * ether + 1)))
     = (10 * ether) * 80 / 100 + 1
  /\ Claim.status (claim_at (submitted1 (8 * ether + 1))
                            (claimId1 (8 * ether + 1))) = Pending
  /\ exists s' ev,
       processClaim (by_ insurerAddr now) (claimId1 (8 * ether + 1))
                    (submitted1 (8 * ether + 1)) = Ok (true, s', ev)
       /\ Claim.status (claim_at s' (claimId1 (8 * ether + 1))) = Approved
       /\ Claim.rejectionReason (claim_at s' (claimId1 (8 * ether + 1))) = "".
Proof.
  split; [apply submitted1_reachable; reflexivity|].
  repeat (split; [vm_compute; reflexivity|]).
  eexists _, _. split; [vm_compute; reflexivity|].
  split; vm_compute; reflexivity.
Qed.

(** The 6 ether claim on the 5 ether policy is rejected for its amount. *)
Lemma processClaim_rejection_reason_witness :
  exists s' ev,
    processClaim (by_ insurerAddr now) claimId2 submitted2 = Ok (false, s', ev)
    /\ Claim.status (claim_at s' claimId2) = Rejected
    /\ Claim.rejectionReason (claim_at s' claimId2)
       = "Claim amount exceeds insured amount".
Proof.
  destruct (processClaim_rejection_reason submitted2 (by_ insurerAddr now)
              claimId2) as (_ & H).
  apply H.
  - apply submitted2_reachable.
  - vm_compute. intros E. discriminate E.
  - vm_compute. reflexivity.
  - vm_compute. reflexivity.
  - vm_compute. reflexivity.
  - vm_compute. intros E. discriminate E.
Defined.

(** C3, counterexample: in the design document's scenario (5 ether insured,
    6 ether claimed) the recorded reason is not the text
    ["claim amount exceeds insured amount"]: the contract's text begins with
    a capital letter. *)
Lemma processClaim_rejection_reason_counterexample :
  exists s' ev,
    processClaim (by_ insurerAddr now) claimId2 submitted2 = Ok (false, s', ev)
    /\ Claim.status (claim_at s' claimId2) = Rejected
    /\ Claim.rejectionReason (claim_at s' claimId2)
       <> "claim amount exceeds insured amount".
Proof.
  eexists _, _. split; [vm_compute; reflexivity|].
  split; [vm_compute; reflexivity|].
  vm_compute. intros E. discriminate E.
Qed.

End ScenarioFacts.

(** ** A decided claim stays decided *)

Section TerminalFacts.
Import PolicyClaim Runs.

Lemma processClaim_processed s env id :
  Claim.claimId (claim_at s id) <> 0 ->
  Claim.status (claim_at s id) <> Pending ->
  processClaim env id s = Revert "Claim already processed".
Proof.
  intros Hex Hst. rewrite processClaim_eq. cbv zeta.
  apply Z.eqb_neq in Hex. rewrite Hex.
  destruct (ClaimStatus_eqb (Claim.status (claim_at s id)) Pending) eqn:E.
  - apply ClaimStatus_eqb_eq in E. contradiction.
  - reflexivity.
Qed.

Lemma apply_revert etx s reason :
  call (fst etx) (snd etx) s = Revert reason -> apply etx s = s.
Proof. unfold apply. intros ->. reflexivity. Qed.

Lemma apply_keeps_decided id etx s :
  Claim.claimId (claim_at s id) <> 0 ->
  Claim.status (claim_at s id) <> Pending ->
  submits id etx s = false ->
  claim_at (apply etx s) id = claim_at s id.
Proof.
  intros Hex Hst Hsub. destruct etx as [env tx]. unfold apply; simpl.
  destruct (call env tx s) as [[[r s'] ev]|?|?] eqn:E; try reflexivity.
  apply call_Ok_cases in E.
  destruct tx as [h a p sd ed ph|pid a d|cid|pid].
  - destruct E as (id0 & E & _).
    apply registerPolicy_Ok in E as (_ & _ & _ & _ & _ & _ & _ & _ & -> & _).
    reflexivity.
  - destruct E as (id0 & E & _).
    apply submitClaim_Ok in E as (_ & _ & _ & _ & _ & _ & Hid & -> & _).
    unfold submits in Hsub; simpl in Hsub. rewrite <- Hid in Hsub.
    apply Z.eqb_neq in Hsub.
    unfold claim_at; simpl. rewrite lookup_insert_ne by assumption.
    reflexivity.
  - destruct E as (b & E & _).
    apply processClaim_Ok in E as (_ & Hp & _ & _ & _ & ->).
    destruct (decide (cid = id)) as [->|Hne]; [contradiction|].
    apply claim_at_set_claim_ne. assumption.
  - destruct E as (E & _).
    apply deactivatePolicy_Ok in E as (_ & ->). reflexivity.
Qed.

Lemma run_keeps_decided id txs s :
  Claim.claimId (claim_at s id) <> 0 ->
  Claim.status (claim_at s id) <> Pending ->
  never_submits id txs s = true ->
  claim_at (run txs s) id = claim_at s id.
Proof.
  revert s. induction txs as [|etx txs IH]; intros s Hex Hst Hns.
  - reflexivity.
  - simpl in Hns. apply andb_true_iff in Hns as [H1 H2].
    apply negb_true_iff in H1.
    change (run (etx :: txs) s) with (run txs (apply etx s)).
    pose proof (apply_keeps_decided id etx s Hex Hst H1) as Hkeep.
    rewrite IH; [exact Hkeep| | |exact H2]; rewrite Hkeep; assumption.
Qed.

(** C4. A claim's status leaves [Pending] at most once.  After a successful
    [processClaim] the status is [Approved] or [Rejected]; a second
    [processClaim] call on that claim fails with "Claim already processed"
    and leaves the storage, hence the status, the rejection reason and
    every other field, as it was; and the same holds after any further run
    of transactions in which no submission derives the same identifier
    again: the claim record is unchanged and processing it fails. *)
Theorem processClaim_at_most_once s env id b s1 ev :
  processClaim env id s = Ok (b, s1, ev) ->
  Claim.status (claim_at s1 id) = (if b then Approved else Rejected)
  /\ (forall env',
        processClaim env' id s1 = Revert "Claim already processed"
        /\ apply (env', ProcessClaim id) s1 = s1)
  /\ (forall txs env',
        never_submits id txs s1 = true ->
        claim_at (run txs s1) id = claim_at s1 id
        /\ processClaim env' id (run txs s1) = Revert "Claim already processed"
        /\ apply (env', ProcessClaim id) (run txs s1) = run txs s1).
Proof.
  intros Hok.
  apply processClaim_Ok in Hok as (Hex & _ & _ & _ & -> & ->).
  set (s1 := set_claim id
               (Spec.decided (block_timestamp env) (claim_at s id)
                  (policy_at s (Claim.policyId (claim_at s id)))) s).
  assert (Hst : Claim.status (claim_at s1 id)
                = if Spec.approved (block_timestamp env) (claim_at s id)
                       (policy_at s (Claim.policyId (claim_at s id)))
                  then Approved else Rejected)
    by (unfold s1; rewrite claim_at_set_claim; apply decided_status).
  assert (Hex1 : Claim.claimId (claim_at s1 id) <> 0).
  { unfold s1. rewrite claim_at_set_claim. unfold Spec.decided.
    destruct (Spec.approved _ _ _); exact Hex. }
  assert (Hterm : Claim.status (claim_at s1 id) <> Pending).
  { rewrite Hst. destruct (Spec.approved _ _ _); discriminate. }
  assert (Hafter : forall txs env',
             never_submits id txs s1 = true ->
             claim_at (run txs s1) id = claim_at s1 id
             /\ processClaim env' id (run txs s1)
                = Revert "Claim already processed"
             /\ apply (env', ProcessClaim id) (run txs s1) = run txs s1).
  { intros txs env' Hns.
    pose proof (run_keeps_decided id txs s1 Hex1 Hterm Hns) as Hkeep.
    assert (Hrev : processClaim env' id (run txs s1)
                   = Revert "Claim already processed")
      by (apply processClaim_processed; rewrite Hkeep; assumption).
    repeat split; try assumption.
    apply (apply_revert (env', ProcessClaim id) _ "Claim already processed").
    simpl. unfold bind. rewrite Hrev. reflexivity. }
  split; [exact Hst|]. split; [|exact Hafter].
  intros env'. destruct (Hafter [] env' eq_refl) as (_ & H1 & H2).
  split; [exact H1 | exact H2].
Qed.

End TerminalFacts.

(** ** Identifier derivation *)

Section IdentifierFacts.
Import PolicyClaim Runs.


(** C6 (as amended). The packed encoding has no type tags and no length
    fields; the identifier preimages are nevertheless unambiguous for the
    two tuples the contract derives identifiers from: every field but the
    claim description has a fixed width, so distinct (in-range) policy
    tuples have distinct preimages, distinct claim tuples have distinct
    preimages, and exchanging two different fields changes the preimage. *)
Theorem identifier_preimages_injective :
  (forall h a p sd ed t n h' a' p' sd' ed' t' n',
      is_address h = true -> is_address h' = true ->
      is_uint256 a = true -> is_uint256 a' = true ->
      is_uint256 p = true -> is_uint256 p' = true ->
      is_uint256 sd = true -> is_uint256 sd' = true ->
      is_uint256 ed = true -> is_uint256 ed' = true ->
      is_uint256 t = true -> is_uint256 t' = true ->
      is_uint256 n = true -> is_uint256 n' = true ->
      (h, a, p, sd, ed, t, n) <> (h', a', p', sd', ed', t', n') ->
      policy_preimage h a p sd ed t n
      <> policy_preimage h' a' p' sd' ed' t' n')
  /\ (forall pid snd a d t n pid' snd' a' d' t' n',
      is_uint256 pid = true -> is_uint256 pid' = true ->
      is_address snd = true -> is_address snd' = true ->
      is_uint256 a = true -> is_uint256 a' = true ->
      is_uint256 t = true -> is_uint256 t' = true ->
      is_uint256 n = true -> is_uint256 n' = true ->
      (pid, snd, a, d, t, n) <> (pid', snd', a', d', t', n') ->
      claim_preimage pid snd a d t n
      <> claim_preimage pid' snd' a' d' t' n')
  /\ (forall h a p sd ed t n,
      is_address h = true -> is_uint256 a = true -> is_uint256 p = true ->
      is_uint256 sd = true -> is_uint256 ed = true ->
      is_uint256 t = true -> is_uint256 n = true ->
      a <> p ->
      policy_preimage h a p sd ed t n <> policy_preimage h p a sd ed t n).
Proof.
  split; [|split].
  - intros h a p sd ed t n h' a' p' sd' ed' t' n'
      Hh Hh' Ha Ha' Hp Hp' Hsd Hsd' Hed Hed' Ht Ht' Hn Hn' Hne E.
    apply Hne. apply policy_preimage_inj; assumption.
  - intros pid snd a d t n pid' snd' a' d' t' n'
      Hpid Hpid' Hs Hs' Ha Ha' Ht Ht' Hn Hn' Hne E.
    apply Hne. apply claim_preimage_inj; assumption.
  - intros h a p sd ed t n Hh Ha Hp Hsd Hed Ht Hn Hne E.
    apply policy_preimage_inj in E; try assumption.
    injection E as E _. contradiction.
Qed.

End IdentifierFacts.

(** ** More registrations than identifiers *)

Section CountingFacts.
Import PolicyClaim Runs Scenario.







End CountingFacts.

Section CollisionFacts.
Import PolicyClaim Runs Scenario Counting.







End CollisionFacts.

(** ** Submission before the start date *)

Section SubmitFacts.
Import PolicyClaim Runs.

(** C7 (as amended). For an existing, active policy, a [submitClaim] call
    by the policy holder with a positive amount made before the policy's
    [startDate] fails with "Policy has not started yet"; the failure is
    atomic: the storage after the transaction is the storage before it, so
    no claim record is created and [totalClaims] is unchanged. *)
Theorem submitClaim_before_start s env pid a d :
  Policy.policyId (policy_at s pid) <> 0 ->
  Policy.isActive (policy_at s pid) = true ->
  msg_sender env = Policy.policyHolder (policy_at s pid) ->
  0 < a ->
  block_timestamp env < Policy.startDate (policy_at s pid) ->
  submitClaim env pid a d s = Revert "Policy has not started yet"
  /\ apply (env, SubmitClaim pid a d) s = s
  /\ claims (apply (env, SubmitClaim pid a d) s) = claims s
  /\ totalClaims (apply (env, SubmitClaim pid a d) s) = totalClaims s.
Proof.
  intros Hex Hact Hsender Ha Hearly.
  assert (H : submitClaim env pid a d s = Revert "Policy has not started yet").
  { rewrite submitClaim_eq. cbv zeta.
    apply Z.eqb_neq in Hex. rewrite Hex, Hact. simpl.
    apply Z.eqb_eq in Hsender. rewrite Hsender. simpl.
    apply Z.ltb_lt in Ha. rewrite Ha. simpl.
    apply Z.leb_gt in Hearly. rewrite Hearly. reflexivity. }
  assert (Hs : apply (env, SubmitClaim pid a d) s = s).
  { apply (apply_revert _ _ "Policy has not started yet").
    simpl. unfold bind. rewrite H. reflexivity. }
  rewrite Hs. repeat split; assumption.
Qed.

End SubmitFacts.

(** ** Statistics *)

Section StatsFacts.
Import PolicyClaim Runs.

Lemma apply_counts etx s :
  totalPolicies (apply etx s)
  = totalPolicies s + (if is_register (snd etx) && succeeds etx s then 1 else 0)
  /\ totalClaims (apply etx s)
     = totalClaims s + (if is_submit (snd etx) && succeeds etx s then 1 else 0).
Proof.
  destruct etx as [env tx]. unfold apply, succeeds; simpl.
  destruct (call env tx s) as [[[r s'] ev]|?|?] eqn:E;
    rewrite ?andb_false_r; try (split; lia).
  rewrite !andb_true_r.
  apply call_Ok_cases in E.
  destruct tx as [h a p sd ed ph|pid a d|cid|pid]; simpl.
  - destruct E as (id & E & _).
    apply registerPolicy_Ok in E as (_ & _ & _ & _ & _ & _ & _ & _ & -> & _).
    simpl. split; lia.
  - destruct E as (id & E & _).
    apply submitClaim_Ok in E as (_ & _ & _ & _ & _ & _ & _ & -> & _).
    simpl. split; lia.
  - destruct E as (b & E & _).
    apply processClaim_Ok in E as (_ & _ & _ & _ & _ & ->). simpl. split; lia.
  - destruct E as (E & _).
    apply deactivatePolicy_Ok in E as (_ & ->). simpl. split; lia.
Qed.

Lemma run_counts txs s :
  totalPolicies (run txs s) = totalPolicies s + successes is_register txs s
  /\ totalClaims (run txs s) = totalClaims s + successes is_submit txs s.
Proof.
  revert s. induction txs as [|etx txs IH]; intros s.
  - simpl. split; lia.
  - change (run (etx :: txs) s) with (run txs (apply etx s)).
    destruct (IH (apply etx s)) as [IH1 IH2].
    destruct (apply_counts etx s) as [H1 H2].
    simpl. split; lia.
Qed.

End StatsFacts.

Section ScenarioFacts2.
Import PolicyClaim Runs Scenario.

(** C10. [getContractStats] returns [(totalPolicies, totalClaims, 0)] in
    every state: the first two components are the numbers of successful
    registrations and submissions since deployment, the third is the
    constant 0 whatever the number of active policies (2 after the two
    registrations of the workflow). *)
Theorem getContractStats_active_zero :
  (forall s, getContractStats s = (totalPolicies s, totalClaims s, 0))
  /\ (forall env txs,
        getContractStats (run txs (constructor env))
        = (successes is_register txs (constructor env),
           successes is_submit txs (constructor env), 0))
  /\ (reachable registered
      /\ active_policies registered = 2%nat
      /\ getContractStats registered = (2, 0, 0)).
Proof.
  split; [|split].
  - intros s. reflexivity.
  - intros env txs. unfold getContractStats.
    destruct (run_counts txs (constructor env)) as [-> ->]. reflexivity.
  - split; [apply registered_reachable|].
    split; vm_compute; reflexivity.
Qed.

(** The workflow's rejected claim stays rejected, whatever follows. *)
Lemma processClaim_at_most_once_witness :
  Claim.status (claim_at decided2 claimId2) = Rejected
  /\ claim_at (run aftermath decided2) claimId2 = claim_at decided2 claimId2
  /\ processClaim (by_ policyHolder1 (now + 3 * days)) claimId2
                  (run aftermath decided2)
     = Revert "Claim already processed".
Proof.
  assert (Hok : exists ev,
             processClaim (by_ insurerAddr now) claimId2 submitted2
             = Ok (false, decided2, ev))
    by (eexists; vm_compute; reflexivity).
  destruct Hok as (ev & Hok).
  destruct (processClaim_at_most_once submitted2 (by_ insurerAddr now)
              claimId2 false decided2 ev Hok)
    as (H1 & _ & Hafter).
  destruct (Hafter aftermath (by_ policyHolder1 (now + 3 * days)))
    as (H2 & H3 & _).
  - vm_compute. reflexivity.
  - split; [exact H1|]. split; [exact H2 | exact H3].
Defined.


(** The holder submits thirty days before the policy starts. *)
Lemma submitClaim_before_start_witness :
  submitClaim (by_ policyHolder1 now) policyIdLater (3 * ether) "Too early"
              registeredLater
  = Revert "Policy has not started yet"
  /\ totalClaims (apply (by_ policyHolder1 now,
                         SubmitClaim policyIdLater (3 * ether) "Too early")
                        registeredLater) = 0.
Proof.
  destruct (submitClaim_before_start registeredLater (by_ policyHolder1 now)
              policyIdLater (3 * ether) "Too early")
    as (H1 & _ & _ & H2).
  - vm_compute. intros E. discriminate E.
  - vm_compute. reflexivity.
  - vm_compute. reflexivity.
  - reflexivity.
  - vm_compute. reflexivity.
  - split; [exact H1|]. rewrite H2. vm_compute. reflexivity.
Defined.

(** C7, counterexample: the policy is active and has not started, but the
    caller is not its holder; the call fails with the holder check's reason,
    which comes first, not with "Policy has not started yet".  Likewise the
    holder's call with amount 0 fails with the amount check's reason. *)
Lemma submitClaim_before_start_counterexample :
  reachable registeredLater
  /\ Policy.policyId (policy_at registeredLater policyIdLater) <> 0
  /\ Policy.isActive (policy_at registeredLater policyIdLater) = true
  /\ now < Policy.startDate (policy_at registeredLater policyIdLater)
  /\ submitClaim (by_ policyHolder2 now) policyIdLater (3 * ether) "Too early"
                 registeredLater
     = Revert "Only policy holder can submit claims"
  /\ submitClaim (by_ policyHolder2 now) policyIdLater (3 * ether) "Too early"
                 registeredLater
     <> Revert "Policy has not started yet"
  /\ submitClaim (by_ policyHolder1 now) policyIdLater 0 "Too early"
                 registeredLater
     = Revert "Claim amount must be greater than 0".
Proof.
  assert (H : submitClaim (by_ policyHolder2 now) policyIdLater (3 * ether)
                "Too early" registeredLater
              = Revert "Only policy holder can submit claims")
    by (vm_compute; reflexivity).
  split; [apply registeredLater_reachable|].
  split; [vm_compute; intros E; discriminate E|].
  split; [vm_compute; reflexivity|].
  split; [vm_compute; reflexivity|].
  split; [exact H|].
  split; [rewrite H; intros E; discriminate E|].
  vm_compute. reflexivity.
Qed.

(** C6, counterexample: the packed encoding concatenates strings without
    framing, so the two distinct tuples [("ab", "c")] and [("a", "bc")] have
    the same preimage (and the same digest); and for want of type tags the
    preimage of the first policy's identifier is also the preimage of a
    claim identifier, for a claim tuple with a 64-byte description. *)
Lemma encodePacked_counterexample :
  [Abi.Str "ab"; Abi.Str "c"] <> [Abi.Str "a"; Abi.Str "bc"]
  /\ Abi.encodePacked [Abi.Str "ab"; Abi.Str "c"]
     = Abi.encodePacked [Abi.Str "a"; Abi.Str "bc"]
  /\ keccak256 (Abi.encodePacked [Abi.Str "ab"; Abi.Str "c"])
     = keccak256 (Abi.encodePacked [Abi.Str "a"; Abi.Str "bc"])
  /\ claim_preimage overlay_policyId overlay_sender ether
                    overlay_description now 0
     = policy_preimage policyHolder1 (10 * ether) ether now
                       (now + 365 * days) now 0
  /\ is_uint256 overlay_policyId = true
  /\ is_address overlay_sender = true.
Proof.
  split; [intros E; discriminate E|].
  split; [reflexivity|].
  split; [reflexivity|].
  split; [vm_compute; reflexivity|].
  split; reflexivity.
Qed.

(** Two registrations that differ in the counter only, and the first one
    with insured amount and premium exchanged. *)
Lemma identifier_preimages_injective_witness :
  policy_preimage policyHolder1 (10 * ether) ether now (now + 365 * days) now 0
  <> policy_preimage policyHolder1 (10 * ether) ether now (now + 365 * days)
       now 1
  /\ policy_preimage policyHolder1 (10 * ether) ether now (now + 365 * days)
       now 0
     <> policy_preimage policyHolder1 ether (10 * ether) now
          (now + 365 * days) now 0.
Proof.
  destruct identifier_preimages_injective as (Hp & _ & Hswap).
  split.
  - apply Hp; try reflexivity.
    intros E. apply (f_equal snd) in E. discriminate E.
  - apply Hswap; try reflexivity.
    vm_compute. intros E. discriminate E.
Defined.

End ScenarioFacts2.

(** ** The Fabric ledger: writes are last-writer-wins *)

Section FabricFacts.
Import Fabric.
Context {number : Type} {number_eq_dec : EqDecision number}.
Variable parseFloat : string -> number.
Variable numberToString : number -> string.

Implicit Types (k : jsval number) (v : record number)
  (m ledger : list (jsval number * record number))
  (o data : gmap string (jsval number)).

Lemma map_get_set_eq k v m : map_get k (map_set k v m) = Some v.
Proof.
  induction m as [|[k' v'] m IH]; simpl.
  - rewrite decide_True by reflexivity. reflexivity.
  - destruct (decide (k = k')) as [->|Hne]; simpl.
    + rewrite decide_True by reflexivity. reflexivity.
    + rewrite decide_False by assumption. exact IH.
Qed.

Lemma map_get_set_ne k k' v m :
  k <> k' -> map_get k' (map_set k v m) = map_get k' m.
Proof.
  intros Hne. induction m as [|[k0 v0] m IH]; simpl.
  - rewrite decide_False by congruence. reflexivity.
  - destruct (decide (k = k0)) as [->|Hne0]; simpl.
    + rewrite !decide_False by congruence. reflexivity.
    + destruct (decide (k' = k0)); [reflexivity|exact IH].
Qed.

Lemma map_size_set k v m :
  map_size (map_set k v m)
  = match map_get k m with
    | Some _ => map_size m
    | None => S (map_size m)
    end.
Proof.
  unfold map_size. induction m as [|[k' v'] m IH]; simpl; [reflexivity|].
  destruct (decide (k = k')); simpl; [reflexivity|].
  rewrite IH. destruct (map_get k m); reflexivity.
Qed.

(** Writing a key twice is writing it once, with the later value. *)
Lemma map_set_set k v v' m : map_set k v' (map_set k v m) = map_set k v' m.
Proof.
  induction m as [|[k' v0] m IH]; simpl.
  - rewrite decide_True by reflexivity. reflexivity.
  - destruct (decide (k = k')) as [->|Hne]; simpl.
    + rewrite decide_True by reflexivity. reflexivity.
    + rewrite decide_False by assumption. rewrite IH. reflexivity.
Qed.

Lemma prop_insert_eq o f (x : jsval number) : prop (<[f := x]> o) f = x.
Proof. unfold prop. rewrite lookup_insert_eq. reflexivity. Qed.

Lemma prop_insert_ne o f f' (x : jsval number) :
  f <> f' -> prop (<[f := x]> o) f' = prop o f'.
Proof. intros H. unfold prop. rewrite lookup_insert_ne by exact H. reflexivity. Qed.

(** C8 (as amended). [createPatientRecord] and [createClaimRequest] are
    insert-or-replace keyed by the record id, and every write, whether the
    id is new or already present, stamps [createdAt] and [updatedAt] afresh
    from the clock: after a put, the stored record carries that put's
    [createdAt], so a second put for an id already present does not keep the
    original one.  Other keys are untouched; the size grows only for a new
    id. *)
Theorem put_restamps t1 t2 data ledger :
  (let key := prop data "patientId" in
   let after := snd (createPatientRecord t1 t2 data ledger) in
   map_get key after = Some (fst (createPatientRecord t1 t2 data ledger))
   /\ id (fst (createPatientRecord t1 t2 data ledger)) = key
   /\ prop (Fabric.data (fst (createPatientRecord t1 t2 data ledger)))
           "createdAt" = JString (Js.toISOString t1)
   /\ prop (Fabric.data (fst (createPatientRecord t1 t2 data ledger)))
           "updatedAt" = JString (Js.toISOString t2)
   /\ (forall k, key <> k -> map_get k after = map_get k ledger)
   /\ map_size after = match map_get key ledger with
                       | Some _ => map_size ledger
                       | None => S (map_size ledger)
                       end
   /\ (forall t3 t4,
         createPatientRecord t3 t4 data after
         = createPatientRecord t3 t4 data ledger))
  /\ (let key := prop data "claimId" in
      let after := snd (createClaimRequest t1 t2 data ledger) in
      map_get key after = Some (fst (createClaimRequest t1 t2 data ledger))
      /\ id (fst (createClaimRequest t1 t2 data ledger)) = key
      /\ prop (Fabric.data (fst (createClaimRequest t1 t2 data ledger)))
              "createdAt" = JString (Js.toISOString t1)
      /\ prop (Fabric.data (fst (createClaimRequest t1 t2 data ledger)))
              "updatedAt" = JString (Js.toISOString t2)
      /\ (forall k, key <> k -> map_get k after = map_get k ledger)
      /\ map_size after = match map_get key ledger with
                          | Some _ => map_size ledger
                          | None => S (map_size ledger)
                          end
      /\ (forall t3 t4,
            createClaimRequest t3 t4 data after
            = createClaimRequest t3 t4 data ledger)).
Proof.
  split; cbv zeta; unfold createPatientRecord, createClaimRequest; simpl.
  - split; [apply map_get_set_eq|]. split; [reflexivity|].
    split; [rewrite prop_insert_ne by discriminate; apply prop_insert_eq|].
    split; [apply prop_insert_eq|].
    split; [intros k Hne; apply map_get_set_ne; exact Hne|].
    split; [apply map_size_set|].
    intros t3 t4. rewrite map_set_set. reflexivity.
  - split; [apply map_get_set_eq|]. split; [reflexivity|].
    split; [rewrite prop_insert_ne by discriminate; apply prop_insert_eq|].
    split; [apply prop_insert_eq|].
    split; [intros k Hne; apply map_get_set_ne; exact Hne|].
    split; [apply map_size_set|].
    intros t3 t4. rewrite map_set_set. reflexivity.
Qed.

Lemma invokeChaincode_verify t1 t2 args ledger :
  invokeChaincode parseFloat numberToString t1 t2
                  "VerifyPolicyWithEthereum" args ledger
  = inr (verifyPolicyWithEthereum numberToString t1
           (object [ ("policyId", arg args 0);
                     ("patientId", arg args 1);
                     ("isValid",
                      JBool (bool_decide (arg args 2 = JString "true")));
                     ("coverageAmount",
                      JNumber (parseFloat (toString numberToString
                                             (arg args 3))));
                     ("expiryDate", arg args 4);
                     ("ethereumTxHash", arg args 5) ])
           ledger).
Proof.
  unfold invokeChaincode.
  rewrite !decide_False by discriminate.
  rewrite decide_True by reflexivity. reflexivity.
Qed.

Lemma syncPolicyToFabric_eq n1 n2 t policyId patientId ledger :
  syncPolicyToFabric parseFloat numberToString n1 n2 t policyId patientId
                     ledger
  = inr (mkRecord "PolicyVerification" (synced_key policyId patientId)
                  (synced_data parseFloat n1 n2 t policyId patientId),
         map_set (synced_key policyId patientId)
                 (mkRecord "PolicyVerification"
                           (synced_key policyId patientId)
                           (synced_data parseFloat n1 n2 t policyId patientId))
                 ledger).
Proof.
  unfold syncPolicyToFabric. rewrite invokeChaincode_verify.
  unfold verifyPolicyWithEthereum, sync_args, arg, object; simpl.
  rewrite ?bool_decide_eq_true_2 by reflexivity.
  unfold verification_id.
  rewrite !(prop_insert_ne _ _ "patientId") by discriminate.
  rewrite prop_insert_eq.
  rewrite !(prop_insert_ne _ _ "policyId") by discriminate.
  rewrite prop_insert_eq.
  reflexivity.
Qed.

End FabricFacts.

Section SyncFacts.
Import Fabric.
Context {number : Type} {number_eq_dec : EqDecision number}.
Variable parseFloat : string -> number.
Variable numberToString : number -> string.

Lemma map_set_set_keys (k : jsval number) (v v' : record number)
    (m : list (jsval number * record number)) :
  map fst (map_set k v' (map_set k v m)) = map fst (map_set k v m).
Proof.
  induction m as [|[k' v0] m IH]; simpl.
  - rewrite decide_True by reflexivity. reflexivity.
  - destruct (decide (k = k')) as [->|Hne]; simpl.
    + rewrite decide_True by reflexivity. reflexivity.
    + rewrite decide_False by assumption. simpl. rewrite IH. reflexivity.
Qed.

Lemma synced_data_fields n1 n2 t policyId patientId :
  synced_data parseFloat n1 n2 t policyId patientId !! "policyId"
  = Some (JString policyId)
  /\ synced_data parseFloat n1 n2 t policyId patientId !! "patientId"
     = Some (JString patientId)
  /\ synced_data parseFloat n1 n2 t policyId patientId !! "isValid"
     = Some (JBool true)
  /\ synced_data parseFloat n1 n2 t policyId patientId !! "coverageAmount"
     = Some (JNumber (parseFloat "10000"))
  /\ synced_data parseFloat n1 n2 t policyId patientId !! "expiryDate"
     = Some (JString (Js.toISOString (n1 + 365 * 24 * 60 * 60 * 1000)))
  /\ synced_data parseFloat n1 n2 t policyId patientId !! "ethereumTxHash"
     = Some (JString ("ETH_TX_" ++ Js.decimal n2)%string)
  /\ synced_data parseFloat n1 n2 t policyId patientId !! "verifiedAt"
     = Some (JString (Js.toISOString t))
  /\ synced_data parseFloat n1 n2 t policyId patientId !! "updatedAt" = None.
Proof.
  unfold synced_data, object. cbn [fold_left fst snd].
  repeat split;
    repeat first
      [ rewrite lookup_insert_eq; reflexivity
      | rewrite lookup_insert_ne by discriminate
      | apply lookup_empty ].
Qed.

(** C9 (as amended). Applying the policy synchronisation a second time
    leaves the mirror as a single application made with the second call's
    clock readings would: the record keeps its id
    ["VERIFICATION_" + policyId + "_" + patientId], no record is added and
    no other record changes, and the fields [policyId], [patientId],
    [isValid] and [coverageAmount] agree between the two runs; the fields
    [expiryDate], [ethereumTxHash] and [verifiedAt] carry the later call's
    clock readings (the record has no [updatedAt]), so the two ledgers are
    equal when these readings coincide. *)
Theorem syncPolicyToFabric_last_writer_wins
    n1 n2 t n1' n2' t' policyId patientId
    (ledger : list (jsval number * record number)) :
  let sync := fun a b c l =>
    ledger_after (syncPolicyToFabric parseFloat numberToString a b c
                                     policyId patientId l) l in
  let once := sync n1 n2 t ledger in
  let twice := sync n1' n2' t' once in
  let key := synced_key policyId patientId in
  twice = sync n1' n2' t' ledger
  /\ map_size twice = map_size once
  /\ map fst twice = map fst once
  /\ (forall k, key <> k -> map_get k twice = map_get k once)
  /\ (exists r1 r2,
         map_get key once = Some r1 /\ map_get key twice = Some r2
         /\ id r1 = key /\ id r2 = key
         /\ type r1 = "PolicyVerification" /\ type r2 = "PolicyVerification"
         /\ (forall f, In f ["policyId"; "patientId"; "isValid";
                             "coverageAmount"] ->
                       data r1 !! f = data r2 !! f)
         /\ data r2 !! "expiryDate"
            = Some (JString (Js.toISOString (n1' + 365 * 24 * 60 * 60 * 1000)))
         /\ data r2 !! "ethereumTxHash"
            = Some (JString ("ETH_TX_" ++ Js.decimal n2')%string)
         /\ data r2 !! "verifiedAt" = Some (JString (Js.toISOString t'))
         /\ data r1 !! "updatedAt" = None /\ data r2 !! "updatedAt" = None)
  /\ (n1 = n1' -> n2 = n2' -> t = t' -> twice = once).
Proof.
  cbv beta zeta. rewrite !syncPolicyToFabric_eq.
  cbv beta iota delta [ledger_after].
  split; [apply map_set_set|].
  split; [unfold map_size; rewrite <- !(length_map fst), map_set_set_keys;
          reflexivity|].
  split; [apply map_set_set_keys|].
  split; [intros k Hne; rewrite !map_get_set_ne by exact Hne; reflexivity|].
  split.
  - eexists _, _.
    split; [apply map_get_set_eq|]. split; [apply map_get_set_eq|].
    simpl. repeat (split; [reflexivity|]).
    destruct (synced_data_fields n1 n2 t policyId patientId)
      as (A1 & A2 & A3 & A4 & _ & _ & _ & A8).
    destruct (synced_data_fields n1' n2' t' policyId patientId)
      as (B1 & B2 & B3 & B4 & B5 & B6 & B7 & B8).
    split; [|repeat split; assumption].
    intros f [<-|[<-|[<-|[<-|[]]]]]; congruence.
  - intros <- <- <-. apply map_set_set.
Qed.

End SyncFacts.

Section FabricScenarioFacts.
Import Fabric.

(** The sample patient written again a second later. *)
Lemma put_restamps_witness :
  prop (data (fst (createPatientRecord 1000 1000 demo_patient demo_ledger)))
       "createdAt" = JString "1970-01-01T00:00:01.000Z"
  /\ map_size demo_ledger_again = map_size demo_ledger.
Proof.
  destruct (put_restamps 1000 1000 demo_patient demo_ledger)
    as ((_ & _ & H & _ & _ & Hsize & _) & _).
  split.
  - rewrite H. vm_compute. reflexivity.
  - unfold demo_ledger_again. cbv zeta in Hsize. rewrite Hsize.
    vm_compute. reflexivity.
Defined.

(** C8, counterexample: the record [PAT001] is present, created at the
    epoch; a second put one second later leaves it with the later
    [createdAt], not the original one. *)
Lemma put_restamps_counterexample :
  field_of (JString "PAT001") demo_ledger "createdAt"
  = Some (JString "1970-01-01T00:00:00.000Z")
  /\ field_of (JString "PAT001") demo_ledger_again "createdAt"
     = Some (JString "1970-01-01T00:00:01.000Z")
  /\ field_of (JString "PAT001") demo_ledger_again "createdAt"
     <> field_of (JString "PAT001") demo_ledger "createdAt".
Proof.
  split; [vm_compute; reflexivity|].
  split; [vm_compute; reflexivity|].
  vm_compute. intros E. discriminate E.
Qed.

(** The demo policy synchronised twice, a second apart. *)
Lemma syncPolicyToFabric_last_writer_wins_witness :
  synced_twice
  = demo_sync 1700000001000 1700000001000 1700000001002 demo_ledger
  /\ map_size synced_twice = map_size synced_once.
Proof.
  destruct (syncPolicyToFabric_last_writer_wins parseFloatZ Js.decimal
              1700000000000 1700000000000 1700000000002
              1700000001000 1700000001000 1700000001002
              "POLICY_DEMO_001" "PAT_DEMO_001" demo_ledger)
    as (H1 & H2 & _).
  split; [exact H1 | exact H2].
Defined.

(** C9, counterexample: applied twice, a second apart, the synchronisation
    leaves a ledger that differs from the ledger after one application in
    [verifiedAt], [expiryDate] and [ethereumTxHash], fields other than
    [updatedAt]. *)
Lemma syncPolicyToFabric_idempotence_counterexample :
  ledger_forget_updatedAt synced_twice <> ledger_forget_updatedAt synced_once
  /\ field_of demo_key synced_once "verifiedAt"
     = Some (JString "2023-11-14T22:13:20.002Z")
  /\ field_of demo_key synced_twice "verifiedAt"
     = Some (JString "2023-11-14T22:13:21.002Z")
  /\ field_of demo_key synced_once "expiryDate"
     = Some (JString "2024-11-13T22:13:20.000Z")
  /\ field_of demo_key synced_twice "expiryDate"
     = Some (JString "2024-11-13T22:13:21.000Z")
  /\ field_of demo_key synced_once "ethereumTxHash"
     = Some (JString "ETH_TX_1700000000000")
  /\ field_of demo_key synced_twice "ethereumTxHash"
     = Some (JString "ETH_TX_1700000001000").
Proof.
  split.
  - intros E.
    apply (f_equal (fun l => field_of demo_key l "verifiedAt")) in E.
    vm_compute in E. discriminate E.
  - repeat split; vm_compute; reflexivity.
Qed.

End FabricScenarioFacts.

(* ===================================================================== *)
(** * Further properties of the contract *)
(* ===================================================================== *)

Section AccessFacts.
Import PolicyClaim Runs Invariants.

Lemma step_insurer s s' : step s s' -> insurer s' = insurer s.
Proof.
  intros [env tx r ev _ _ Hcall]. apply call_Ok_cases in Hcall.
  destruct tx as [h a p sd ed ph|pid a d|cid|pid].
  - destruct Hcall as (id & Hcall & _).
    apply registerPolicy_Ok in Hcall as (_ & _ & _ & _ & _ & _ & _ & _ & -> & _).
    reflexivity.
  - destruct Hcall as (id & Hcall & _).
    apply submitClaim_Ok in Hcall as (_ & _ & _ & _ & _ & _ & _ & -> & _).
    reflexivity.
  - destruct Hcall as (b & Hcall & _).
    apply processClaim_Ok in Hcall as (_ & _ & _ & _ & _ & ->). reflexivity.
  - destruct Hcall as (Hcall & _).
    apply deactivatePolicy_Ok in Hcall as (_ & ->). reflexivity.
Qed.

Lemma steps_insurer s s' : steps s s' -> insurer s' = insurer s.
Proof.
  intros H. induction H as [|s1 s2 s3 _ IH Hstep]; [reflexivity|].
  apply step_insurer in Hstep. congruence.
Qed.

(** X1. The insurer is the deployer for ever: in every state reached from
    the deployment by any transactions, [registerPolicy] and
    [deactivatePolicy] called by anyone but the deployer revert with "Only
    insurer can perform this action", whatever the other arguments. *)
Theorem only_deployer_administers env0 s env :
  steps (constructor env0) s ->
  msg_sender env <> msg_sender env0 ->
  insurer s = msg_sender env0
  /\ (forall h a p sd ed ph,
        registerPolicy env h a p sd ed ph s
        = Revert "Only insurer can perform this action")
  /\ (forall pid,
        deactivatePolicy env pid s
        = Revert "Only insurer can perform this action").
Proof.
  intros Hsteps Hne.
  assert (Hins : insurer s = msg_sender env0)
    by (apply steps_insurer in Hsteps; exact Hsteps).
  assert (E : (msg_sender env =? insurer s) = false)
    by (apply Z.eqb_neq; congruence).
  split; [exact Hins|]. split.
  - intros h a p sd ed ph. rewrite registerPolicy_eq, E. reflexivity.
  - intros pid. rewrite deactivatePolicy_eq. cbv zeta. rewrite E. reflexivity.
Qed.

(** X2. [submitClaim] succeeds exactly when [isPolicyValidForClaims] holds
    for the policy at the time of the call, the caller is the policy's
    holder, the amount is positive and the claim counter has not reached
    [2^256 - 1]. *)
Theorem submitClaim_succeeds_iff env pid a d s :
  (exists id s' ev, submitClaim env pid a d s = Ok (id, s', ev))
  <-> (isPolicyValidForClaims env pid s = true
       /\ msg_sender env = Policy.policyHolder (policy_at s pid)
       /\ 0 < a
       /\ totalClaims s + 1 <= MAX_UINT256).
Proof.
  unfold isPolicyValidForClaims. split.
  - intros (id & s' & ev & H).
    apply submitClaim_Ok in H as (H1 & H2 & H3 & H4 & [H5 H6] & H7 & _).
    repeat split; try assumption.
    apply Z.eqb_neq in H1. apply Z.leb_le in H5. apply Z.leb_le in H6.
    rewrite H1, H2, H5, H6. reflexivity.
  - intros (Hv & Hs & Ha & Hc).
    apply andb_true_iff in Hv as [Hv H6].
    apply andb_true_iff in Hv as [Hv H5].
    apply andb_true_iff in Hv as [H1 H2].
    apply negb_true_iff in H1.
    rewrite submitClaim_eq. cbv zeta.
    rewrite H1, H2, H5, H6. simpl.
    apply Z.eqb_eq in Hs. rewrite Hs. simpl.
    apply Z.ltb_lt in Ha. rewrite Ha. simpl.
    apply Z.leb_le in Hc. rewrite Hc. simpl.
    eexists _, _, _. reflexivity.
Qed.

End AccessFacts.


Section InvariantFacts.
Import PolicyClaim Runs Invariants.

Lemma listed_push (m : gmap Z (list Z)) a id :
  listed (<[a := ids_at m a ++ [id]]> m) = listed m + 1.
Proof.
  assert (Hcomm : forall (j1 j2 : Z) (z1 z2 : list Z) (y : Z),
             Z.of_nat (length z1) + (Z.of_nat (length z2) + y)
             = Z.of_nat (length z2) + (Z.of_nat (length z1) + y))
    by (intros; lia).
  unfold listed, ids_at. destruct (m !! a) as [l|] eqn:E; simpl.
  - rewrite <- (insert_delete_eq m a (l ++ [id])).
    rewrite map_fold_insert_L;
      [|intros; apply Hcomm; assumption|apply lookup_delete_eq].
    rewrite (map_fold_delete_L _ _ a l m);
      [|intros; apply Hcomm; assumption|exact E].
    rewrite length_app. simpl. lia.
  - rewrite map_fold_insert_L;
      [|intros; apply Hcomm; assumption|exact E].
    simpl. lia.
Qed.

Lemma is_Some_insert {A} (m : gmap Z A) i j (x : A) :
  is_Some (m !! j) -> is_Some (<[i := x]> m !! j).
Proof.
  intros H. apply lookup_insert_is_Some.
  destruct (decide (i = j)); [left; assumption|right; split; assumption].
Qed.

Lemma ids_at_push (m : gmap Z (list Z)) a id u :
  ids_at (<[a := ids_at m a ++ [id]]> m) u
  = if decide (a = u) then ids_at m u ++ [id] else ids_at m u.
Proof.
  unfold ids_at at 1. destruct (decide (a = u)) as [->|Hne].
  - rewrite lookup_insert_eq. reflexivity.
  - rewrite lookup_insert_ne by assumption. reflexivity.
Qed.

Lemma decided_wf now id c p :
  claim_wf id c -> Claim.status c = Pending ->
  claim_wf id (Spec.decided now c p).
Proof.
  intros (H1 & H2 & H3 & H4) Hp.
  assert (Hr : Claim.rejectionReason c = "") by (apply H4; congruence).
  unfold Spec.decided, claim_wf.
  destruct (Spec.approved now c p); simpl.
  - repeat split; try assumption; [discriminate|intros _; exact Hr].
  - repeat split; try assumption; [|congruence].
    intros _. unfold Spec.first_failing_reason, rejection_texts.
    destruct (negb (Spec.isPolicyValid now p)); [simpl; tauto|].
    destruct (negb (Spec.isAmountValid c p)); simpl; tauto.
Qed.

Lemma state_wf_constructor env : state_wf (constructor env).
Proof.
  unfold state_wf, constructor, ids_at; simpl.
  split; [|split; [|split]].
  - intros id p H. rewrite lookup_empty in H. discriminate.
  - intros id c H. rewrite lookup_empty in H. discriminate.
  - intros u id H. rewrite lookup_empty in H. destruct H.
  - intros u id H. rewrite lookup_empty in H. destruct H.
Qed.

Lemma state_wf_step s s' : state_wf s -> step s s' -> state_wf s'.
Proof.
  intros (Hpol & Hcl & Hup & Huc) [env tx r ev _ _ Hcall].
  apply call_Ok_cases in Hcall.
  destruct tx as [h a p sd ed ph|pid a d|cid|pid].
  - destruct Hcall as (id & Hcall & _).
    apply registerPolicy_Ok in Hcall
      as (_ & Hh & Ha & Hp & Hd & _ & _ & _ & -> & _).
    unfold state_wf; simpl. repeat split.
    + destruct (decide (id = id0)) as [->|Hne].
      * rewrite lookup_insert_eq in H. injection H as <-. reflexivity.
      * rewrite lookup_insert_ne in H by assumption. apply (Hpol _ _ H).
    + destruct (decide (id = id0)) as [->|Hne].
      * rewrite lookup_insert_eq in H. injection H as <-. exact Hh.
      * rewrite lookup_insert_ne in H by assumption. apply (Hpol _ _ H).
    + destruct (decide (id = id0)) as [->|Hne].
      * rewrite lookup_insert_eq in H. injection H as <-. exact Ha.
      * rewrite lookup_insert_ne in H by assumption. apply (Hpol _ _ H).
    + destruct (decide (id = id0)) as [->|Hne].
      * rewrite lookup_insert_eq in H. injection H as <-. exact Hp.
      * rewrite lookup_insert_ne in H by assumption. apply (Hpol _ _ H).
    + destruct (decide (id = id0)) as [->|Hne].
      * rewrite lookup_insert_eq in H. injection H as <-. exact Hd.
      * rewrite lookup_insert_ne in H by assumption. apply (Hpol _ _ H).
    + apply (Hcl _ _ H).
    + apply (Hcl _ _ H).
    + apply (Hcl _ _ H).
    + apply (Hcl _ _ H).
    + apply (Hcl _ _ H).
    + apply is_Some_insert. apply (Hcl _ _ H).
    + intros u id0 Hin. rewrite ids_at_push in Hin.
      destruct (decide (h = u)) as [->|Hne].
      * apply in_app_or in Hin as [Hin|[<-|[]]].
        -- apply is_Some_insert. apply (Hup _ _ Hin).
        -- rewrite lookup_insert_eq. eauto.
      * apply is_Some_insert. apply (Hup _ _ Hin).
    + intros u id0 Hin. apply (Huc _ _ Hin).
  - destruct Hcall as (id & Hcall & _).
    apply submitClaim_Ok in Hcall
      as (Hex & _ & _ & Ha & _ & _ & _ & -> & _).
    pose proof Hex as Hnz. apply policy_at_written in Hex.
    destruct (Hpol _ _ Hex) as (Hkey & _). rewrite Hkey in Hnz.
    unfold state_wf; simpl. split; [exact Hpol|]. split; [|split; [exact Hup|]].
    + intros id0 c H. destruct (decide (id = id0)) as [->|Hne].
      * rewrite lookup_insert_eq in H. injection H as <-. simpl.
        split; [|split; [exact Hnz|rewrite Hex; eauto]].
        unfold claim_wf; simpl. repeat split; try assumption.
        discriminate.
      * rewrite lookup_insert_ne in H by assumption. apply (Hcl _ _ H).
    + intros u id0 Hin. rewrite ids_at_push in Hin.
      destruct (decide (msg_sender env = u)) as [->|Hne].
      * apply in_app_or in Hin as [Hin|[<-|[]]].
        -- apply is_Some_insert. apply (Huc _ _ Hin).
        -- rewrite lookup_insert_eq. eauto.
      * apply is_Some_insert. apply (Huc _ _ Hin).
  - destruct Hcall as (b & Hcall & _).
    apply processClaim_Ok in Hcall as (Hex & Hst & _ & _ & _ & ->).
    apply claim_at_written in Hex.
    unfold state_wf; simpl. split; [exact Hpol|]. split; [|split; [exact Hup|]].
    + intros id0 c H. destruct (decide (cid = id0)) as [->|Hne].
      * rewrite lookup_insert_eq in H. injection H as <-.
        destruct (Hcl _ _ Hex) as (Hwf & Hnz & Hfk).
        rewrite decided_policyId. split; [|split; [exact Hnz|exact Hfk]].
        apply decided_wf; assumption.
      * rewrite lookup_insert_ne in H by assumption. apply (Hcl _ _ H).
    + intros u id0 Hin. apply is_Some_insert. apply (Huc _ _ Hin).
  - destruct Hcall as (Hcall & _).
    apply deactivatePolicy_Ok in Hcall as (Hex & ->).
    apply policy_at_written in Hex.
    unfold state_wf; simpl. split; [|split; [|split; [|exact Huc]]].
    + intros id0 p H. destruct (decide (pid = id0)) as [->|Hne].
      * rewrite lookup_insert_eq in H. injection H as <-.
        apply (Hpol _ _ Hex).
      * rewrite lookup_insert_ne in H by assumption. apply (Hpol _ _ H).
    + intros id0 c H. destruct (Hcl _ _ H) as (Hwf & Hnz & Hfk).
      split; [exact Hwf|]. split; [exact Hnz|].
      apply is_Some_insert. exact Hfk.
    + intros u id0 Hin. apply is_Some_insert. apply (Hup _ _ Hin).
Qed.

Lemma reachable_state_wf s : reachable s -> state_wf s.
Proof.
  intros (env & _ & Hsteps).
  remember (constructor env) as s0 eqn:E.
  induction Hsteps as [|s1 s2 s3 _ IH Hstep].
  - subst. apply state_wf_constructor.
  - eapply state_wf_step; [apply IH; assumption|exact Hstep].
Qed.

End InvariantFacts.

Section ReadFacts.
Import PolicyClaim Runs Invariants.

Lemma getPolicy_Ok id s p s' ev :
  getPolicy id s = Ok (p, s', ev) ->
  policies s !! id = Some p /\ Policy.policyId p <> 0 /\ s' = s.
Proof.
  unfold getPolicy, bind, get, require, ret. simpl.
  destruct (Policy.policyId (policy_at s id) =? 0) eqn:E; simpl; [discriminate|].
  intros [= <- <- _]. apply Z.eqb_neq in E.
  split; [apply policy_at_written; exact E|]. split; [exact E|reflexivity].
Qed.

Lemma getClaim_Ok id s c s' ev :
  getClaim id s = Ok (c, s', ev) ->
  claims s !! id = Some c /\ Claim.claimId c <> 0 /\ s' = s.
Proof.
  unfold getClaim, bind, get, require, ret. simpl.
  destruct (Claim.claimId (claim_at s id) =? 0) eqn:E; simpl; [discriminate|].
  intros [= <- <- _]. apply Z.eqb_neq in E.
  split; [apply claim_at_written; exact E|]. split; [exact E|reflexivity].
Qed.

Lemma getPolicy_stored id s p :
  policies s !! id = Some p -> Policy.policyId p <> 0 ->
  getPolicy id s = Ok (p, s, []).
Proof.
  intros H Hnz. unfold getPolicy, bind, get, require, ret, policy_at.
  rewrite H. simpl. apply Z.eqb_neq in Hnz. rewrite Hnz. reflexivity.
Qed.

(** X3. Whatever [getPolicy] returns in a reachable state is a policy as
    [registerPolicy] admits them: it carries the identifier it is stored
    under, a holder other than the zero address, a positive insured amount,
    a premium of at least [MINIMUM_PREMIUM] and a start date before its end
    date; deactivation does not disturb any of this. *)
Theorem getPolicy_well_formed s id p s' ev :
  reachable s ->
  getPolicy id s = Ok (p, s', ev) ->
  Policy.policyId p = id
  /\ Policy.policyHolder p <> 0
  /\ 0 < Policy.insuredAmount p
  /\ MINIMUM_PREMIUM <= Policy.premium p
  /\ Policy.startDate p < Policy.endDate p
  /\ s' = s.
Proof.
  intros Hr Hget. apply getPolicy_Ok in Hget as (Hst & _ & ->).
  apply reachable_state_wf in Hr as (Hpol & _).
  destruct (Hpol _ _ Hst) as (H1 & H2 & H3 & H4 & H5).
  repeat split; assumption.
Qed.

(** X4. Whatever [getClaim] returns in a reachable state carries the
    identifier it is stored under and a positive amount, refers to a policy
    that [getPolicy] returns, and has a rejection reason, one of the three
    texts of [processClaim], exactly when its status is [Rejected]: a
    [Pending] or [Approved] claim has the empty reason. *)
Theorem getClaim_well_formed s id c s' ev :
  reachable s ->
  getClaim id s = Ok (c, s', ev) ->
  Claim.claimId c = id
  /\ 0 < Claim.claimAmount c
  /\ (exists p, getPolicy (Claim.policyId c) s = Ok (p, s, []))
  /\ (Claim.status c = Rejected ->
      In (Claim.rejectionReason c) rejection_texts)
  /\ (Claim.status c <> Rejected -> Claim.rejectionReason c = "")
  /\ (Claim.rejectionReason c <> "" <-> Claim.status c = Rejected).
Proof.
  intros Hr Hget. apply getClaim_Ok in Hget as (Hst & _ & ->).
  apply reachable_state_wf in Hr as (Hpol & Hcl & _).
  destruct (Hcl _ _ Hst) as ((H1 & H2 & H3 & H4) & Hnz & [p Hp]).
  split; [exact H1|]. split; [exact H2|]. split; [|split; [exact H3|split; [exact H4|]]].
  - exists p. apply getPolicy_stored; [exact Hp|].
    destruct (Hpol _ _ Hp) as (Hk & _). congruence.
  - split.
    + intros Hne. destruct (Claim.status c) eqn:E; try reflexivity;
        exfalso; apply Hne; apply H4; discriminate.
    + intros E Hempty. specialize (H3 E). rewrite Hempty in H3.
      unfold rejection_texts in H3. simpl in H3.
      destruct H3 as [H|[H|[H|[]]]]; discriminate H.
Qed.

Lemma listed_step s s' :
  step s s' ->
  listed (userPolicies s) = totalPolicies s ->
  listed (userClaims s) = totalClaims s ->
  listed (userPolicies s') = totalPolicies s'
  /\ listed (userClaims s') = totalClaims s'.
Proof.
  intros [env tx r ev _ _ Hcall] HP HC. apply call_Ok_cases in Hcall.
  destruct tx as [h a p sd ed ph|pid a d|cid|pid].
  - destruct Hcall as (id & Hcall & _).
    apply registerPolicy_Ok in Hcall as (_ & _ & _ & _ & _ & _ & _ & _ & -> & _).
    simpl. rewrite listed_push. split; [lia|exact HC].
  - destruct Hcall as (id & Hcall & _).
    apply submitClaim_Ok in Hcall as (_ & _ & _ & _ & _ & _ & _ & -> & _).
    simpl. rewrite listed_push. split; [exact HP|lia].
  - destruct Hcall as (b & Hcall & _).
    apply processClaim_Ok in Hcall as (_ & _ & _ & _ & _ & ->).
    simpl. split; assumption.
  - destruct Hcall as (Hcall & _).
    apply deactivatePolicy_Ok in Hcall as (_ & ->). simpl. split; assumption.
Qed.

Lemma reachable_listed s :
  reachable s ->
  listed (userPolicies s) = totalPolicies s
  /\ listed (userClaims s) = totalClaims s.
Proof.
  intros (env & _ & Hsteps).
  remember (constructor env) as s0 eqn:E.
  induction Hsteps as [|s1 s2 s3 _ IH Hstep].
  - subst. unfold listed, constructor; simpl.
    rewrite map_fold_empty. split; reflexivity.
  - destruct (IH E) as [H1 H2]. apply (listed_step s2 s3); assumption.
Qed.

(** X5. In a reachable state the per-user lists account for everything: the
    lengths of all [userPolicies] lists add up to [totalPolicies] and those
    of all [userClaims] lists to [totalClaims], and every identifier that
    [getUserPolicies] or [getUserClaims] returns is the key of a stored
    policy or claim. *)
Theorem user_lists_account s u :
  reachable s ->
  listed (userPolicies s) = totalPolicies s
  /\ listed (userClaims s) = totalClaims s
  /\ (forall id, In id (getUserPolicies u s) -> is_Some (policies s !! id))
  /\ (forall id, In id (getUserClaims u s) -> is_Some (claims s !! id)).
Proof.
  intros Hr. destruct (reachable_listed s Hr) as [H1 H2].
  apply reachable_state_wf in Hr as (_ & _ & Hup & Huc).
  split; [exact H1|]. split; [exact H2|]. split.
  - intros id Hin. apply (Hup u id Hin).
  - intros id Hin. apply (Huc u id Hin).
Qed.

(** X6. Registration and submission can be read back: after a successful
    [registerPolicy] returning a non-zero identifier, [getPolicy] returns
    the policy with the fields given, active, and the identifier is the
    last of the holder's [getUserPolicies]; after a successful
    [submitClaim], [getClaim] returns the claim with the caller as
    claimant, the block time as submission date, status [Pending] and no
    reason, last in the caller's [getUserClaims]. *)
Theorem register_submit_read_back env s :
  (forall h a p sd ed ph id s' ev,
      registerPolicy env h a p sd ed ph s = Ok (id, s', ev) ->
      id <> 0 ->
      getPolicy id s' = Ok (Policy.mk id h a p sd ed true ph, s', [])
      /\ getUserPolicies h s' = getUserPolicies h s ++ [id]
      /\ (forall u, u <> h -> getUserPolicies u s' = getUserPolicies u s))
  /\ (forall pid a d id s' ev,
      submitClaim env pid a d s = Ok (id, s', ev) ->
      id <> 0 ->
      getClaim id s'
      = Ok (Claim.mk id pid (msg_sender env) a d (block_timestamp env)
                     Pending "", s', [])
      /\ getUserClaims (msg_sender env) s'
         = getUserClaims (msg_sender env) s ++ [id]
      /\ (forall u, u <> msg_sender env ->
                    getUserClaims u s' = getUserClaims u s)).
Proof.
  split.
  - intros h a p sd ed ph id s' ev H Hnz.
    apply registerPolicy_Ok in H as (_ & _ & _ & _ & _ & _ & _ & _ & -> & _).
    split; [|split].
    + apply getPolicy_stored; [|exact Hnz]. simpl. apply lookup_insert_eq.
    + unfold getUserPolicies; simpl. rewrite ids_at_push.
      rewrite decide_True by reflexivity. reflexivity.
    + intros u Hne. unfold getUserPolicies; simpl. rewrite ids_at_push.
      rewrite decide_False by congruence. reflexivity.
  - intros pid a d id s' ev H Hnz.
    apply submitClaim_Ok in H as (_ & _ & _ & _ & _ & _ & _ & -> & _).
    split; [|split].
    + unfold getClaim, bind, get, require, ret, claim_at; simpl.
      rewrite lookup_insert_eq. simpl.
      apply Z.eqb_neq in Hnz. rewrite Hnz. reflexivity.
    + unfold getUserClaims; simpl. rewrite ids_at_push.
      rewrite decide_True by reflexivity. reflexivity.
    + intros u Hne. unfold getUserClaims; simpl. rewrite ids_at_push.
      rewrite decide_False by congruence. reflexivity.
Qed.

(** X7. Reading an identifier that was never written fails: for every key
    absent from the mappings, [getPolicy] reverts with "Policy does not
    exist" and [getClaim] with "Claim does not exist"; [submitClaim] on such
    a policy reverts likewise whatever the caller and the amount, as does
    [deactivatePolicy] called by the insurer and [processClaim] called by
    anyone, and [isPolicyValidForClaims] is false. *)
Theorem unknown_ids_not_found env s id :
  (policies s !! id = None ->
     getPolicy id s = Revert "Policy does not exist"
     /\ (forall a d, submitClaim env id a d s = Revert "Policy does not exist")
     /\ (msg_sender env = insurer s ->
         deactivatePolicy env id s = Revert "Policy does not exist")
     /\ isPolicyValidForClaims env id s = false)
  /\ (claims s !! id = None ->
     getClaim id s = Revert "Claim does not exist"
     /\ processClaim env id s = Revert "Claim does not exist").
Proof.
  split.
  - intros H.
    assert (E : policy_at s id = Policy.zero)
      by (unfold policy_at; rewrite H; reflexivity).
    split; [|split; [|split]].
    + unfold getPolicy, bind, get, require, ret. rewrite E. reflexivity.
    + intros a d. rewrite submitClaim_eq. cbv zeta. rewrite E. reflexivity.
    + intros Hs. rewrite deactivatePolicy_eq. cbv zeta. rewrite E.
      apply Z.eqb_eq in Hs. rewrite Hs. reflexivity.
    + unfold isPolicyValidForClaims. rewrite E. reflexivity.
  - intros H.
    assert (E : claim_at s id = Claim.zero)
      by (unfold claim_at; rewrite H; reflexivity).
    split.
    + unfold getClaim, bind, get, require, ret. rewrite E. reflexivity.
    + rewrite processClaim_eq. cbv zeta. rewrite E. reflexivity.
Qed.

End ReadFacts.

Section DeactivationFacts.
Import PolicyClaim Runs Invariants.

(** X8. A successful [deactivatePolicy] switches [isActive] off and changes
    nothing else, in this policy or elsewhere; from then on the policy is
    closed: [submitClaim] on it reverts with "Policy is not active" for
    every caller and amount, [isPolicyValidForClaims] is false at every
    time, and deactivating it again reverts with the same reason. *)
Theorem deactivatePolicy_closes env pid s u s1 ev :
  deactivatePolicy env pid s = Ok (u, s1, ev) ->
  policy_at s1 pid = Policy.set_isActive false (policy_at s pid)
  /\ (forall id', id' <> pid -> policy_at s1 id' = policy_at s id')
  /\ claims s1 = claims s
  /\ totalPolicies s1 = totalPolicies s /\ totalClaims s1 = totalClaims s
  /\ (forall env' a d,
        submitClaim env' pid a d s1 = Revert "Policy is not active")
  /\ (forall env', isPolicyValidForClaims env' pid s1 = false)
  /\ (forall env', msg_sender env' = insurer s1 ->
        deactivatePolicy env' pid s1 = Revert "Policy is not active").
Proof.
  intros H. apply deactivatePolicy_Ok in H as (Hex & ->).
  assert (Hp : policy_at (set_policy pid
                  (Policy.set_isActive false (policy_at s pid)) s) pid
               = Policy.set_isActive false (policy_at s pid))
    by apply policy_at_set_policy.
  apply Z.eqb_neq in Hex.
  split; [exact Hp|]. split; [|split; [reflexivity|]].
  { intros id' Hne. apply policy_at_set_policy_ne. congruence. }
  split; [reflexivity|]. split; [reflexivity|].
  split; [|split].
  - intros env' a d. rewrite submitClaim_eq. cbv zeta. rewrite Hp. simpl.
    rewrite Hex. reflexivity.
  - intros env'. unfold isPolicyValidForClaims. rewrite Hp. simpl.
    rewrite andb_false_r. reflexivity.
  - intros env' Hs. rewrite deactivatePolicy_eq. cbv zeta. rewrite Hp.
    simpl in Hs. simpl.
    apply Z.eqb_eq in Hs. rewrite Hs, Hex. reflexivity.
Qed.

(** X9. Claims outlive their policy's validity only to be rejected: for an
    existing [Pending] claim of a reachable state (amount times 100 within
    256 bits), if its policy has been deactivated, or the call comes before
    the policy's start or after its end date, [processClaim] returns false
    and records [Rejected] with "Policy is not valid or has expired",
    whatever the amount. *)
Theorem processClaim_invalid_policy s env id :
  reachable s ->
  Claim.claimId (claim_at s id) <> 0 ->
  Claim.status (claim_at s id) = Pending ->
  Claim.claimAmount (claim_at s id) * 100 <= MAX_UINT256 ->
  (Policy.isActive (policy_at s (Claim.policyId (claim_at s id))) = false
   \/ block_timestamp env
      < Policy.startDate (policy_at s (Claim.policyId (claim_at s id)))
   \/ Policy.endDate (policy_at s (Claim.policyId (claim_at s id)))
      < block_timestamp env) ->
  exists s' ev,
    processClaim env id s = Ok (false, s', ev)
    /\ Claim.status (claim_at s' id) = Rejected
    /\ Claim.rejectionReason (claim_at s' id)
       = "Policy is not valid or has expired".
Proof.
  intros Hr Hex Hst Hov Hinv.
  set (c := claim_at s id) in *.
  set (p := policy_at s (Claim.policyId c)) in *.
  assert (Hpv : Spec.isPolicyValid (block_timestamp env) p = false).
  { unfold Spec.isPolicyValid. destruct Hinv as [H|[H|H]].
    - rewrite H. reflexivity.
    - apply Z.leb_gt in H. rewrite H. apply andb_false_r.
    - apply Z.leb_gt in H. rewrite H. rewrite !andb_false_r. reflexivity. }
  assert (Hb : Spec.approved (block_timestamp env) c p = false)
    by (unfold Spec.approved; rewrite Hpv; reflexivity).
  eexists _, _. split.
  - rewrite processClaim_pending by assumption. cbv zeta.
    fold c. fold p. rewrite Hb. reflexivity.
  - rewrite claim_at_set_claim, decided_status. fold c. fold p. rewrite Hb.
    rewrite decided_reason_rejected by exact Hb.
    unfold Spec.first_failing_reason. rewrite Hpv. split; reflexivity.
Qed.

(** X10. The amount check never decides: in a reachable state, for an
    existing claim, a ratio [floor(amount * 100 / insured) <= 80] already
    gives [amount < insured], so [approved] equals
    [isPolicyValid && isAmountReasonable]; and whenever [processClaim]
    returns true, the policy is active, the call is within its dates and
    [amount * 100 < 81 * insured]. *)
Theorem processClaim_approval_sound s env id :
  reachable s ->
  Claim.claimId (claim_at s id) <> 0 ->
  let claim := claim_at s id in
  let policy := policy_at s (Claim.policyId claim) in
  Spec.approved (block_timestamp env) claim policy
  = Spec.isPolicyValid (block_timestamp env) policy
    && Spec.isAmountReasonable claim policy
  /\ (forall s' ev,
        processClaim env id s = Ok (true, s', ev) ->
        Policy.isActive policy = true
        /\ Policy.startDate policy <= block_timestamp env
           <= Policy.endDate policy
        /\ Claim.claimAmount claim * 100 < 81 * Policy.insuredAmount policy
        /\ Claim.claimAmount claim < Policy.insuredAmount policy
        /\ Claim.status (claim_at s' id) = Approved).
Proof.
  intros Hr Hex. cbv zeta.
  pose proof (claim_policy_insured s id Hr Hex) as Hins.
  set (c := claim_at s id) in *.
  set (p := policy_at s (Claim.policyId c)) in *.
  assert (Hratio : Spec.isAmountReasonable c p = true ->
                   Claim.claimAmount c * 100 < 81 * Policy.insuredAmount p).
  { unfold Spec.isAmountReasonable, Spec.ratio. intros H.
    apply Z.leb_le in H. apply Z.nle_gt. intros Hc.
    assert (81 <= Claim.claimAmount c * 100 / Policy.insuredAmount p)
      by (apply Z.div_le_lower_bound; lia). lia. }
  split.
  - unfold Spec.approved.
    destruct (Spec.isPolicyValid (block_timestamp env) p); simpl; [|reflexivity].
    destruct (Spec.isAmountReasonable c p) eqn:Ear;
      [|apply andb_false_r].
    specialize (Hratio eq_refl).
    unfold Spec.isAmountValid.
    assert (E : (Claim.claimAmount c <=? Policy.insuredAmount p) = true)
      by (apply Z.leb_le; lia).
    rewrite E. reflexivity.
  - intros s' ev H.
    apply processClaim_Ok in H as (_ & _ & _ & _ & Hb & ->).
    fold c in Hb. fold p in Hb. symmetry in Hb.
    unfold Spec.approved in Hb.
    apply andb_true_iff in Hb as [Hb Har].
    apply andb_true_iff in Hb as [Hpv Hav].
    unfold Spec.isPolicyValid in Hpv.
    apply andb_true_iff in Hpv as [Hact Hw].
    apply andb_true_iff in Hw as [Hs He].
    apply Z.leb_le in Hs. apply Z.leb_le in He.
    specialize (Hratio Har).
    repeat split; try assumption; try lia.
    rewrite claim_at_set_claim, decided_status. fold c. fold p.
    unfold Spec.approved, Spec.isPolicyValid.
    rewrite Hact, Hav, Har.
    apply Z.leb_le in Hs. apply Z.leb_le in He. rewrite Hs, He. reflexivity.
Qed.

Lemma apply_keeps_policy id etx s :
  Policy.policyId (policy_at s id) <> 0 ->
  registers id etx s = false ->
  policy_at (apply etx s) id = policy_at s id
  \/ policy_at (apply etx s) id = Policy.set_isActive false (policy_at s id).
Proof.
  intros Hex Hreg. destruct etx as [env tx]. unfold apply; simpl.
  destruct (call env tx s) as [[[r s'] ev]|?|?] eqn:E; try (left; reflexivity).
  apply call_Ok_cases in E.
  destruct tx as [h a p sd ed ph|pid a d|cid|pid].
  - destruct E as (id0 & E & _).
    apply registerPolicy_Ok in E as (_ & _ & _ & _ & _ & _ & _ & Hid & -> & _).
    unfold registers in Hreg; simpl in Hreg. rewrite <- Hid in Hreg.
    apply Z.eqb_neq in Hreg. left.
    unfold policy_at; simpl. rewrite lookup_insert_ne by assumption.
    reflexivity.
  - destruct E as (id0 & E & _).
    apply submitClaim_Ok in E as (_ & _ & _ & _ & _ & _ & _ & -> & _).
    left. reflexivity.
  - destruct E as (b & E & _).
    apply processClaim_Ok in E as (_ & _ & _ & _ & _ & ->). left. reflexivity.
  - destruct E as (E & _).
    apply deactivatePolicy_Ok in E as (_ & ->).
    destruct (decide (pid = id)) as [->|Hne].
    + right. apply policy_at_set_policy.
    + left. apply policy_at_set_policy_ne. exact Hne.
Qed.

(** X11. A policy is written once.  Along any run in which no registration
    derives its identifier again, an existing policy keeps every field it
    was registered with; the only change is that [isActive] may go from
    true to false, and a policy that is inactive stays as it is: there is
    no reactivation. *)
Theorem policy_fixed_but_for_deactivation id txs s :
  Policy.policyId (policy_at s id) <> 0 ->
  never_registers id txs s = true ->
  (policy_at (run txs s) id = policy_at s id
   \/ policy_at (run txs s) id = Policy.set_isActive false (policy_at s id))
  /\ (Policy.isActive (policy_at s id) = false ->
      policy_at (run txs s) id = policy_at s id).
Proof.
  revert s. induction txs as [|etx txs IH]; intros s Hex Hnr.
  - split; [left; reflexivity|intros _; reflexivity].
  - simpl in Hnr. apply andb_true_iff in Hnr as [H1 H2].
    apply negb_true_iff in H1.
    change (run (etx :: txs) s) with (run txs (apply etx s)).
    assert (Hoff : forall p, Policy.isActive p = false ->
                             Policy.set_isActive false p = p)
      by (intros [] E; simpl in E; subst; reflexivity).
    destruct (apply_keeps_policy id etx s Hex H1) as [Hk|Hk].
    + assert (Hex' : Policy.policyId (policy_at (apply etx s) id) <> 0)
        by (rewrite Hk; exact Hex).
      destruct (IH (apply etx s) Hex' H2) as [IH1 IH2].
      rewrite Hk in IH1, IH2. split; assumption.
    + assert (Hex' : Policy.policyId (policy_at (apply etx s) id) <> 0)
        by (rewrite Hk; exact Hex).
      destruct (IH (apply etx s) Hex' H2) as [_ IH2].
      rewrite Hk in IH2. specialize (IH2 eq_refl).
      split; [right; exact IH2|].
      intros Hin. rewrite IH2. apply Hoff. exact Hin.
Qed.

End DeactivationFacts.

Section ScriptFacts.
Import Bytes.

Lemma pad32_length (bs : list byte) : (length bs <= length (AbiStd.pad32 bs))%nat.
Proof. unfold AbiStd.pad32. rewrite length_app. lia. Qed.

(** X12. The interaction script does not recompute the contract's
    identifiers.  It hashes the standard ABI encoding of the tuple, in which
    the address takes a full word and the description an offset, a length
    and padding, where the contract hashes the packed encoding: for every
    input the script's policy preimage has 224 bytes against the contract's
    212, and its claim preimage is longer than the contract's, so the
    preimages never coincide.  With the workflow's values, the policy
    identifier the script computes for the first policy is not the one
    registered, and [submitClaim] on it reverts with "Policy does not
    exist". *)
Theorem script_identifiers_differ :
  (forall h a p sd ed t n,
      length (Interact.policy_preimage h a p sd ed t n) = 224%nat
      /\ length (PolicyClaim.policy_preimage h a p sd ed t n) = 212%nat
      /\ Interact.policy_preimage h a p sd ed t n
         <> PolicyClaim.policy_preimage h a p sd ed t n)
  /\ (forall pid h a d t n,
      (length (PolicyClaim.claim_preimage pid h a d t n)
       < length (Interact.claim_preimage pid h a d t n))%nat
      /\ Interact.claim_preimage pid h a d t n
         <> PolicyClaim.claim_preimage pid h a d t n)
  /\ (Interact.policyId Scenario.policyHolder1 (10 * Scenario.ether)
        Scenario.ether Scenario.now (Scenario.now + 365 * Scenario.days)
        Scenario.now 0
      <> Scenario.policyId1
      /\ PolicyClaim.submitClaim
           (Scenario.by_ Scenario.policyHolder1 Scenario.now)
           (Interact.policyId Scenario.policyHolder1 (10 * Scenario.ether)
              Scenario.ether Scenario.now
              (Scenario.now + 365 * Scenario.days) Scenario.now 0)
           (3 * Scenario.ether) "Medical treatment for emergency surgery"
           Scenario.registered
         = Revert "Policy does not exist").
Proof.
  assert (Hpol : forall h a p sd ed t n,
             length (Interact.policy_preimage h a p sd ed t n) = 224%nat
             /\ length (PolicyClaim.policy_preimage h a p sd ed t n) = 212%nat).
  { intros. unfold Interact.policy_preimage, PolicyClaim.policy_preimage,
      AbiStd.encode, Abi.encodePacked.
    cbn [AbiStd.heads AbiStd.tail flat_map Abi.encode1 length].
    rewrite !length_app, !be_bytes_length. simpl. split; reflexivity. }
  split; [|split].
  - intros h a p sd ed t n. destruct (Hpol h a p sd ed t n) as [H1 H2].
    split; [exact H1|]. split; [exact H2|].
    intros E. apply (f_equal (@length byte)) in E.
    rewrite H1, H2 in E. discriminate E.
  - intros pid h a d t n.
    assert (Hlt : (length (PolicyClaim.claim_preimage pid h a d t n)
                   < length (Interact.claim_preimage pid h a d t n))%nat).
    { unfold Interact.claim_preimage, PolicyClaim.claim_preimage,
        AbiStd.encode, Abi.encodePacked.
      cbn [AbiStd.heads AbiStd.tail flat_map Abi.encode1].
      rewrite !length_app, !be_bytes_length.
      pose proof (pad32_length (of_string d)). simpl. lia. }
    split; [exact Hlt|].
    intros E. apply (f_equal (@length byte)) in E. lia.
  - split.
    + vm_compute. intros E. discriminate E.
    + vm_compute. reflexivity.
Qed.

End ScriptFacts.

Section PolicyStorageFacts.
Import PolicyStorage.

Lemma checked_incr_Ok a :
  a + 1 <= MAX_UINT256 -> checked_incr a = Ok (a + 1).
Proof.
  intros H. unfold checked_incr. apply Z.leb_le in H. rewrite H. reflexivity.
Qed.

(** X13. [PolicyStorage] numbers its events without gaps: as long as the
    counter does not reach [2^256 - 1], a sequence of [storePolicy] calls of
    either form emits one [PolicyStored] event per call, in order, carrying
    the call's data and the numbers [nextPolicyId], [nextPolicyId + 1], ...,
    and leaves the counter advanced by the number of calls. *)
Theorem policyStored_numbering cs s :
  nextPolicyId s + Z.of_nat (length cs) <= MAX_UINT256 ->
  nextPolicyId (fst (run_log cs s)) = nextPolicyId s + Z.of_nat (length cs)
  /\ map event_id (snd (run_log cs s))
     = map (fun i => nextPolicyId s + Z.of_nat i) (seq 0 (length cs))
  /\ map event_data (snd (run_log cs s)) = map call_data cs.
Proof.
  revert s. induction cs as [|c cs IH]; intros s Hb.
  - simpl. repeat split. lia.
  - cbn [length] in Hb. rewrite Nat2Z.inj_succ in Hb.
    assert (Hc : exists s' , call c s
                   = Ok (tt, s', [PolicyStored (nextPolicyId s) (call_data c)])
                   /\ nextPolicyId s' = nextPolicyId s + 1).
    { destruct c as [d|id h]; simpl; unfold storePolicy, storePolicyHash;
        simpl; rewrite checked_incr_Ok by lia; eexists; split; reflexivity. }
    destruct Hc as (s' & Hcall & Hn).
    cbn [run_log]. rewrite Hcall. cbn [fst snd].
    destruct (IH s') as (IH1 & IH2 & IH3); [lia|].
    split; [|split].
    + rewrite IH1, Hn. cbn [length]. lia.
    + cbn [app map event_id length seq]. rewrite IH2. f_equal; [lia|].
      rewrite <- seq_shift, map_map. apply map_ext.
      intros i. rewrite Hn. lia.
    + cbn [app map event_data]. rewrite IH3. reflexivity.
Qed.

(** X14. [getPolicy] reads back what [storePolicy(bytes32, string)] wrote:
    the digest of the document hash's bytes under the given identifier,
    every other identifier as before; the one-argument [storePolicy] leaves
    all of them as they were, and an identifier never stored reads as
    zero. *)
Theorem policyStorage_read_back s :
  (forall id h u s' ev,
      storePolicyHash id h s = Ok (u, s', ev) ->
      getPolicy id s' = keccak256 (Bytes.of_string h)
      /\ (forall id', id' <> id -> getPolicy id' s' = getPolicy id' s))
  /\ (forall d u s' ev,
      storePolicy d s = Ok (u, s', ev) ->
      forall id, getPolicy id s' = getPolicy id s)
  /\ (forall id, policies s !! id = None -> getPolicy id s = 0).
Proof.
  split; [|split].
  - intros id h u s' ev H. unfold storePolicyHash in H. simpl in H.
    destruct (checked_incr (nextPolicyId s)); try discriminate.
    injection H as <- <-. unfold getPolicy; simpl. split.
    + rewrite lookup_insert_eq. simpl.
      unfold Abi.encodePacked; simpl. rewrite app_nil_r. reflexivity.
    + intros id' Hne. rewrite lookup_insert_ne by congruence. reflexivity.
  - intros d u s' ev H. unfold storePolicy in H.
    destruct (checked_incr (nextPolicyId s)); try discriminate.
    injection H as <- <-. intros id. reflexivity.
  - intros id H. unfold getPolicy. rewrite H. reflexivity.
Qed.

End PolicyStorageFacts.

(* ===================================================================== *)
(** * Further properties of the Fabric ledger *)
(* ===================================================================== *)

Section LedgerFacts.
Import Fabric Chaincode.
Context {number : Type} {number_eq_dec : EqDecision number}.
Variable parseFloat : string -> number.
Variable numberToString : number -> string.

Implicit Types (k : jsval number) (v : record number)
  (m ledger : list (jsval number * record number))
  (o data : gmap string (jsval number)).

Lemma map_get_None_iff k m : map_get k m = None <-> ~ In k (map fst m).
Proof.
  induction m as [|[k' v'] m IH]; simpl.
  - tauto.
  - destruct (decide (k = k')) as [->|Hne].
    + split; [discriminate|]. intros H. exfalso. apply H. left. reflexivity.
    + rewrite IH. split.
      * intros H [E|Hin]; [congruence|contradiction].
      * intros H Hin. apply H. right. exact Hin.
Qed.

Lemma map_get_In k v m : map_get k m = Some v -> In (k, v) m.
Proof.
  induction m as [|[k' v'] m IH]; simpl; [discriminate|].
  destruct (decide (k = k')) as [->|Hne].
  - intros [= ->]. left. reflexivity.
  - intros H. right. apply IH. exact H.
Qed.

Lemma map_set_fresh k v m :
  map_get k m = None -> map_set k v m = m ++ [(k, v)].
Proof.
  induction m as [|[k' v'] m IH]; simpl; [reflexivity|].
  destruct (decide (k = k')); [discriminate|].
  intros H. rewrite IH by exact H. reflexivity.
Qed.

Lemma map_set_present_keys k v v0 m :
  map_get k m = Some v0 -> map fst (map_set k v m) = map fst m.
Proof.
  induction m as [|[k' v'] m IH]; simpl; [discriminate|].
  destruct (decide (k = k')) as [->|Hne]; simpl; [reflexivity|].
  intros H. rewrite IH by exact H. reflexivity.
Qed.

Lemma map_set_Forall (P : jsval number * record number -> Prop) k v m :
  Forall P m -> P (k, v) -> Forall P (map_set k v m).
Proof.
  intros Hm Hkv. induction m as [|[k' v'] m IH]; simpl.
  - constructor; [exact Hkv|constructor].
  - inversion Hm as [|? ? Hh Ht]; subst.
    destruct (decide (k = k')).
    + constructor; assumption.
    + constructor; [exact Hh|apply IH; exact Ht].
Qed.

Lemma map_set_NoDup k v m :
  NoDup (map fst m) -> NoDup (map fst (map_set k v m)).
Proof.
  intros Hnd. destruct (map_get k m) as [v0|] eqn:E.
  - rewrite (map_set_present_keys k v v0 m E). exact Hnd.
  - rewrite map_set_fresh by exact E. rewrite map_app. simpl.
    apply NoDup_app. split; [exact Hnd|]. split.
    + intros x Hx Hin. apply list_elem_of_In in Hx.
      apply list_elem_of_In in Hin. destruct Hin as [<-|[]].
      apply map_get_None_iff in E. contradiction.
    + apply NoDup_singleton.
Qed.

Lemma map_set_is_Some k k' v m :
  is_Some (map_get k' m) -> is_Some (map_get k' (map_set k v m)).
Proof.
  intros H. destruct (decide (k = k')) as [->|Hne].
  - rewrite map_get_set_eq. eauto.
  - rewrite map_get_set_ne by exact Hne. exact H.
Qed.

Lemma map_size_set_bounds k v m :
  (map_size m <= map_size (map_set k v m) <= S (map_size m))%nat.
Proof. rewrite map_size_set. destruct (map_get k m); lia. Qed.

(** X15. [updateClaimStatus] on an identifier that is not in the ledger
    fails with "Claim <id> not found".  On one that is, whatever the kind of
    the record, it sets [status], [ethereumTxHash] and [updatedAt] and
    leaves the record's [type], [id] and every other field, [createdAt]
    included, as they were; the other records and the order of the keys are
    unchanged. *)
Theorem updateClaimStatus_frame t claimId status ethereumTxHash ledger :
  (map_get claimId ledger = None ->
     updateClaimStatus numberToString t claimId status ethereumTxHash ledger
     = inl ("Claim " ++ toString numberToString claimId ++ " not found")%string)
  /\ (forall claim,
       map_get claimId ledger = Some claim ->
       exists claim' ledger',
         updateClaimStatus numberToString t claimId status ethereumTxHash
                           ledger = inr (claim', ledger')
         /\ map_get claimId ledger' = Some claim'
         /\ type claim' = type claim /\ id claim' = id claim
         /\ prop (Fabric.data claim') "status" = status
         /\ prop (Fabric.data claim') "ethereumTxHash" = ethereumTxHash
         /\ prop (Fabric.data claim') "updatedAt" = JString (Js.toISOString t)
         /\ (forall f, f <> "status" -> f <> "ethereumTxHash" ->
                       f <> "updatedAt" ->
                       Fabric.data claim' !! f = Fabric.data claim !! f)
         /\ (forall k, claimId <> k -> map_get k ledger' = map_get k ledger)
         /\ map fst ledger' = map fst ledger).
Proof.
  unfold updateClaimStatus. split.
  - intros ->. reflexivity.
  - intros claim Hget. rewrite Hget. eexists _, _. split; [reflexivity|].
    split; [apply map_get_set_eq|]. simpl.
    split; [reflexivity|]. split; [reflexivity|].
    split; [rewrite !prop_insert_ne by discriminate; apply prop_insert_eq|].
    split; [rewrite prop_insert_ne by discriminate; apply prop_insert_eq|].
    split; [apply prop_insert_eq|].
    split; [|split].
    + intros f H1 H2 H3. rewrite !lookup_insert_ne by congruence. reflexivity.
    + intros k Hne. apply map_get_set_ne. exact Hne.
    + apply (map_set_present_keys _ _ claim). exact Hget.
Qed.

End LedgerFacts.

Section SimulatorFacts.
Import Fabric Chaincode.
Context {number : Type} {number_eq_dec : EqDecision number}.
Variable parseFloat : string -> number.
Variable numberToString : number -> string.

Implicit Types (k : jsval number) (v : record number)
  (m ledger : list (jsval number * record number))
  (o data : gmap string (jsval number)).

(** X16. The ledger has one key space for all kinds.  A record written by
    [createPatientRecord] is returned by [getPatientRecord] under its
    [patientId] and is "not found" for [getClaimRequest]; a record written
    by [createClaimRequest] is returned by [getClaimRequest] and not by
    [getPatientRecord]; and a claim request created under the identifier of
    a patient record replaces it, after which [getPatientRecord] no longer
    finds the patient. *)
Theorem create_then_get t1 t2 data ledger :
  (getPatientRecord numberToString (prop data "patientId")
     (snd (createPatientRecord t1 t2 data ledger))
   = inr (fst (createPatientRecord t1 t2 data ledger))
   /\ getClaimRequest numberToString (prop data "patientId")
        (snd (createPatientRecord t1 t2 data ledger))
      = inl ("Claim request "
             ++ toString numberToString (prop data "patientId")
             ++ " not found")%string)
  /\ (getClaimRequest numberToString (prop data "claimId")
        (snd (createClaimRequest t1 t2 data ledger))
      = inr (fst (createClaimRequest t1 t2 data ledger))
      /\ getPatientRecord numberToString (prop data "claimId")
           (snd (createClaimRequest t1 t2 data ledger))
         = inl ("Patient record "
                ++ toString numberToString (prop data "claimId")
                ++ " not found")%string)
  /\ (forall t3 t4 data',
        prop data' "claimId" = prop data "patientId" ->
        getPatientRecord numberToString (prop data "patientId")
          (snd (createClaimRequest t3 t4 data'
                  (snd (createPatientRecord t1 t2 data ledger))))
        = inl ("Patient record "
               ++ toString numberToString (prop data "patientId")
               ++ " not found")%string).
Proof.
  unfold createPatientRecord, createClaimRequest, getPatientRecord,
    getClaimRequest; simpl.
  split; [|split].
  - rewrite map_get_set_eq; simpl.
    rewrite ?decide_True by reflexivity.
    rewrite ?decide_False by discriminate.
    split; reflexivity.
  - rewrite map_get_set_eq; simpl.
    rewrite ?decide_True by reflexivity.
    rewrite ?decide_False by discriminate.
    split; reflexivity.
  - intros t3 t4 data' E. rewrite E, map_get_set_eq; simpl.
    rewrite ?decide_False by discriminate. reflexivity.
Qed.

Lemma filter_kind_set_other (kind : string) k v m :
  type v <> kind ->
  (forall v0, map_get k m = Some v0 -> type v0 <> kind) ->
  filter (fun item : record number => type item = kind)
         (map_values (map_set k v m))
  = filter (fun item : record number => type item = kind) (map_values m).
Proof.
  intros Hv. unfold map_values.
  induction m as [|[k' v'] m IH]; intros Hold; simpl.
  - rewrite filter_cons_False by exact Hv. reflexivity.
  - simpl in Hold. destruct (decide (k = k')) as [->|Hne]; simpl.
    + rewrite filter_cons_False by exact Hv.
      rewrite filter_cons_False by (apply Hold; reflexivity). reflexivity.
    + rewrite !filter_cons. rewrite IH by exact Hold. reflexivity.
Qed.

(** X17. Creating a record under an identifier not yet in the ledger
    appends it to the list of its kind and leaves the list of the other
    kind alone: [getAllPatientRecords] grows by the new patient record at
    its end while [getAllClaimRequests] is unchanged, and conversely for a
    new claim request. *)
Theorem getAll_after_create t1 t2 data ledger :
  (map_get (prop data "patientId") ledger = None ->
     getAllPatientRecords (snd (createPatientRecord t1 t2 data ledger))
     = getAllPatientRecords ledger
       ++ [fst (createPatientRecord t1 t2 data ledger)]
     /\ getAllClaimRequests (snd (createPatientRecord t1 t2 data ledger))
        = getAllClaimRequests ledger)
  /\ (map_get (prop data "claimId") ledger = None ->
     getAllClaimRequests (snd (createClaimRequest t1 t2 data ledger))
     = getAllClaimRequests ledger
       ++ [fst (createClaimRequest t1 t2 data ledger)]
     /\ getAllPatientRecords (snd (createClaimRequest t1 t2 data ledger))
        = getAllPatientRecords ledger).
Proof.
  unfold createPatientRecord, createClaimRequest, getAllPatientRecords,
    getAllClaimRequests; simpl.
  split; intros Hfresh.
  - split.
    + rewrite map_set_fresh by exact Hfresh.
      unfold map_values. rewrite map_app, filter_app. simpl.
      rewrite filter_cons_True by reflexivity. reflexivity.
    + apply filter_kind_set_other; [discriminate|].
      intros v0 H. rewrite Hfresh in H. discriminate.
  - split.
    + rewrite map_set_fresh by exact Hfresh.
      unfold map_values. rewrite map_app, filter_app. simpl.
      rewrite filter_cons_True by reflexivity. reflexivity.
    + apply filter_kind_set_other; [discriminate|].
      intros v0 H. rewrite Hfresh in H. discriminate.
Qed.

(** On an array, [invokeChaincode] throws in two cases only. *)
Lemma invokeChaincode_throws t1 t2 func args ledger e :
  invokeChaincode parseFloat numberToString t1 t2 func args ledger = inl e
  <-> ((func = "UpdateClaimStatus"
        /\ map_get (arg args 0) ledger = None
        /\ e = ("Claim " ++ toString numberToString (arg args 0)
                ++ " not found")%string)
       \/ (func <> "CreatePatientRecord" /\ func <> "CreateClaimRequest"
           /\ func <> "UpdateClaimStatus"
           /\ func <> "VerifyPolicyWithEthereum"
           /\ e = ("Unknown function: " ++ func)%string)).
Proof.
  unfold invokeChaincode.
  destruct (decide (func = "CreatePatientRecord")) as [->|H1].
  { split; [discriminate|].
    intros [(H & _)|(H & _)]; [discriminate H|contradiction]. }
  destruct (decide (func = "CreateClaimRequest")) as [->|H2].
  { split; [discriminate|].
    intros [(H & _)|(_ & H & _)]; [discriminate H|contradiction]. }
  destruct (decide (func = "UpdateClaimStatus")) as [->|H3].
  { unfold updateClaimStatus.
    destruct (map_get (arg args 0) ledger) as [c|] eqn:E.
    - split; [discriminate|].
      intros [(_ & H & _)|(_ & _ & H & _)]; [discriminate H|contradiction].
    - split.
      + intros [= <-]. left. repeat split.
      + intros [(_ & _ & ->)|(_ & _ & H & _)]; [reflexivity|contradiction]. }
  destruct (decide (func = "VerifyPolicyWithEthereum")) as [->|H4].
  { split; [discriminate|].
    intros [(H & _)|(_ & _ & _ & H & _)]; [discriminate H|contradiction]. }
  split.
  - intros [= <-]. right. repeat split; assumption.
  - intros [(H & _)|(_ & _ & _ & _ & ->)]; [contradiction|reflexivity].
Qed.

(** X18. [invokeChaincode], called without [args] ([undefined] or [null])
    or with an array of primitive values (strings, numbers, booleans,
    [null], [undefined]) of any length, fails in three cases only: for a
    function name other than the four it knows, with the error "Unknown
    function: <name>"; for one of the four names without [args], with the
    [TypeError] of reading [args[0]]; and for [UpdateClaimStatus] on an
    identifier that is not in the ledger, with the error "Claim <id> not
    found".  On such an array the three creating functions never fail, also
    when it is too short. *)
Theorem invokeChaincode_failures t1 t2 func a ledger e :
  invoke parseFloat numberToString t1 t2 func a ledger = inl e
  <-> ((func <> "CreatePatientRecord" /\ func <> "CreateClaimRequest"
        /\ func <> "UpdateClaimStatus"
        /\ func <> "VerifyPolicyWithEthereum"
        /\ e = Error ("Unknown function: " ++ func)%string)
       \/ ((func = "CreatePatientRecord" \/ func = "CreateClaimRequest"
            \/ func = "UpdateClaimStatus"
            \/ func = "VerifyPolicyWithEthereum")
           /\ a = NoArgs /\ e = TypeError)
       \/ (func = "UpdateClaimStatus"
           /\ exists args,
                a = Args args
                /\ map_get (arg args 0) ledger = None
                /\ e = Error ("Claim "
                              ++ toString numberToString (arg args 0)
                              ++ " not found")%string)).
Proof.
  destruct a as [|args]; unfold invoke.
  - destruct (decide (func = "CreatePatientRecord")) as [H1|H1].
    { split.
      - intros [= <-]. right. left. tauto.
      - intros [(H & _)|[(_ & _ & ->)|(_ & args & H & _)]];
          [contradiction|reflexivity|discriminate H]. }
    destruct (decide (func = "CreateClaimRequest")) as [H2|H2].
    { split.
      - intros [= <-]. right. left. tauto.
      - intros [(_ & H & _)|[(_ & _ & ->)|(_ & args & H & _)]];
          [contradiction|reflexivity|discriminate H]. }
    destruct (decide (func = "UpdateClaimStatus")) as [H3|H3].
    { split.
      - intros [= <-]. right. left. tauto.
      - intros [(_ & _ & H & _)|[(_ & _ & ->)|(_ & args & H & _)]];
          [contradiction|reflexivity|discriminate H]. }
    destruct (decide (func = "VerifyPolicyWithEthereum")) as [H4|H4].
    { split.
      - intros [= <-]. right. left. tauto.
      - intros [(_ & _ & _ & H & _)|[(_ & _ & ->)|(_ & args & H & _)]];
          [contradiction|reflexivity|discriminate H]. }
    split.
    + intros [= <-]. left. tauto.
    + intros [(_ & _ & _ & _ & ->)|[(H & _)|(_ & args & H & _)]];
        [reflexivity|tauto|discriminate H].
  - destruct (invokeChaincode parseFloat numberToString t1 t2 func args
                              ledger) as [msg|written] eqn:E.
    + apply invokeChaincode_throws in E. split.
      * intros [= <-].
        destruct E as [(Hf & Hg & ->)|(H1 & H2 & H3 & H4 & ->)].
        -- right. right. split; [exact Hf|].
           exists args. repeat split. exact Hg.
        -- left. repeat split; assumption.
      * intros [(_ & _ & H3 & _ & ->)|[(_ & H & _)|(Hf & args' & Ha & Hg & ->)]].
        -- destruct E as [(Hf & _)|(_ & _ & _ & _ & ->)];
             [contradiction|reflexivity].
        -- discriminate H.
        -- injection Ha as <-.
           destruct E as [(_ & _ & ->)|(_ & _ & H & _)];
             [reflexivity|contradiction].
    + split; [discriminate|].
      intros [(H1 & H2 & H3 & H4 & _)|[(_ & H & _)|(Hf & args' & Ha & Hg & _)]].
      * assert (Hx : exists text,
                   invokeChaincode parseFloat numberToString t1 t2
                                   func args ledger = inl text).
        { eexists. apply invokeChaincode_throws. right.
          repeat split; assumption. }
        destruct Hx as (text & Hx). rewrite Hx in E. discriminate E.
      * discriminate H.
      * injection Ha as <-.
        assert (Hx : exists text,
                   invokeChaincode parseFloat numberToString t1 t2
                                   func args ledger = inl text).
        { eexists. apply invokeChaincode_throws. left.
          repeat split; assumption. }
        destruct Hx as (text & Hx). rewrite Hx in E. discriminate E.
Qed.

Lemma invokeChaincode_shape t1 t2 func args ledger :
  (exists e, invokeChaincode parseFloat numberToString t1 t2 func args ledger
             = inl e)
  \/ (exists key r,
        invokeChaincode parseFloat numberToString t1 t2 func args ledger
        = inr (r, map_set key r ledger)
        /\ (ledger_ok ledger -> id r = key /\ In (type r) kinds)).
Proof.
  unfold invokeChaincode.
  destruct (decide (func = "CreatePatientRecord")).
  { right. eexists _, _. split; [reflexivity|]. intros _. simpl.
    split; [reflexivity|]. unfold kinds. simpl. tauto. }
  destruct (decide (func = "CreateClaimRequest")).
  { right. eexists _, _. split; [reflexivity|]. intros _. simpl.
    split; [reflexivity|]. unfold kinds. simpl. tauto. }
  destruct (decide (func = "UpdateClaimStatus")).
  { unfold updateClaimStatus.
    destruct (map_get (arg args 0) ledger) as [c|] eqn:E.
    - right. eexists _, _. split; [reflexivity|]. intros [_ Hall]. simpl.
      apply map_get_In in E. apply list_elem_of_In in E.
      rewrite Forall_forall in Hall. apply (Hall _ E).
    - left. eexists. reflexivity. }
  destruct (decide (func = "VerifyPolicyWithEthereum")).
  { right. eexists _, _. split; [reflexivity|]. intros _. simpl.
    split; [reflexivity|]. unfold kinds. simpl. tauto. }
  left. eexists. reflexivity.
Qed.

(** X19. An invocation never removes a record and keeps the ledger in
    order: every identifier present before is present after, the size
    grows by one at most, and if the keys were distinct and every record
    was stored under its own [id] with one of the three kinds, this still
    holds afterwards. *)
Theorem invokeChaincode_keeps_records t1 t2 func args ledger :
  let after :=
    ledger_after
      (invokeChaincode parseFloat numberToString t1 t2 func args ledger)
      ledger in
  (forall k, is_Some (map_get k ledger) -> is_Some (map_get k after))
  /\ (map_size ledger <= map_size after <= S (map_size ledger))%nat
  /\ (ledger_ok ledger -> ledger_ok after).
Proof.
  cbv zeta.
  destruct (invokeChaincode_shape t1 t2 func args ledger)
    as [[e ->]|(key & r & -> & Hok)]; simpl.
  - split; [tauto|]. split; [lia|tauto].
  - split; [intros k; apply map_set_is_Some|].
    split; [apply map_size_set_bounds|].
    intros Hl. destruct (Hok Hl) as [Hid Hkind]. destruct Hl as [Hnd Hall].
    split; [apply map_set_NoDup; exact Hnd|].
    apply map_set_Forall; [exact Hall|]. simpl. split; assumption.
Qed.

End SimulatorFacts.

Section ChaincodeFacts.
Import Fabric Chaincode.
Context {number : Type} {number_eq_dec : EqDecision number}.
Variable parseFloat : string -> number.
Variable numberToString : number -> string.
Variable isNaN : number -> bool.

Implicit Types (k : jsval number) (v : record number)
  (m ledger : list (jsval number * record number))
  (o data : gmap string (jsval number)).

Ltac prop_solve :=
  repeat first [ rewrite prop_insert_eq
               | rewrite prop_insert_ne by discriminate ].

Lemma string_app_assoc (a b c : string) :
  ((a ++ b) ++ c = a ++ (b ++ c))%string.
Proof.
  induction a as [|x a IH]; [reflexivity|].
  change (String x ((a ++ b) ++ c) = String x (a ++ (b ++ c)))%string.
  f_equal. exact IH.
Qed.

(** X20. The verification key does not separate its two parts: joining
    [policyId] and [patientId] with an underscore, the pairs
    [(a_b, c)] and [(a, b_c)] get the same key, so synchronising the second
    replaces the first one's record: the ledger keeps a single record under
    that key, and it is the second pair's. *)
Theorem verification_key_ambiguous (a b c : string) :
  synced_key (a ++ "_" ++ b) c = (synced_key a (b ++ "_" ++ c) : jsval number)
  /\ (forall n1 n2 t n1' n2' t' ledger,
        let first :=
          ledger_after
            (syncPolicyToFabric parseFloat numberToString n1 n2 t
               (a ++ "_" ++ b) c ledger) ledger in
        let second :=
          ledger_after
            (syncPolicyToFabric parseFloat numberToString n1' n2' t'
               a (b ++ "_" ++ c) first) first in
        map_size second = map_size first
        /\ exists r,
             map_get (synced_key (a ++ "_" ++ b) c) second = Some r
             /\ Fabric.data r !! "policyId" = Some (JString a)
             /\ Fabric.data r !! "patientId" = Some (JString (b ++ "_" ++ c))).
Proof.
  assert (Hkey : synced_key (a ++ "_" ++ b) c
                 = (synced_key a (b ++ "_" ++ c) : jsval number)).
  { unfold synced_key. f_equal.
    apply (f_equal (String.append "VERIFICATION_")).
    rewrite string_app_assoc. reflexivity. }
  split; [exact Hkey|].
  intros n1 n2 t n1' n2' t' ledger. cbv zeta.
  rewrite !syncPolicyToFabric_eq. cbv beta iota delta [ledger_after].
  rewrite <- Hkey. split.
  - rewrite !map_size_set, map_get_set_eq. reflexivity.
  - eexists. split; [apply map_get_set_eq|]. simpl.
    destruct (synced_data_fields parseFloat n1' n2' t' a (b ++ "_" ++ c))
      as (H1 & H2 & _).
    split; assumption.
Qed.

(** X21. What [CreatePatientRecord] and [CreateClaimRequest] write through
    [invokeChaincode] can be queried back through [queryChaincode]: the
    record is stored under the first argument, has [status] "pending"
    (resp. "submitted"), carries the arguments in the fields the simulator
    assigns them to, the seventh parsed as a number, and the query of the
    other kind on the same identifier fails with "not found". *)
Theorem chaincode_create_then_query t1 t2 args ledger :
  (exists r ledger',
      invokeChaincode parseFloat numberToString t1 t2 "CreatePatientRecord"
                      args ledger = inr (r, ledger')
      /\ queryChaincode numberToString isNaN "GetPatientRecord" [arg args 0] ledger'
         = inr (QRecord r)
      /\ queryChaincode numberToString isNaN "GetClaimRequest" [arg args 0] ledger'
         = inl ("Claim request " ++ toString numberToString (arg args 0)
                ++ " not found")%string
      /\ type r = "PatientRecord" /\ id r = arg args 0
      /\ prop (Fabric.data r) "patientId" = arg args 0
      /\ prop (Fabric.data r) "hospitalId" = arg args 1
      /\ prop (Fabric.data r) "insuranceId" = arg args 2
      /\ prop (Fabric.data r) "recordHash" = arg args 3
      /\ prop (Fabric.data r) "diagnosis" = arg args 4
      /\ prop (Fabric.data r) "treatment" = arg args 5
      /\ prop (Fabric.data r) "cost"
         = JNumber (parseFloat (toString numberToString (arg args 6)))
      /\ prop (Fabric.data r) "status" = JString "pending")
  /\ (exists r ledger',
      invokeChaincode parseFloat numberToString t1 t2 "CreateClaimRequest"
                      args ledger = inr (r, ledger')
      /\ queryChaincode numberToString isNaN "GetClaimRequest" [arg args 0] ledger'
         = inr (QRecord r)
      /\ queryChaincode numberToString isNaN "GetPatientRecord" [arg args 0] ledger'
         = inl ("Patient record " ++ toString numberToString (arg args 0)
                ++ " not found")%string
      /\ type r = "ClaimRequest" /\ id r = arg args 0
      /\ prop (Fabric.data r) "claimId" = arg args 0
      /\ prop (Fabric.data r) "patientId" = arg args 1
      /\ prop (Fabric.data r) "hospitalId" = arg args 2
      /\ prop (Fabric.data r) "insuranceId" = arg args 3
      /\ prop (Fabric.data r) "description" = arg args 4
      /\ prop (Fabric.data r) "policyId" = arg args 5
      /\ prop (Fabric.data r) "amount"
         = JNumber (parseFloat (toString numberToString (arg args 6)))
      /\ prop (Fabric.data r) "status" = JString "submitted").
Proof.
  split.
  - unfold invokeChaincode. rewrite decide_True by reflexivity.
    unfold createPatientRecord, object. cbn [fold_left fst snd].
    eexists _, _. split; [reflexivity|].
    assert (Hk : prop
                   (<["cost" := JNumber (parseFloat
                                   (toString numberToString (arg args 6)))]>
                      (<["treatment" := arg args 5]>
                         (<["diagnosis" := arg args 4]>
                            (<["recordHash" := arg args 3]>
                               (<["insuranceId" := arg args 2]>
                                  (<["hospitalId" := arg args 1]>
                                     (<["patientId" := arg args 0]> ∅)))))))
                   "patientId" = arg args 0) by (prop_solve; reflexivity).
    rewrite Hk.
    unfold queryChaincode, getPatientRecord, getClaimRequest.
    rewrite !decide_True by reflexivity. rewrite ?decide_False by discriminate.
    rewrite ?decide_True by reflexivity.
    change (arg [arg args 0] 0) with (arg args 0).
    rewrite map_get_set_eq. cbn [type id Fabric.data].
    rewrite ?decide_True by reflexivity.
    rewrite ?decide_False by discriminate.
    repeat (split; [reflexivity|]).
    repeat (split; [prop_solve; reflexivity|]).
    prop_solve; reflexivity.
  - unfold invokeChaincode. rewrite decide_False by discriminate.
    rewrite decide_True by reflexivity.
    unfold createClaimRequest, object. cbn [fold_left fst snd].
    eexists _, _. split; [reflexivity|].
    assert (Hk : prop
                   (<["amount" := JNumber (parseFloat
                                     (toString numberToString (arg args 6)))]>
                      (<["policyId" := arg args 5]>
                         (<["description" := arg args 4]>
                            (<["insuranceId" := arg args 3]>
                               (<["hospitalId" := arg args 2]>
                                  (<["patientId" := arg args 1]>
                                     (<["claimId" := arg args 0]> ∅)))))))
                   "claimId" = arg args 0) by (prop_solve; reflexivity).
    rewrite Hk.
    unfold queryChaincode, getPatientRecord, getClaimRequest.
    rewrite ?decide_True by reflexivity. rewrite ?decide_False by discriminate.
    rewrite ?decide_True by reflexivity.
    change (arg [arg args 0] 0) with (arg args 0).
    rewrite map_get_set_eq. cbn [type id Fabric.data].
    rewrite ?decide_True by reflexivity.
    rewrite ?decide_False by discriminate.
    repeat (split; [reflexivity|]).
    repeat (split; [prop_solve; reflexivity|]).
    prop_solve; reflexivity.
Qed.

Lemma strict_equal_true (a b : jsval number) :
  strict_equal isNaN a b = true
  <-> a = b /\ (forall n, a = JNumber n -> isNaN n = false).
Proof.
  unfold strict_equal. destruct a as [| |x|n|x].
  1-3, 5: rewrite bool_decide_eq_true; split;
    [intros H; split; [exact H|intros n E; discriminate E]|tauto].
  rewrite andb_true_iff, negb_true_iff, bool_decide_eq_true. split.
  - intros [Hn E]. split; [exact E|]. intros n' [= <-]. exact Hn.
  - intros [E Hn]. split; [apply Hn; reflexivity|exact E].
Qed.

(** X22. A patient record can be found by its hospital, unless the hospital
    identifier is [NaN].  Right after [createPatientRecord],
    [queryRecordsByHospital] for the record's [hospitalId] returns the
    record when that value is not [NaN]; whatever the query returns, for any
    hospital and ledger, is a patient record of that hospital that
    [getAllPatientRecords] lists too; and a query for [NaN] returns
    nothing, [NaN] being unequal to itself under [===]. *)
Theorem queryRecordsByHospital_finds t1 t2 data ledger :
  ((forall n, prop data "hospitalId" = JNumber n -> isNaN n = false) ->
     In (fst (createPatientRecord t1 t2 data ledger))
        (queryRecordsByHospital isNaN (prop data "hospitalId")
           (snd (createPatientRecord t1 t2 data ledger))))
  /\ (forall h x, In x (queryRecordsByHospital isNaN h ledger) ->
        type x = "PatientRecord" /\ prop (Fabric.data x) "hospitalId" = h
        /\ (forall n, h = JNumber n -> isNaN n = false)
        /\ In x (getAllPatientRecords ledger))
  /\ (forall n, isNaN n = true ->
        queryRecordsByHospital isNaN (JNumber n) ledger = []).
Proof.
  assert (Hsound : forall h x ledger0,
             In x (queryRecordsByHospital isNaN h ledger0) ->
             type x = "PatientRecord" /\ prop (Fabric.data x) "hospitalId" = h
             /\ (forall n, h = JNumber n -> isNaN n = false)
             /\ In x (getAllPatientRecords ledger0)).
  { intros h x ledger0 Hin. unfold queryRecordsByHospital in Hin.
    apply list_elem_of_In in Hin. apply list_elem_of_filter in Hin
      as [[Ht Hh] Hx].
    apply strict_equal_true in Hh as [Hh Hn].
    split; [exact Ht|]. split; [exact Hh|].
    split; [intros n E; apply Hn; rewrite Hh; exact E|].
    unfold getAllPatientRecords. apply list_elem_of_In.
    apply list_elem_of_filter. split; assumption. }
  split; [|split].
  - intros Hn. unfold queryRecordsByHospital, createPatientRecord; simpl.
    apply list_elem_of_In. apply list_elem_of_filter. split.
    + simpl. split; [reflexivity|]. apply strict_equal_true.
      prop_solve. split; [reflexivity|exact Hn].
    + unfold map_values. apply list_elem_of_In. apply in_map_iff.
      eexists (_, _). split; [reflexivity|].
      apply map_get_In. apply map_get_set_eq.
  - intros h x. apply Hsound.
  - intros n Hn.
    destruct (queryRecordsByHospital isNaN (JNumber n) ledger)
      as [|x rest] eqn:E; [reflexivity|].
    assert (Hin : In x (queryRecordsByHospital isNaN (JNumber n) ledger))
      by (rewrite E; left; reflexivity).
    apply Hsound in Hin as (_ & _ & H & _).
    rewrite (H n eq_refl) in Hn. discriminate Hn.
Qed.

End ChaincodeFacts.

Section BridgeFacts.
Import Fabric Chaincode.
Context {number : Type} {number_eq_dec : EqDecision number}.
Variable parseFloat : string -> number.
Variable numberToString : number -> string.






End BridgeFacts.

(* ===================================================================== *)
(** * The further properties at work *)
(* ===================================================================== *)

Section MoreScenarioFacts.
Import PolicyClaim Runs Invariants Scenario Scenario2.

Lemma deployed_steps_registered : steps (constructor (by_ insurerAddr now)) registered.
Proof. apply (run_steps [register1; register2] deployed). vm_compute. reflexivity. Qed.

Lemma decided2_reachable : reachable decided2.
Proof.
  apply (reachable_steps submitted2); [apply submitted2_reachable|].
  apply (run_steps [(by_ insurerAddr now, ProcessClaim claimId2)] submitted2).
  vm_compute. reflexivity.
Qed.

Lemma closed2_reachable : reachable closed2.
Proof.
  apply (reachable_steps submitted2); [apply submitted2_reachable|].
  apply (run_steps [deactivate2] submitted2). vm_compute. reflexivity.
Qed.

(** A policy holder tries to register a policy. *)
Lemma only_deployer_administers_witness :
  insurer registered = insurerAddr
  /\ registerPolicy (by_ policyHolder1 now) policyHolder1 (10 * ether) ether
                    now (now + 365 * days) "0xabc123def456ghi789" registered
     = Revert "Only insurer can perform this action".
Proof.
  destruct (only_deployer_administers (by_ insurerAddr now) registered
              (by_ policyHolder1 now)) as (H1 & H2 & _).
  - apply deployed_steps_registered.
  - vm_compute. intros E. discriminate E.
  - split; [exact H1|apply H2].
Defined.

(** The second policy as [getPolicy] returns it. *)
Lemma getPolicy_well_formed_witness :
  Policy.policyId (policy_at registered policyId2) = policyId2
  /\ MINIMUM_PREMIUM <= Policy.premium (policy_at registered policyId2).
Proof.
  assert (H : getPolicy policyId2 registered
              = Ok (policy_at registered policyId2, registered, []))
    by (vm_compute; reflexivity).
  destruct (getPolicy_well_formed registered policyId2
              (policy_at registered policyId2) registered []
              registered_reachable H) as (H1 & _ & _ & H4 & _).
  split; [exact H1 | exact H4].
Defined.

(** The rejected 6 ether claim as [getClaim] returns it. *)
Lemma getClaim_well_formed_witness :
  In (Claim.rejectionReason (claim_at decided2 claimId2)) rejection_texts
  /\ 0 < Claim.claimAmount (claim_at decided2 claimId2).
Proof.
  assert (H : getClaim claimId2 decided2
              = Ok (claim_at decided2 claimId2, decided2, []))
    by (vm_compute; reflexivity).
  destruct (getClaim_well_formed decided2 claimId2
              (claim_at decided2 claimId2) decided2 []
              decided2_reachable H) as (_ & H2 & _ & H4 & _).
  split; [|exact H2]. apply H4. vm_compute. reflexivity.
Defined.

(** After the two registrations, two identifiers are listed. *)
Lemma user_lists_account_witness :
  listed (userPolicies registered) = totalPolicies registered
  /\ is_Some (policies registered !! policyId1).
Proof.
  destruct (user_lists_account registered policyHolder1 registered_reachable)
    as (H1 & _ & H3 & _).
  split; [exact H1|]. apply H3. vm_compute. left. reflexivity.
Defined.

(** The first registration, read back. *)
Lemma register_submit_read_back_witness :
  getPolicy policyId1 (run [register1] deployed)
  = Ok (Policy.mk policyId1 policyHolder1 (10 * ether) ether now
                  (now + 365 * days) true "0xabc123def456ghi789",
        run [register1] deployed, [])
  /\ getUserPolicies policyHolder1 (run [register1] deployed)
     = getUserPolicies policyHolder1 deployed ++ [policyId1].
Proof.
  destruct (register_submit_read_back (by_ insurerAddr now) deployed)
    as (H & _).
  destruct (H policyHolder1 (10 * ether) ether now (now + 365 * days)
              "0xabc123def456ghi789" policyId1 (run [register1] deployed)
              [PolicyRegistered policyId1 policyHolder1 (10 * ether) ether
                 now (now + 365 * days)])
    as (H1 & H2 & _).
  - vm_compute. reflexivity.
  - vm_compute. intros E. discriminate E.
  - split; [exact H1 | exact H2].
Defined.

(** The second policy, deactivated with a claim outstanding. *)
Lemma deactivatePolicy_closes_witness :
  Policy.isActive (policy_at closed2 policyId2) = false
  /\ submitClaim (by_ policyHolder2 (now + 2 * days)) policyId2 ether
                 "Follow-up" closed2
     = Revert "Policy is not active".
Proof.
  assert (H : exists ev,
             deactivatePolicy (by_ insurerAddr (now + days)) policyId2
                              submitted2 = Ok (tt, closed2, ev))
    by (eexists; vm_compute; reflexivity).
  destruct H as (ev & H).
  destruct (deactivatePolicy_closes (by_ insurerAddr (now + days)) policyId2
              submitted2 tt closed2 ev H)
    as (H1 & _ & _ & _ & _ & H2 & _).
  split; [rewrite H1; reflexivity|apply H2].
Defined.

(** Its outstanding claim is then rejected for the policy. *)
Lemma processClaim_invalid_policy_witness :
  exists s' ev,
    processClaim (by_ insurerAddr (now + 2 * days)) claimId2 closed2
    = Ok (false, s', ev)
    /\ Claim.rejectionReason (claim_at s' claimId2)
       = "Policy is not valid or has expired".
Proof.
  destruct (processClaim_invalid_policy closed2
              (by_ insurerAddr (now + 2 * days)) claimId2)
    as (s' & ev & H1 & _ & H3).
  - apply closed2_reachable.
  - vm_compute. intros E. discriminate E.
  - vm_compute. reflexivity.
  - vm_compute. intros E. discriminate E.
  - left. vm_compute. reflexivity.
  - exists s', ev. split; [exact H1 | exact H3].
Defined.

(** The 3 ether claim: the decision without the amount check. *)
Lemma processClaim_approval_sound_witness :
  Spec.approved now (claim_at (submitted1 (3 * ether)) (claimId1 (3 * ether)))
    (policy_at (submitted1 (3 * ether)) policyId1)
  = Spec.isPolicyValid now (policy_at (submitted1 (3 * ether)) policyId1)
    && Spec.isAmountReasonable
         (claim_at (submitted1 (3 * ether)) (claimId1 (3 * ether)))
         (policy_at (submitted1 (3 * ether)) policyId1).
Proof.
  destruct (processClaim_approval_sound (submitted1 (3 * ether))
              (by_ insurerAddr now) (claimId1 (3 * ether)))
    as (H & _).
  - apply submitted1_reachable. reflexivity.
  - vm_compute. intros E. discriminate E.
  - assert (E : Claim.policyId (claim_at (submitted1 (3 * ether))
                                         (claimId1 (3 * ether))) = policyId1)
      by (vm_compute; reflexivity).
    cbv zeta in H. rewrite E in H. exact H.
Defined.

(** The second policy through a claim, its deactivation and a further
    registration. *)
Lemma policy_fixed_but_for_deactivation_witness :
  policy_at (run later_txs registered) policyId2
  = policy_at registered policyId2
  \/ policy_at (run later_txs registered) policyId2
     = Policy.set_isActive false (policy_at registered policyId2).
Proof.
  destruct (policy_fixed_but_for_deactivation policyId2 later_txs registered)
    as (H & _).
  - vm_compute. intros E. discriminate E.
  - vm_compute. reflexivity.
  - exact H.
Defined.

(** Three calls on a fresh [PolicyStorage]. *)
Lemma policyStored_numbering_witness :
  map PolicyStorage.event_id
      (snd (PolicyStorage.run_log storage_calls PolicyStorage.constructor))
  = [0; 1; 2]
  /\ PolicyStorage.nextPolicyId
       (fst (PolicyStorage.run_log storage_calls PolicyStorage.constructor))
     = 3.
Proof.
  destruct (policyStored_numbering storage_calls PolicyStorage.constructor)
    as (H1 & H2 & _).
  - vm_compute. intros E. discriminate E.
  - split; [rewrite H2|rewrite H1]; reflexivity.
Defined.

End MoreScenarioFacts.

Section MoreFabricScenarioFacts.
Import Fabric Chaincode.

(** The constructor's sample patient, given a status through
    [updateClaimStatus]. *)
Lemma updateClaimStatus_frame_witness :
  exists claim' ledger',
    updateClaimStatus Js.decimal 5000 (JString "PAT001") (JString "approved")
                      (JString "ETH_TX_TEST_123") demo_ledger
    = inr (claim', ledger')
    /\ type claim' = "PatientRecord"
    /\ prop (data claim') "status" = JString "approved"
    /\ data claim' !! "createdAt" = Some (JString "1970-01-01T00:00:00.000Z").
Proof.
  assert (Hget : exists claim,
             map_get (JString "PAT001") demo_ledger = Some claim
             /\ type claim = "PatientRecord"
             /\ data claim !! "createdAt"
                = Some (JString "1970-01-01T00:00:00.000Z"))
    by (eexists; split; [vm_compute; reflexivity|split; vm_compute; reflexivity]).
  destruct Hget as (claim & Hget & Hty & Hc).
  destruct (updateClaimStatus_frame Js.decimal 5000 (JString "PAT001")
              (JString "approved") (JString "ETH_TX_TEST_123") demo_ledger)
    as (_ & H).
  destruct (H claim Hget)
    as (claim' & ledger' & H1 & _ & H3 & _ & H5 & _ & _ & H8 & _).
  exists claim', ledger'. split; [exact H1|].
  split; [congruence|]. split; [exact H5|].
  rewrite H8 by discriminate. exact Hc.
Defined.

(** The sample patient is the first patient record. *)
Lemma getAll_after_create_witness :
  getAllPatientRecords demo_ledger
  = [fst (createPatientRecord 0 0 demo_patient [])]
  /\ getAllClaimRequests demo_ledger = [].
Proof.
  destruct (getAll_after_create 0 0 demo_patient []) as (H & _).
  destruct (H eq_refl) as (H1 & H2).
  split; [exact H1 | exact H2].
Defined.



(** The sample patient is found by its hospital. *)
Lemma queryRecordsByHospital_finds_witness :
  In (fst (createPatientRecord 0 0 demo_patient []))
     (queryRecordsByHospital (fun _ : Z => false) (JString "HOSP001")
        demo_ledger).
Proof.
  destruct (queryRecordsByHospital_finds parseFloatZ Js.decimal
              (fun _ : Z => false) 0 0 demo_patient [])
    as (H & _).
  apply H. intros n E. reflexivity.
Defined.

End MoreFabricScenarioFacts.
